(** * Verification of the OpenAPI-to-zod compiler of [src/lib/api-modules/openapi.ts]

    Shallow embedding of the schema compiler ([convertJsonSchemaToZod] and its
    handlers) and of the per-operation template generator.  The compiler
    receives parsed JSON documents, typed [any] in the source, so the data it
    walks is modelled as a JavaScript value; property access, truthiness,
    spreads and the array methods the source calls are written out with their
    JavaScript behaviour, including the TypeError they raise on a receiver of
    the wrong kind.  Strings are byte strings (ASCII documents); numbers are
    the integer-valued JavaScript numbers. *)

From Stdlib Require Import String Ascii List Bool ZArith Lia.
From Stdlib Require Import FunctionalExtensionality.
Import ListNotations.
Open Scope string_scope.
Set Warnings "-register-all".

(** ** JavaScript values *)

Inductive value : Type :=
| VUndef
| VNull
| VBool (b : bool)
| VNum (z : Z)
| VStr (s : string)
| VArr (l : list value)
| VObj (kvs : list (string * value)).

(** JavaScript truthiness ([NaN] is not a modelled number). *)
Definition truthy (v : value) : bool :=
  match v with
  | VUndef | VNull => false
  | VBool b => b
  | VNum z => negb (Z.eqb z 0)
  | VStr s => negb (String.eqb s "")
  | VArr _ | VObj _ => true
  end.

(** [typeof v === "object"]. *)
Definition typeof_object (v : value) : bool :=
  match v with VNull | VArr _ | VObj _ => true | _ => false end.

Definition is_undefined (v : value) : bool :=
  match v with VUndef => true | _ => false end.

Definition is_nullish (v : value) : bool :=
  match v with VUndef | VNull => true | _ => false end.

(** [v === "s"]. *)
Definition is_str (s : string) (v : value) : bool :=
  match v with VStr t => String.eqb t s | _ => false end.

(** [Array.isArray v]. *)
Definition is_array (v : value) : bool :=
  match v with VArr _ => true | _ => false end.

(** SameValueZero, as used by [includes], [indexOf] and [Set]: primitives by
    value; two distinct parsed objects or arrays are never identical. *)
Definition same_value_zero (a b : value) : bool :=
  match a, b with
  | VUndef, VUndef | VNull, VNull => true
  | VBool x, VBool y => Bool.eqb x y
  | VNum x, VNum y => Z.eqb x y
  | VStr x, VStr y => String.eqb x y
  | _, _ => false
  end.

(** ** Evaluation results: a value, a raised exception, or exhausted fuel *)

Inductive res (A : Type) : Type :=
| Ok (a : A)
| Throw (err : string)
| OutOfFuel.
Arguments Ok {A} a.
Arguments Throw {A} err.
Arguments OutOfFuel {A}.

Definition res_bind {A B} (m : res A) (k : A -> res B) : res B :=
  match m with
  | Ok a => k a
  | Throw e => Throw e
  | OutOfFuel => OutOfFuel
  end.

Notation "x <-? m ;; k" := (res_bind m (fun x => k))
  (at level 61, m at next level, right associativity).

Definition type_error {A} : res A := Throw "TypeError".

(** [l.map(f)] with a callback that may raise. *)
Fixpoint map_res {A B} (f : A -> res B) (l : list A) : res (list B) :=
  match l with
  | [] => Ok []
  | x :: t => y <-? f x ;; ys <-? map_res f t ;; Ok (y :: ys)
  end.


(** ** Decimal rendering of numbers and [String(v)] *)

Definition digit (n : N) : ascii := ascii_of_N (48 + n).

Fixpoint N_digits (fuel : nat) (n : N) (acc : string) : string :=
  match fuel with
  | O => acc
  | S f =>
      let acc' := String (digit (N.modulo n 10)) acc in
      if N.ltb n 10 then acc' else N_digits f (N.div n 10) acc'
  end.

Definition N_to_string (n : N) : string := N_digits (S (N.size_nat n)) n "".

Definition Z_to_string (z : Z) : string :=
  match z with
  | Z0 => "0"
  | Zpos p => N_to_string (Npos p)
  | Zneg p => "-" ++ N_to_string (Npos p)
  end.

Definition dq : string := String (ascii_of_nat 34) EmptyString.
Definition quote (s : string) : string := dq ++ s ++ dq.

Fixpoint join (sep : string) (l : list string) : string :=
  match l with
  | [] => ""
  | [x] => x
  | x :: t => x ++ sep ++ join sep t
  end.

(** [Number.prototype.toString()] on an integer-valued number.  [VNum z]
    holds the number a JSON or YAML reader makes of the literal [z]: the
    nearest double.  The digits printed are the fewest that read back as that
    double (the closest such, the even one on a tie), as plain digits up to
    21 of them and in exponent form [d.ddde+N] beyond. *)

(** The double nearest a positive integer (ties to even). *)
Definition round_double (v : Z) : Z :=
  let b := (Z.log2 v + 1)%Z in
  if (b <=? 53)%Z then v else
  let e := (b - 53)%Z in
  let q := Z.shiftr v e in
  let r := (v - Z.shiftl q e)%Z in
  let half := Z.shiftl 1 (e - 1) in
  let q' := if (half <? r)%Z || ((r =? half)%Z && Z.odd q) then (q + 1)%Z else q in
  Z.shiftl q' e.

(** The nearest multiple of [10^j] that reads back as [n], trying the
    coarsest grid first ([j] down to [0]). *)
Fixpoint shortest_from (n : Z) (j : nat) : Z :=
  let g := (10 ^ Z.of_nat j)%Z in
  let lo := (n / g * g)%Z in
  let hi := (lo + g)%Z in
  let lo_ok := (0 <? lo)%Z && (round_double lo =? n)%Z in
  let hi_ok := (round_double hi =? n)%Z in
  match lo_ok, hi_ok with
  | true, true =>
      if (n - lo <? hi - n)%Z then lo
      else if (hi - n <? n - lo)%Z then hi
      else if Z.even (lo / g) then lo else hi
  | true, false => lo
  | false, true => hi
  | false, false => match j with O => n | S j' => shortest_from n j' end
  end.

Fixpoint strip_trailing_zeros_rev (s : list ascii) : list ascii :=
  match s with
  | c :: t => if Ascii.eqb c "0" then strip_trailing_zeros_rev t else s
  | [] => []
  end.

(** The rendering of a positive double [c] whose digits are already the
    shortest ones. *)
Definition format_positive (c : Z) : string :=
  let d := Z_to_string c in
  if Nat.leb (String.length d) 21 then d else
  match rev (strip_trailing_zeros_rev (rev (list_ascii_of_string d))) with
  | [] => d
  | c0 :: rest =>
      String c0 (match rest with [] => "" | _ => "." ++ string_of_list_ascii rest end) ++
      "e+" ++ Z_to_string (Z.of_nat (String.length d) - 1)
  end.

(** A positive integer read as a JavaScript number: the nearest double, or
    [Infinity] past the largest one. *)
Definition positive_to_string (n : Z) : string :=
  let x := round_double n in
  if (2 ^ 1024 <=? x)%Z then "Infinity"
  else format_positive (shortest_from x (pred (String.length (Z_to_string x)))).

Definition number_to_string (z : Z) : string :=
  match z with
  | Z0 => "0"
  | Zpos p => positive_to_string (Zpos p)
  | Zneg p => "-" ++ positive_to_string (Zpos p)
  end.

(** [String(v)] / template-literal interpolation [`${v}`].  A parsed object
    converts through [Object.prototype.toString], unless it has an own
    [toString] property: a parsed value is never callable, and the inherited
    [valueOf] returns the object itself, so the conversion raises a
    TypeError.  An array converts through [join(",")], with [null] and
    [undefined] elements as empty strings. *)
Fixpoint js_to_string (v : value) : res string :=
  match v with
  | VUndef => Ok "undefined"
  | VNull => Ok "null"
  | VBool true => Ok "true"
  | VBool false => Ok "false"
  | VNum z => Ok (number_to_string z)
  | VStr s => Ok s
  | VArr l =>
      parts <-? (fix elements (l : list value) : res (list string) :=
                   match l with
                   | [] => Ok []
                   | x :: t =>
                       p <-? (match x with VUndef | VNull => Ok "" | _ => js_to_string x end) ;;
                       ps <-? elements t ;;
                       Ok (p :: ps)
                   end) l ;;
      Ok (join "," parts)
  | VObj kvs =>
      if existsb (fun kv => String.eqb (fst kv) "toString") kvs then type_error
      else Ok "[object Object]"
  end.

(** ** Strings *)

Fixpoint string_of_list (l : list ascii) : string :=
  match l with [] => "" | c :: t => String c (string_of_list t) end.

Definition char_str (c : ascii) : string := String c EmptyString.

Definition is_digit (c : ascii) : bool :=
  let n := nat_of_ascii c in Nat.leb 48 n && Nat.leb n 57.

Definition is_lower (c : ascii) : bool :=
  let n := nat_of_ascii c in Nat.leb 97 n && Nat.leb n 122.

Definition is_upper (c : ascii) : bool :=
  let n := nat_of_ascii c in Nat.leb 65 n && Nat.leb n 90.

(** [s.toLowerCase()] on ASCII text. *)
Definition lower_char (c : ascii) : ascii :=
  if is_upper c then ascii_of_nat (nat_of_ascii c + 32) else c.

Fixpoint to_lower (s : string) : string :=
  match s with
  | EmptyString => EmptyString
  | String c t => String (lower_char c) (to_lower t)
  end.

(** [s.toUpperCase()] on ASCII text. *)
Definition upper_char (c : ascii) : ascii :=
  if is_lower c then ascii_of_nat (nat_of_ascii c - 32) else c.

Fixpoint to_upper (s : string) : string :=
  match s with
  | EmptyString => EmptyString
  | String c t => String (upper_char c) (to_upper t)
  end.

(** [s.includes(pat)] (substring search). *)
Fixpoint str_includes (pat s : string) : bool :=
  String.prefix pat s ||
  match s with
  | EmptyString => false
  | String _ t => str_includes pat t
  end.

(** [s.split(sep)] for a one-character separator. *)
Fixpoint split_char (sep : ascii) (s : string) : list string :=
  match s with
  | EmptyString => [""]
  | String c t =>
      let rest := split_char sep t in
      if Ascii.eqb c sep then "" :: rest
      else match rest with
           | [] => [char_str c]
           | w :: ws => String c w :: ws
           end
  end.

(** [/^[a-zA-Z_$][a-zA-Z0-9_$]*$/.test(s)] *)
Definition ident_start (c : ascii) : bool :=
  is_lower c || is_upper c || Ascii.eqb c "_" || Ascii.eqb c "$".

Definition ident_char (c : ascii) : bool := ident_start c || is_digit c.

Fixpoint all_ident_chars (s : string) : bool :=
  match s with
  | EmptyString => true
  | String c t => ident_char c && all_ident_chars t
  end.

Definition is_bare_identifier (s : string) : bool :=
  match s with
  | EmptyString => false
  | String c t => ident_start c && all_ident_chars t
  end.

(** [String(p).replace(/\\/g, "\\\\").replace(/"/g, '\\"')] *)
Definition backslash : ascii := ascii_of_nat 92.

Fixpoint escape_backslashes (s : string) : string :=
  match s with
  | EmptyString => EmptyString
  | String c t =>
      if Ascii.eqb c backslash then String backslash (String backslash (escape_backslashes t))
      else String c (escape_backslashes t)
  end.

Fixpoint escape_quotes (s : string) : string :=
  match s with
  | EmptyString => EmptyString
  | String c t =>
      if Ascii.eqb c (ascii_of_nat 34) then String backslash (String c (escape_quotes t))
      else String c (escape_quotes t)
  end.

(** ** Objects and property access *)

(** Canonical array-index property names ("0", "1", ..., no leading zero);
    JavaScript enumerates them first, in ascending numeric order. *)
Fixpoint digits_value (s : string) (acc : N) : option N :=
  match s with
  | EmptyString => Some acc
  | String c t =>
      if is_digit c then digits_value t (acc * 10 + N.of_nat (nat_of_ascii c - 48))%N
      else None
  end.

Definition array_index (k : string) : option N :=
  match k with
  | EmptyString => None
  | String c t =>
      if Ascii.eqb c "0" then (if String.eqb t "" then Some 0%N else None)
      else match digits_value k 0 with
           | Some n => if N.ltb n 4294967295 then Some n else None
           | None => None
           end
  end.

Definition index_key (n : nat) : string := N_to_string (N.of_nat n).

(** Adding a property that is not yet present: index keys go among the index
    keys in numeric order, other keys at the end. *)
Fixpoint insert_new (k : string) (v : value) (kvs : list (string * value))
  : list (string * value) :=
  match kvs with
  | [] => [(k, v)]
  | (k', v') :: t =>
      match array_index k, array_index k' with
      | Some i, Some j => if N.ltb i j then (k, v) :: kvs else (k', v') :: insert_new k v t
      | Some _, None => (k, v) :: kvs
      | None, _ => (k', v') :: insert_new k v t
      end
  end.

Fixpoint obj_has (kvs : list (string * value)) (k : string) : bool :=
  match kvs with
  | [] => false
  | (k', _) :: t => String.eqb k k' || obj_has t k
  end.

Fixpoint obj_replace (kvs : list (string * value)) (k : string) (v : value)
  : list (string * value) :=
  match kvs with
  | [] => []
  | (k', v') :: t => if String.eqb k k' then (k, v) :: t else (k', v') :: obj_replace t k v
  end.

(** [o[k] = v] on a plain data object: an existing property keeps its place. *)
Definition obj_set (kvs : list (string * value)) (k : string) (v : value)
  : list (string * value) :=
  if obj_has kvs k then obj_replace kvs k v else insert_new k v kvs.

Fixpoint obj_lookup (kvs : list (string * value)) (k : string) : option value :=
  match kvs with
  | [] => None
  | (k', v) :: t => if String.eqb k k' then Some v else obj_lookup t k
  end.

(** Own enumerable entries, as [Object.entries] lists them. *)
Fixpoint indexed {A} (start : nat) (l : list A) : list (string * A) :=
  match l with
  | [] => []
  | x :: t => (index_key start, x) :: indexed (S start) t
  end.

Fixpoint chars (s : string) : list value :=
  match s with
  | EmptyString => []
  | String c t => VStr (char_str c) :: chars t
  end.

Definition own_entries (v : value) : list (string * value) :=
  match v with
  | VObj kvs => kvs
  | VArr l => indexed 0 l
  | VStr s => indexed 0 (chars s)
  | _ => []
  end.

(** [Object.entries(v)] (and [Object.keys], [Object.values]): a TypeError on
    [null] and [undefined]. *)
Definition object_entries (v : value) : res (list (string * value)) :=
  if is_nullish v then type_error else Ok (own_entries v).

(** [v[k]] for a string key: a TypeError on [null] and [undefined]. *)
Definition get (v : value) (k : string) : res value :=
  match v with
  | VUndef | VNull => type_error
  | VObj kvs => Ok (match obj_lookup kvs k with Some x => x | None => VUndef end)
  | VArr l =>
      if String.eqb k "length" then Ok (VNum (Z.of_nat (length l)))
      else match array_index k with
           | Some i => Ok (nth (N.to_nat i) l VUndef)
           | None => Ok VUndef
           end
  | VStr s =>
      if String.eqb k "length" then Ok (VNum (Z.of_nat (String.length s)))
      else match array_index k with
           | Some i => Ok (nth (N.to_nat i) (chars s) VUndef)
           | None => Ok VUndef
           end
  | VBool _ | VNum _ => Ok VUndef
  end.

(** [{ ...o, ...v }]: the own enumerable entries of [v] copied onto [o];
    spreading [null], [undefined], booleans and numbers adds nothing. *)
Definition obj_spread (o : list (string * value)) (v : value) : list (string * value) :=
  fold_left (fun acc kv => obj_set acc (fst kv) (snd kv)) (own_entries v) o.

(** Iterating [v] ([...v], [for..of]): arrays and strings only. *)
Definition iterate (v : value) : res (list value) :=
  match v with
  | VArr l => Ok l
  | VStr s => Ok (chars s)
  | _ => type_error
  end.

(** The receiver of [.map], [.filter], [.reduce]: only arrays have them. *)
Definition array_receiver (v : value) : res (list value) :=
  match v with VArr l => Ok l | _ => type_error end.

(** [new Set(l)] spread back into an array: first occurrences, in order. *)
Definition svz_dedup (l : list value) : list value :=
  fold_left (fun acc x => if existsb (same_value_zero x) acc then acc else (acc ++ [x])%list)
    l [].

(** ** The reference set and the compiler monad

    [collectedRefs?: Set<string>] is optional: [None] when the caller passes
    no set.  A compilation step threads it and may raise. *)

Definition refs := option (list string).

(** [set.add(x)] on a [Set<string>]: appended if absent. *)
Definition set_add (x : string) (l : list string) : list string :=
  if existsb (String.eqb x) l then l else (l ++ [x])%list.

Definition M (A : Type) := refs -> res (A * refs).

Definition ret {A} (a : A) : M A := fun r => Ok (a, r).

Definition bind {A B} (m : M A) (k : A -> M B) : M B :=
  fun r => match m r with
           | Ok (a, r') => k a r'
           | Throw e => Throw e
           | OutOfFuel => OutOfFuel
           end.

Definition lift {A} (m : res A) : M A :=
  fun r => match m with
           | Ok a => Ok (a, r)
           | Throw e => Throw e
           | OutOfFuel => OutOfFuel
           end.

Notation "x <- m ;; k" := (bind m (fun x => k))
  (at level 61, m at next level, right associativity).

(** [if (collectedRefs) collectedRefs.add(name)] *)
Definition add_ref (name : string) : M unit :=
  fun r => Ok (tt, match r with None => None | Some l => Some (set_add name l) end).

Fixpoint mapM {A B} (f : A -> M B) (l : list A) : M (list B) :=
  match l with
  | [] => ret []
  | x :: t => y <- f x ;; ys <- mapM f t ;; ret (y :: ys)
  end.

(** ** Scalar handlers *)

Definition format_validator (f : value) : string :=
  if is_str "email" f then ".email()"
  else if is_str "date-time" f then ".datetime()"
  else if is_str "uri" f || is_str "url" f then ".url()"
  else if is_str "uuid" f then ".uuid()"
  else if is_str "date" f then ".date()"
  else "".

Definition handleStringSchema (schema : value) : res string :=
  e <-? get schema "enum" ;;
  if truthy e then
    l <-? array_receiver e ;;
    enumValues <-? map_res (fun v => sv <-? js_to_string v ;; Ok (quote sv)) l ;;
    Ok ("z.enum([" ++ join ", " enumValues ++ "])")
  else
    f <-? get schema "format" ;;
    let r1 := "z.string()" ++ (if truthy f then format_validator f else "") in
    p <-? get schema "pattern" ;;
    r2 <-? (if truthy p then
              ps <-? js_to_string p ;;
              Ok (r1 ++ ".regex(new RegExp(" ++
                  quote (escape_quotes (escape_backslashes ps)) ++ "))")
            else Ok r1) ;;
    mn <-? get schema "minLength" ;;
    r3 <-? (if is_undefined mn then Ok r2 else
              sn <-? js_to_string mn ;; Ok (r2 ++ ".min(" ++ sn ++ ")")) ;;
    mx <-? get schema "maxLength" ;;
    if is_undefined mx then Ok r3 else
      sx <-? js_to_string mx ;; Ok (r3 ++ ".max(" ++ sx ++ ")").

Definition is_number (v : value) : bool :=
  match v with VNum _ => true | _ => false end.

(** The checks appended after the enum test of [handleNumberSchema].  The
    two interpolations of [multipleOf] convert the same value, so they give
    the same text or raise alike. *)
Definition number_checks (schema : value) : res string :=
  t <-? get schema "type" ;;
  let r1 := "z.number()" ++ (if is_str "integer" t then ".int()" else "") in
  mn <-? get schema "minimum" ;;
  r2 <-? (if is_undefined mn then Ok r1 else
            emn <-? get schema "exclusiveMinimum" ;;
            sn <-? js_to_string mn ;;
            Ok (r1 ++ (if truthy emn then ".gt(" ++ sn ++ ")" else ".gte(" ++ sn ++ ")"))) ;;
  mx <-? get schema "maximum" ;;
  r3 <-? (if is_undefined mx then Ok r2 else
            emx <-? get schema "exclusiveMaximum" ;;
            sx <-? js_to_string mx ;;
            Ok (r2 ++ (if truthy emx then ".lt(" ++ sx ++ ")" else ".lte(" ++ sx ++ ")"))) ;;
  m <-? get schema "multipleOf" ;;
  if is_undefined m then Ok r3 else
    sm <-? js_to_string m ;;
    Ok (r3 ++ ".refine(val => val % " ++ sm ++ " === 0, { message: " ++
        dq ++ "Number must be a multiple of " ++ sm ++ dq ++ " })").

Definition handleNumberSchema (schema : value) : res string :=
  e <-? get schema "enum" ;;
  if truthy e then
    l <-? array_receiver e ;;
    match filter is_number l with
    | [] => number_checks schema
    | nums =>
        ss <-? map_res js_to_string nums ;;
        let js := join ", " ss in
        Ok ("z.number().refine(val => [" ++ js ++ "].includes(val), { message: " ++
            dq ++ "Number must be one of: " ++ js ++ dq ++ " })")
    end
  else number_checks schema.

(** ** Structural handlers, given the recursive call [conv] *)

Section Handlers.

Variable conv : value -> M string.

(** [{ ...schema, type: t }] *)
Definition with_type (schema t : value) : value :=
  VObj (obj_set (obj_spread [] schema) "type" t).

Definition union_of (schemas : list string) : string :=
  "z.union([" ++ join ", " schemas ++ "])".

Definition handleTypeUnion (types : list value) (baseSchema : value) : M string :=
  schemas <- mapM (fun t => conv (with_type baseSchema t)) types ;;
  match schemas with
  | [s] => ret s
  | _ => ret (union_of schemas)
  end.

Definition handleNullableType (schema : value) : M string :=
  types <- lift (get schema "type") ;;
  l <- lift (array_receiver types) ;;
  if existsb (is_str "null") l then
    let nonNullTypes := filter (fun t => negb (is_str "null" t)) l in
    match nonNullTypes with
    | [t] =>
        baseSchema <- conv (with_type schema t) ;;
        ret (baseSchema ++ ".nullable()")
    | [] => ret "z.null()"
    | _ =>
        unionSchema <- handleTypeUnion nonNullTypes schema ;;
        ret (unionSchema ++ ".nullable()")
    end
  else handleTypeUnion l schema.

(** The reducer of [mergeAllOfSchemas]; [merged] is always an object. *)
Definition merge_step (merged current : value) : res value :=
  let result := obj_spread (obj_spread [] merged) current in
  mp <-? get merged "properties" ;;
  r1 <-? (if truthy mp then
            cp <-? get current "properties" ;;
            if truthy cp
            then Ok (obj_set result "properties" (VObj (obj_spread (obj_spread [] mp) cp)))
            else Ok result
          else Ok result) ;;
  mr <-? get merged "required" ;;
  if truthy mr then
    cr <-? get current "required" ;;
    if truthy cr then
      a <-? iterate mr ;;
      b <-? iterate cr ;;
      Ok (VObj (obj_set r1 "required" (VArr (svz_dedup (a ++ b)%list))))
    else Ok (VObj r1)
  else Ok (VObj r1).

Fixpoint fold_res (f : value -> value -> res value) (acc : value) (l : list value)
  : res value :=
  match l with
  | [] => Ok acc
  | x :: t => acc' <-? f acc x ;; fold_res f acc' t
  end.

Definition mergeAllOfSchemas (schemas : value) : res value :=
  l <-? array_receiver schemas ;;
  fold_res merge_step (VObj []) l.

Definition handleCombinators (schema : value) : M string :=
  oneOf <- lift (get schema "oneOf") ;;
  if truthy oneOf then
    l <- lift (array_receiver oneOf) ;;
    schemas <- mapM conv l ;;
    ret (union_of schemas)
  else
  anyOf <- lift (get schema "anyOf") ;;
  if truthy anyOf then
    l <- lift (array_receiver anyOf) ;;
    schemas <- mapM conv l ;;
    ret (union_of schemas)
  else
  allOf <- lift (get schema "allOf") ;;
  if truthy allOf then
    mergedSchema <- lift (mergeAllOfSchemas allOf) ;;
    conv mergedSchema
  else ret "z.any()".

Definition handleArraySchema (schema : value) : M string :=
  items <- lift (get schema "items") ;;
  itemSchema <- (if truthy items then conv items else ret "z.any()") ;;
  minItems <- lift (get schema "minItems") ;;
  minPart <- lift (if is_undefined minItems then Ok "" else
                     sn <-? js_to_string minItems ;; Ok (".min(" ++ sn ++ ")")) ;;
  maxItems <- lift (get schema "maxItems") ;;
  maxPart <- lift (if is_undefined maxItems then Ok "" else
                     sx <-? js_to_string maxItems ;; Ok (".max(" ++ sx ++ ")")) ;;
  uniqueItems <- lift (get schema "uniqueItems") ;;
  ret ("z.array(" ++ itemSchema ++ ")" ++ minPart ++ maxPart ++
       (if truthy uniqueItems
        then ".refine(items => new Set(items).size === items.length, { message: " ++
             dq ++ "Array items must be unique" ++ dq ++ " })"
        else "")).

(** [schema.required?.includes(key)]: arrays test membership, strings test
    for a substring, other non-nullish values have no [includes]. *)
Definition required_includes (schema : value) (key : string) : res bool :=
  rq <-? get schema "required" ;;
  match rq with
  | VUndef | VNull => Ok false
  | VArr l => Ok (existsb (same_value_zero (VStr key)) l)
  | VStr s => Ok (str_includes key s)
  | _ => type_error
  end.

Definition property_name (key : string) : string :=
  if is_bare_identifier key then key else quote key.

Definition handleObjectSchema (schema : value) : M string :=
  props <- lift (get schema "properties") ;;
  if negb (truthy props) then ret "z.object({})" else
  entries <- lift (object_entries props) ;;
  fields <- mapM (fun kv =>
                    propSchema <- conv (snd kv) ;;
                    isRequired <- lift (required_includes schema (fst kv)) ;;
                    ret (property_name (fst kv) ++ ": " ++ propSchema ++
                         (if isRequired then "" else ".optional()"))) entries ;;
  let result := "z.object({ " ++ join ", " fields ++ " })" in
  ap <- lift (get schema "additionalProperties") ;;
  match ap with
  | VBool true => ret (result ++ ".passthrough()")
  | VBool false => ret (result ++ ".strict()")
  | _ =>
      if truthy ap && typeof_object ap then
        additionalSchema <- conv ap ;;
        ret (result ++ ".catchall(" ++ additionalSchema ++ ")")
      else ret result
  end.

End Handlers.

(** ** [convertJsonSchemaToZod]

    Each recursive call consumes one unit of fuel; [OutOfFuel] marks an
    evaluation cut short, never a behaviour of the source. *)
Fixpoint convertJsonSchemaToZod (fuel : nat) (schema : value) : M string :=
  match fuel with
  | O => fun _ => OutOfFuel
  | S n =>
      let conv := convertJsonSchemaToZod n in
      if negb (truthy schema) || negb (typeof_object schema) then ret "z.any()" else
      ref <- lift (get schema "$ref") ;;
      if truthy ref then
        refParts <- lift (match ref with VStr s => Ok (split_char "/" s) | _ => type_error end) ;;
        let schemaName := last refParts "" in
        _ <- add_ref schemaName ;;
        ret (schemaName ++ "Schema")
      else
      ty <- lift (get schema "type") ;;
      if is_array ty then handleNullableType conv schema else
      oneOf <- lift (get schema "oneOf") ;;
      anyOf <- lift (get schema "anyOf") ;;
      allOf <- lift (get schema "allOf") ;;
      if truthy oneOf || truthy anyOf || truthy allOf then handleCombinators conv schema else
      if is_str "string" ty then lift (handleStringSchema schema)
      else if is_str "number" ty || is_str "integer" ty then lift (handleNumberSchema schema)
      else if is_str "boolean" ty then ret "z.boolean()"
      else if is_str "array" ty then handleArraySchema conv schema
      else if is_str "object" ty then handleObjectSchema conv schema
      else ret "z.any()"
  end.

(** ** Named schemas: [extractAndWriteSchemas]

    The name-to-symbol mapping [schemas : Record<string, string>] is a plain
    object: a name missing from it still reads the members inherited from
    [Object.prototype], all of them truthy. *)

Definition object_prototype_keys : list string :=
  ["constructor"; "__defineGetter__"; "__defineSetter__"; "hasOwnProperty";
   "__lookupGetter__"; "__lookupSetter__"; "isPrototypeOf";
   "propertyIsEnumerable"; "toString"; "valueOf"; "__proto__"; "toLocaleString"].

Definition registry := list (string * string).

(** [if (schemas[name])] *)
Definition registry_truthy (schemas : registry) (name : string) : bool :=
  match find (fun kv => String.eqb (fst kv) name) schemas with
  | Some (_, sym) => negb (String.eqb sym "")
  | None => existsb (String.eqb name) object_prototype_keys
  end.

(** [schemas[name] = sym]; assigning a string to [__proto__] is ignored. *)
Definition registry_set (schemas : registry) (name sym : string) : registry :=
  if String.eqb name "__proto__" then schemas
  else if existsb (fun kv => String.eqb (fst kv) name) schemas
  then map (fun kv => if String.eqb (fst kv) name then (name, sym) else kv) schemas
  else (schemas ++ [(name, sym)])%list.

Definition nl : string := String (ascii_of_nat 10) EmptyString.

Definition import_line (ref : string) : string :=
  "import { " ++ ref ++ "Schema } from " ++ quote ("@/schemas/" ++ ref) ++ ";".

(** A written file: [Bun.write(path, content)]. *)
Definition file := (string * string)%type.

Definition schema_file_content (schemaName zodSchema imports : string) : string :=
  "import { z } from " ++ quote "zod" ++ ";" ++ nl ++
  (if String.eqb imports "" then "" else imports ++ nl) ++ nl ++
  "export const " ++ schemaName ++ "Schema = " ++ zodSchema ++ ";" ++ nl ++ nl ++
  "export type " ++ schemaName ++ " = z.infer<typeof " ++ schemaName ++ "Schema>;" ++ nl.

(** The imports of one named-schema file. *)
Definition schema_file_imports (schemaName : string) (referencedSchemas : list string)
  : string :=
  join nl (map import_line (filter (fun ref => negb (String.eqb ref schemaName))
                                   referencedSchemas)).

Fixpoint write_schemas (fuel : nat) (schemasDir : string)
    (entries : list (string * value)) (schemas : registry) (files : list file)
  : res (registry * list file) :=
  match entries with
  | [] => Ok (schemas, files)
  | (schemaName, schemaDefinition) :: rest =>
      zr <-? convertJsonSchemaToZod fuel schemaDefinition (Some []) ;;
      let zodSchema := fst zr in
      let referencedSchemas := match snd zr with Some l => l | None => [] end in
      let imports := schema_file_imports schemaName referencedSchemas in
      let filePath := schemasDir ++ "/" ++ schemaName ++ ".ts" in
      write_schemas fuel schemasDir rest
        (registry_set schemas schemaName (schemaName ++ "Schema"))
        (files ++ [(filePath, schema_file_content schemaName zodSchema imports)])%list
  end.

Definition extractAndWriteSchemas (fuel : nat) (apiName : string) (spec : value)
  : res (registry * list file) :=
  components <-? get spec "components" ;;
  cs <-? (if is_nullish components then Ok VUndef else get components "schemas") ;;
  if negb (truthy cs) then Ok ([], []) else
  let schemasDir := ".rekku/apis/" ++ apiName ++ "/schemas" in
  entries <-? object_entries cs ;;
  write_schemas fuel schemasDir entries [] [(schemasDir ++ "/.gitkeep", "")].

(** ** Operation templates *)

Record SchemaResult := { sr_schema : string; sr_imports : list string }.

Definition never_result : SchemaResult := {| sr_schema := "z.never()"; sr_imports := [] |}.

Definition convertSchemaWithImports (fuel : nat) (schema : value) (schemas : registry)
  : res SchemaResult :=
  let convert_all :=
    zr <-? convertJsonSchemaToZod fuel schema (Some []) ;;
    let referencedSchemas := match snd zr with Some l => l | None => [] end in
    Ok {| sr_schema := fst zr;
          sr_imports := map import_line (filter (registry_truthy schemas) referencedSchemas) |}
  in
  ref <-? get schema "$ref" ;;
  if truthy ref then
    refParts <-? (match ref with VStr s => Ok (split_char "/" s) | _ => type_error end) ;;
    let schemaName := last refParts "" in
    if registry_truthy schemas schemaName
    then Ok {| sr_schema := schemaName ++ "Schema"; sr_imports := [import_line schemaName] |}
    else convert_all
  else convert_all.

(** [content["application/json"] || content[Object.keys(content)[0]]] *)
Definition select_content (content : value) : res value :=
  contentTypes <-? object_entries content ;;
  jsonContent <-? get content "application/json" ;;
  if truthy jsonContent then Ok jsonContent
  else get content (match contentTypes with (k, _) :: _ => k | [] => "undefined" end).

(** The media-type selection and compilation shared by the request body and
    the selected response. *)
Definition content_schema_result (fuel : nat) (holder : value) (schemas : registry)
  : res SchemaResult :=
  c <-? get holder "content" ;;
  if negb (truthy c) then Ok never_result else
  content <-? select_content c ;;
  if negb (truthy content) then Ok never_result else
  schema <-? get content "schema" ;;
  if negb (truthy schema) then Ok never_result else
  convertSchemaWithImports fuel schema schemas.

Definition generateInputSchema (fuel : nat) (operation : value) (schemas : registry)
  : res SchemaResult :=
  requestBody <-? get operation "requestBody" ;;
  if negb (truthy requestBody) then Ok never_result else
  content_schema_result fuel requestBody schemas.

Fixpoint filter_res {A} (f : A -> res bool) (l : list A) : res (list A) :=
  match l with
  | [] => Ok []
  | x :: t => b <-? f x ;; rest <-? filter_res f t ;; Ok (if b then x :: rest else rest)
  end.

(** [operation.parameters?.filter((p) => p.in === "query") || []] *)
Definition query_parameters (operation : value) : res (list value) :=
  parameters <-? get operation "parameters" ;;
  if is_nullish parameters then Ok [] else
  l <-? array_receiver parameters ;;
  filter_res (fun p => i <-? get p "in" ;; Ok (is_str "query" i)) l.

Definition query_field (fuel : nat) (param : value) : res string :=
  required <-? get param "required" ;;
  let isRequired := truthy required in
  schema <-? get param "schema" ;;
  zr <-? convertJsonSchemaToZod fuel schema None ;;
  name <-? get param "name" ;;
  nameString <-? js_to_string name ;;
  Ok (property_name nameString ++ ": " ++ fst zr ++
      (if isRequired then "" else ".optional()")).

Definition generateQuerySchema (fuel : nat) (operation : value) : res SchemaResult :=
  queryParams <-? query_parameters operation ;;
  match queryParams with
  | [] => Ok {| sr_schema := "z.object({})"; sr_imports := [] |}
  | _ =>
      schemaFields <-? map_res (query_field fuel) queryParams ;;
      Ok {| sr_schema := "z.object({ " ++ join ", " schemaFields ++ " })"; sr_imports := [] |}
  end.

(** [r.description?.toLowerCase().includes("success")] *)
Definition describes_success (r : value) : res bool :=
  d <-? get r "description" ;;
  match d with
  | VUndef | VNull => Ok false
  | VStr s => Ok (str_includes "success" (to_lower s))
  | _ => type_error
  end.

(** [Array.prototype.find]: the first element the predicate accepts. *)
Fixpoint find_res (f : value -> res bool) (l : list value) : res value :=
  match l with
  | [] => Ok VUndef
  | x :: t => b <-? f x ;; if b then Ok x else find_res f t
  end.

Definition success_response (responses : value) : res value :=
  r200 <-? get responses "200" ;;
  if truthy r200 then Ok r200 else
  r201 <-? get responses "201" ;;
  if truthy r201 then Ok r201 else
  r202 <-? get responses "202" ;;
  if truthy r202 then Ok r202 else
  entries <-? object_entries responses ;;
  find_res describes_success (map snd entries).

Definition generateOutputSchema (fuel : nat) (operation : value) (schemas : registry)
  : res SchemaResult :=
  responses <-? get operation "responses" ;;
  successResponse <-? success_response responses ;;
  if negb (truthy successResponse) then Ok never_result else
  content_schema_result fuel successResponse schemas.

(** ** [generateFilePath] *)

Definition slash : ascii := "/".

(** [.replace(/^\/+/, "")] *)
Fixpoint strip_leading_slashes (s : string) : string :=
  match s with
  | String c t => if Ascii.eqb c slash then strip_leading_slashes t else s
  | EmptyString => s
  end.

(** [.replace(/\/+$/, "")] *)
Fixpoint strip_trailing_slashes (s : string) : string :=
  match s with
  | EmptyString => EmptyString
  | String c t =>
      let t' := strip_trailing_slashes t in
      if Ascii.eqb c slash && String.eqb t' "" then EmptyString else String c t'
  end.

(** [.replace(/\/+/g, "/")]; [prev] tells whether the previous character was
    a slash of the current run. *)
Fixpoint collapse_slashes (prev : bool) (s : string) : string :=
  match s with
  | EmptyString => EmptyString
  | String c t =>
      if Ascii.eqb c slash then
        (if prev then collapse_slashes true t else String slash (collapse_slashes true t))
      else String c (collapse_slashes false t)
  end.

Definition clean_path (path : string) : string :=
  collapse_slashes false (strip_trailing_slashes (strip_leading_slashes path)).

Definition generateFilePath (path method : string) : string :=
  let cleanPath := clean_path path in
  let cleanPath := if String.eqb cleanPath "" then "root" else cleanPath in
  cleanPath ++ "/" ++ to_lower method ++ ".ts".

Definition isValidHttpMethod (method : string) : bool :=
  existsb (String.eqb (to_lower method))
    ["get"; "post"; "put"; "delete"; "patch"; "head"; "options"].

(** ** [generateTemplate] *)

Record Template := { filename : string; content : string }.

(** [l.filter((imp, index, arr) => arr.indexOf(imp) === index)] *)
Fixpoint index_of (x : string) (l : list string) : nat :=
  match l with
  | [] => 0
  | y :: t => if String.eqb x y then 0 else S (index_of x t)
  end.

Definition dedup_first (l : list string) : list string :=
  map fst (filter (fun p => Nat.eqb (index_of (fst p) l) (snd p))
             (combine l (seq 0 (length l)))).

Definition template_imports (input query output : SchemaResult) : list string :=
  dedup_first (sr_imports input ++ sr_imports query ++ sr_imports output)%list.

Fixpoint lines (l : list string) : string :=
  match l with [] => "" | x :: t => x ++ nl ++ lines t end.

Definition render_source : string :=
  lines
    ["export function render(data: Partial<z.infer<typeof inputSchema> & z.infer<typeof querySchema>>): {";
     "  input: z.infer<typeof inputSchema>;";
     "  query: z.infer<typeof querySchema>;";
     "} {";
     "  // Handle the case where inputSchema is z.never() (no request body)";
     "  let input: z.infer<typeof inputSchema>;";
     "  try {";
     "    input = inputSchema.parse(data);";
     "  } catch {";
     "    // If inputSchema is z.never(), return undefined as the input";
     "    input = undefined as z.infer<typeof inputSchema>;";
     "  }";
     "";
     "  return {";
     "    input,";
     "    query: querySchema.parse(data),";
     "  };";
     "}"].

Definition template_content (allImports : list string) (input query output : string)
    (method path : string) : string :=
  "import { z } from " ++ quote "zod" ++ ";" ++ nl ++
  (match allImports with [] => "" | _ => join nl allImports ++ nl end) ++ nl ++
  "export const inputSchema = " ++ input ++ ";" ++ nl ++ nl ++
  "export const querySchema = " ++ query ++ ";" ++ nl ++ nl ++
  "export const outputSchema = " ++ output ++ ";" ++ nl ++ nl ++
  "export const method = " ++ quote method ++ ";" ++ nl ++ nl ++
  "export const path = " ++ quote path ++ ";" ++ nl ++ nl ++
  render_source.

Definition generateTemplate (fuel : nat) (path method : string) (operation : value)
    (schemas : registry) : res Template :=
  let filename := generateFilePath path method in
  inputSchemaResult <-? generateInputSchema fuel operation schemas ;;
  querySchemaResult <-? generateQuerySchema fuel operation ;;
  outputSchemaResult <-? generateOutputSchema fuel operation schemas ;;
  let allImports := template_imports inputSchemaResult querySchemaResult outputSchemaResult in
  Ok {| filename := filename;
        content := template_content allImports (sr_schema inputSchemaResult)
                     (sr_schema querySchemaResult) (sr_schema outputSchemaResult)
                     method path |}.

Definition generateTemplates (fuel : nat) (spec : value) (schemas : registry)
  : res (list Template) :=
  paths <-? get spec "paths" ;;
  pathEntries <-? object_entries paths ;;
  perPath <-? map_res (fun pe =>
                 methods <-? object_entries (snd pe) ;;
                 map_res (fun me => generateTemplate fuel (fst pe) (to_upper (fst me)) (snd me) schemas)
                   (filter (fun me => isValidHttpMethod (fst me)) methods))
               pathEntries ;;
  Ok (concat perPath).

(** ** The generated [render] function

    A zod validator is modelled by its [parse]: [None] when [parse] throws a
    ZodError.  [render] below is the function the template text above
    declares. *)

Definition zod_schema := value -> option value.

(** [z.never()]: rejects every input. *)
Definition zod_never : zod_schema := fun _ => None.

Record RenderResult := { rendered_input : value; rendered_query : value }.

Definition render (inputSchema querySchema : zod_schema) (data : value) : res RenderResult :=
  let input := match inputSchema data with Some v => v | None => VUndef end in
  match querySchema data with
  | Some q => Ok {| rendered_input := input; rendered_query := q |}
  | None => Throw "ZodError"
  end.

(** ** Specification-side definitions *)

(** Non-empty ['/']-separated segments of a URL path. *)
Definition nonempty_word (w : string) : bool := negb (String.eqb w "").

Definition path_segments (path : string) : list string :=
  filter nonempty_word (split_char slash path).

(** The file path the claim describes: cleaned path, or [root], then the
    lowercased method as the last segment. *)
Definition spec_file_path (path method : string) : string :=
  match path_segments path with
  | [] => "root"
  | segs => join "/" segs
  end ++ "/" ++ to_lower method.

(** [collapse_slashes] read on the words between slashes. *)
Fixpoint collapse_words (prev : bool) (ws : list string) : string :=
  match ws with
  | [] => ""
  | [w] => w
  | w :: ws' => w ++ (if prev && String.eqb w "" then "" else "/") ++ collapse_words true ws'
  end.

(** A response object as the OpenAPI types declare it: an object whose
    description, when present, is a string. *)
Definition response_ok (v : value) : bool :=
  match v with
  | VObj rk =>
      match obj_lookup rk "description" with None | Some (VStr _) => true | _ => false end
  | _ => false
  end.

(** The description contains ["success"], ignoring case. *)
Definition mentions_success (v : value) : bool :=
  match v with
  | VObj rk =>
      match obj_lookup rk "description" with
      | Some (VStr d) => str_includes "success" (to_lower d)
      | _ => false
      end
  | _ => false
  end.

(** The response the claim selects: the first present of 200, 201, 202, else
    the first entry whose description mentions success. *)
Definition spec_success_response (kvs : list (string * value)) : option value :=
  match obj_lookup kvs "200", obj_lookup kvs "201", obj_lookup kvs "202" with
  | Some r, _, _ => Some r
  | None, Some r, _ => Some r
  | None, None, Some r => Some r
  | None, None, None => find mentions_success (map snd kvs)
  end.

(** A media-type entry that carries a (truthy) schema. *)
Definition media_has_schema (m : value) : bool :=
  match m with
  | VObj mk => match obj_lookup mk "schema" with Some s => truthy s | None => false end
  | _ => false
  end.

(** The parse of [z.object({ <k>: z.string() })]: accepts an object whose
    property [k] is a string and returns the object stripped to [k]. *)
Definition zod_object_required_string (k : string) : zod_schema :=
  fun data =>
    match data with
    | VObj kvs =>
        match obj_lookup kvs k with
        | Some (VStr s) => Some (VObj [(k, VStr s)])
        | _ => None
        end
    | _ => None
    end.

(** The operation [GET] with one required string query parameter [q] and no
    request body. *)
Definition op_required_query : value :=
  VObj [("parameters",
         VArr [VObj [("in", VStr "query"); ("name", VStr "q"); ("required", VBool true);
                     ("schema", VObj [("type", VStr "string")])]]);
        ("responses", VObj [])].

(** The reference set only grows, by [Set.add]: [NoDup] is kept and every
    collected name stays. *)
Definition refs_grow (r r' : refs) : Prop :=
  match r, r' with
  | None, None => True
  | Some l, Some l' => (NoDup l -> NoDup l') /\ incl l l'
  | _, _ => False
  end.

Definition preserves {A} (m : M A) : Prop :=
  forall r a r', m r = Ok (a, r') -> refs_grow r r'.

(** The schema name a [$ref] string designates: its last ['/']-segment. *)
Definition ref_name (s : string) : string := last (split_char "/" s) "".

Definition add_to_refs (name : string) (r : refs) : refs :=
  match r with None => None | Some l => Some (set_add name l) end.

(** [o[k]] on an object: [undefined] when the property is absent. *)
Definition field (kvs : list (string * value)) (k : string) : value :=
  match obj_lookup kvs k with Some x => x | None => VUndef end.

(** The node with its [$ref] entries removed. *)
Definition without_ref (kvs : list (string * value)) : list (string * value) :=
  filter (fun kv => negb (String.eqb (fst kv) "$ref")) kvs.

(** Two nodes with distinct keys, both with a falsy [$ref], that agree on
    every other field. *)
Definition same_but_ref (kvs kvs' : list (string * value)) : Prop :=
  NoDup (map fst kvs) /\ NoDup (map fst kvs') /\
  truthy (field kvs "$ref") = false /\ truthy (field kvs' "$ref") = false /\
  forall k, k <> "$ref" -> field kvs k = field kvs' k.

(** [schema.type.filter((t) => t !== "null")] *)
Definition non_null_types (ts : list value) : list value :=
  filter (fun t => negb (is_str "null" t)) ts.

(** A bound check as the claim describes it: emitted only when the bound is
    present, the strict form when the exclusive flag is truthy. *)
Definition bound_check (bound exclusive : value) (strict loose : string) : res string :=
  if is_undefined bound then Ok ""
  else sb <-? js_to_string bound ;; Ok ((if truthy exclusive then strict else loose) ++ sb ++ ")").

Definition multiple_check (m : value) : res string :=
  if is_undefined m then Ok ""
  else sm <-? js_to_string m ;;
       Ok (".refine(val => val % " ++ sm ++ " === 0, { message: " ++
           dq ++ "Number must be a multiple of " ++ sm ++ dq ++ " })").

(** The enum does not apply: falsy, or an array with no number in it. *)
Definition enum_inapplicable (e : value) : bool :=
  negb (truthy e) || match e with VArr l => negb (existsb is_number l) | _ => false end.

(** Concrete operations and documents used below. *)
Definition status_ref : value := VObj [("$ref", VStr "#/components/schemas/Status")].

(** [GET] with an optional query parameter [status] whose schema refers to the
    named schema [Status]. *)
Definition op_query_ref : value :=
  VObj [("parameters",
         VArr [VObj [("in", VStr "query"); ("name", VStr "status"); ("schema", status_ref)]]);
        ("responses", VObj [])].

(** The same reference used as the JSON request body. *)
Definition op_body_ref : value :=
  VObj [("requestBody",
         VObj [("content", VObj [("application/json", VObj [("schema", status_ref)])])]);
        ("responses", VObj [])].

Definition status_registry : registry := [("Status", "StatusSchema")].

Definition foo_ref : value := VObj [("$ref", VStr "#/components/schemas/Foo")].

(** A document whose one named schema [Node] refers to [Foo] twice and to
    itself. *)
Definition node_spec : value :=
  VObj [("components",
         VObj [("schemas",
                VObj [("Node",
                       VObj [("type", VStr "object");
                             ("properties",
                              VObj [("a", foo_ref); ("b", foo_ref);
                                    ("next", VObj [("$ref", VStr "#/components/schemas/Node")])])])])])].

(** Objects as JavaScript has them: no key twice. *)
Fixpoint nodup_keys (kvs : list (string * value)) : bool :=
  match kvs with
  | [] => true
  | (k, _) :: t => negb (obj_has t k) && nodup_keys t
  end.

Definition is_vstr (v : value) : bool := match v with VStr _ => true | _ => false end.

(** An [allOf] branch as OpenAPI writes it: an object with distinct keys
    whose [properties], when present, is an object with distinct keys, and
    whose [required], when present, is an array of names. *)
Definition branch_ok (bk : list (string * value)) : bool :=
  nodup_keys bk &&
  match obj_lookup bk "properties" with
  | None => true
  | Some (VObj pk) => nodup_keys pk
  | Some _ => false
  end &&
  match obj_lookup bk "required" with
  | None => true
  | Some (VArr l) => forallb is_vstr l
  | Some _ => false
  end.

Definition required_of (bk : list (string * value)) : list value :=
  match obj_lookup bk "required" with Some (VArr l) => l | _ => [] end.

(** The merge the claim describes: a field takes its value from the last
    branch that has it; a property from the last branch whose [properties]
    define it; [required] is the union of the branches' lists. *)
Definition last_defined (bks : list (list (string * value))) (k : string) : option value :=
  fold_left (fun acc bk => match obj_lookup bk k with Some v => Some v | None => acc end) bks None.

Definition props_of (bk : list (string * value)) : option (list (string * value)) :=
  match obj_lookup bk "properties" with Some (VObj pk) => Some pk | _ => None end.

Definition spec_props (bks : list (list (string * value))) (p : string) : option value :=
  fold_left (fun acc bk =>
               match props_of bk with
               | Some pk => match obj_lookup pk p with Some v => Some v | None => acc end
               | None => acc
               end) bks None.

Definition prop_lookup (m : list (string * value)) (p : string) : option value :=
  match obj_lookup m "properties" with Some (VObj pm) => obj_lookup pm p | _ => None end.

Definition in_some_required (bks : list (list (string * value))) (key : string) : Prop :=
  exists bk, In bk bks /\ In (VStr key) (required_of bk).

(** The accumulator of [mergeAllOfSchemas] after the branches [done]. *)
Definition merge_inv (done : list (list (string * value))) (m : list (string * value)) : Prop :=
  nodup_keys m = true /\
  (forall k, k <> "properties" -> k <> "required" -> obj_lookup m k = last_defined done k) /\
  match obj_lookup m "properties" with
  | None => forall p, spec_props done p = None
  | Some (VObj pm) => nodup_keys pm = true /\ forall p, obj_lookup pm p = spec_props done p
  | Some _ => False
  end /\
  match obj_lookup m "required" with
  | None => forall bk, In bk done -> required_of bk = []
  | Some (VArr l) => forallb is_vstr l = true /\
                     forall key, In (VStr key) l <-> in_some_required done key
  | Some _ => False
  end.

(** The [allOf] example: a branch with property [a], required, and a branch
    with property [b]; [allOf_typed] is the same with [type: object] on the
    first branch. *)
Definition string_schema : value := VObj [("type", VStr "string")].

Definition allOf_branches (ty : list (string * value)) : list (list (string * value)) :=
  [(ty ++ [("properties", VObj [("a", string_schema)]); ("required", VArr [VStr "a"])])%list;
   [("properties", VObj [("b", string_schema)])]].

Definition allOf_example : value :=
  VObj [("allOf", VArr (map VObj (allOf_branches [])))].

Definition allOf_typed : value :=
  VObj [("allOf", VArr (map VObj (allOf_branches [("type", VStr "object")])))].

(** The nesting depth of a value: primitives and strings have depth 0. *)
Fixpoint vheight (v : value) : nat :=
  match v with
  | VArr l => S (list_max (map vheight l))
  | VObj kvs => S (list_max (map (fun kv => vheight (snd kv)) kvs))
  | _ => 0
  end.

(** The depth of a node's [type] field. *)
Definition type_height (v : value) : nat :=
  match v with VObj kvs => vheight (field kvs "type") | _ => 0 end.

(** The measure that every recursive call of the compiler decreases: a child,
    a property or a merged [allOf] node is shallower; a [type] variant is as
    deep, with a shallower [type]. *)
Definition mu (v : value) : nat := vheight v * vheight v + type_height v.

(** Malformed inputs of the failure-semantics claim. *)
Definition ref_number : value := VObj [("$ref", VNum 5)].
Definition enum_string : value := VObj [("type", VStr "string"); ("enum", VStr "abc")].
Definition oneOf_string : value := VObj [("oneOf", VStr "abc")].
Definition required_number : value :=
  VObj [("type", VStr "object"); ("properties", VObj [("a", string_schema)]);
        ("required", VNum 5)].
Definition empty_type_array : value := VObj [("type", VArr [])].
Definition minimum_toString : value :=
  VObj [("type", VStr "number"); ("minimum", VObj [("toString", VNum 1)])].
Definition enum_toString : value :=
  VObj [("type", VStr "string"); ("enum", VArr [VObj [("toString", VNum 1)]])].

(** Well-formed schema nodes: the fields the compiler reads with a method
    have the shape the method needs. A truthy [$ref] is a string; a truthy
    [enum], [oneOf], [anyOf] or [allOf] is an array; [required] is an array, a
    string, null or absent. The fields interpolated into the output, and the
    elements of a truthy [enum], convert with [String] without raising. *)
Definition printable (v : value) : bool :=
  match js_to_string v with Ok _ => true | _ => false end.

Definition interpolated_keys : list string :=
  ["pattern"; "minLength"; "maxLength"; "minimum"; "maximum"; "multipleOf";
   "minItems"; "maxItems"].

Definition local_ok (k : string) (x : value) : bool :=
  if String.eqb k "$ref" then negb (truthy x) || is_vstr x
  else if String.eqb k "enum" then negb (truthy x) || (is_array x && printable x)
  else if String.eqb k "oneOf" || String.eqb k "anyOf" ||
          String.eqb k "allOf" then negb (truthy x) || is_array x
  else if String.eqb k "required" then
    match x with VUndef | VNull | VArr _ | VStr _ => true | _ => false end
  else if existsb (String.eqb k) interpolated_keys then printable x
  else true.

Definition is_obj (v : value) : bool := match v with VObj _ => true | _ => false end.

(** The schema positions below a node, checked with [wf]: [items] and
    [additionalProperties]; the values of [properties]; the elements of
    [oneOf] and [anyOf]; the elements of [allOf], which are objects. *)
Definition child_ok (wf : value -> bool) (k : string) (x : value) : bool :=
  if String.eqb k "items" || String.eqb k "additionalProperties" then wf x
  else if String.eqb k "properties" then
    match x with
    | VObj pk => forallb (fun pv => wf (snd pv)) pk
    | VArr l => forallb wf l
    | _ => true
    end
  else if String.eqb k "oneOf" || String.eqb k "anyOf" then
    match x with VArr l => forallb wf l | _ => true end
  else if String.eqb k "allOf" then
    match x with VArr l => forallb (fun b => is_obj b && wf b) l | _ => true end
  else true.

Fixpoint wf_schema (v : value) : bool :=
  match v with
  | VObj kvs =>
      forallb (fun kv => local_ok (fst kv) (snd kv) && child_ok wf_schema (fst kv) (snd kv)) kvs
  | _ => true
  end.

(** ** The reference set as the compiler threads it *)

(** The result of a compilation step with its reference set dropped. *)
Definition res_fst {A} (x : res (A * refs)) : res A :=
  match x with Ok (a, _) => Ok a | Throw e => Throw e | OutOfFuel => OutOfFuel end.

(** A step whose result (value or exception) does not depend on the
    reference set it is given. *)
Definition oblivious {A} (m : M A) : Prop :=
  forall r1 r2, res_fst (m r1) = res_fst (m r2).

(** The set after a step is the set before it with names appended. *)
Definition refs_extend (r r' : refs) : Prop :=
  match r, r' with
  | None, None => True
  | Some l, Some l' => exists e, l' = (l ++ e)%list /\ (NoDup l -> NoDup l')
  | _, _ => False
  end.

Definition appends {A} (m : M A) : Prop :=
  forall r a r', m r = Ok (a, r') -> refs_extend r r'.

(** ** String literals in the generated code *)

(** The string a double-quoted JavaScript string literal denotes, given the
    text between its quotes, for texts whose only escapes are a backslash
    before a backslash and a backslash before a double quote;
    [None] for a text the literal cannot hold as it stands: an unescaped
    quote (it would close the literal), an unescaped line break (a syntax
    error), or an escape of another kind. *)
Fixpoint js_literal_body (s : string) : option string :=
  match s with
  | EmptyString => Some EmptyString
  | String c t =>
      if Ascii.eqb c backslash then
        match t with
        | String c' t' =>
            if Ascii.eqb c' backslash || Ascii.eqb c' (ascii_of_nat 34)
            then option_map (String c') (js_literal_body t')
            else None
        | EmptyString => None
        end
      else if Ascii.eqb c (ascii_of_nat 34) || Ascii.eqb c (ascii_of_nat 10) ||
              Ascii.eqb c (ascii_of_nat 13) then None
      else option_map (String c) (js_literal_body t)
  end.

(** No line feed or carriage return. *)
Fixpoint no_line_break (s : string) : bool :=
  match s with
  | EmptyString => true
  | String c t =>
      negb (Ascii.eqb c (ascii_of_nat 10) || Ascii.eqb c (ascii_of_nat 13)) && no_line_break t
  end.

(** ** Import lists *)

(** Each element of [l] at its first occurrence, skipping those already in
    [seen]. *)
Fixpoint first_occurrences (seen l : list string) : list string :=
  match l with
  | [] => []
  | x :: t =>
      if existsb (String.eqb x) seen then first_occurrences seen t
      else x :: first_occurrences (seen ++ [x])%list t
  end.

(** ** An API description with one path *)

Definition pets_operation : value := VObj [("responses", VObj [])].

Definition pets_spec : value :=
  VObj [("paths", VObj [("/pets", VObj [("get", pets_operation);
                                        ("x-internal", pets_operation);
                                        ("POST", pets_operation)])])].

(** ** [writeTemplatesToDisk]

    The writes are awaited one after the other; the first that fails
    rejects the promise and stops the loop. *)

(** [s.lastIndexOf(c)] for a one-character [c]: [-1] when absent. *)
Fixpoint last_index_of (c : ascii) (s : string) : Z :=
  match s with
  | EmptyString => -1
  | String d t =>
      let r := last_index_of c t in
      if (0 <=? r)%Z then (r + 1)%Z else if Ascii.eqb d c then 0%Z else (-1)%Z
  end.

(** [s.substring(0, n)]: a negative [n] counts as [0]. *)
Definition substring_to (s : string) (n : Z) : string := substring 0 (Z.to_nat n) s.

Definition templates_dir (apiName : string) : string := ".rekku/apis/" ++ apiName ++ "/templates".

Definition template_writes (templatesDir : string) (template : Template) : list file :=
  let filePath := templatesDir ++ "/" ++ filename template in
  let dirPath := substring_to filePath (last_index_of slash filePath) in
  [(dirPath ++ "/.gitkeep", ""); (filePath, content template)].

(** The file system, for relative paths in a tree without symbolic links:
    a path names the file its resolved segments lead to, where empty and
    [.] segments are skipped and a [..] segment steps back to the parent
    (or above the working directory when there is none). The tree is
    described by its files, with their resolved paths; the directories are
    the proper prefixes of those paths. *)
Definition path_eqb (a b : list string) : bool :=
  if list_eq_dec string_dec a b then true else false.

Definition resolve_step (acc : list string) (seg : string) : list string :=
  if String.eqb seg "" || String.eqb seg "." then acc
  else if String.eqb seg ".." then
    match acc with
    | [] => [".."]
    | d :: up => if String.eqb d ".." then ".." :: acc else up
    end
  else seg :: acc.

Definition normalize (p : string) : list string :=
  rev (fold_left resolve_step (split_char slash p) []).

Definition disk := list (list string * string).

Definition is_proper_prefix (a b : list string) : bool :=
  Nat.ltb (length a) (length b) && path_eqb (firstn (length a) b) a.

(** [Bun.write(path, content)]: the missing parent directories are created;
    a file on the way raises [ENOTDIR], a directory (or the working
    directory itself) at the path raises [EISDIR]. *)
Definition disk_write (d : disk) (p c : string) : res disk :=
  let q := normalize p in
  if existsb (fun e => is_proper_prefix (fst e) q) d then Throw "ENOTDIR"
  else if path_eqb q [] || existsb (fun e => is_proper_prefix q (fst e)) d then Throw "EISDIR"
  else Ok ((q, c) :: filter (fun e => negb (path_eqb (fst e) q)) d).

Fixpoint apply_writes (d : disk) (ws : list file) : res disk :=
  match ws with
  | [] => Ok d
  | w :: t => d' <-? disk_write d (fst w) (snd w) ;; apply_writes d' t
  end.

Definition writeTemplatesToDisk (apiName : string) (templates : list Template) (d : disk)
  : res disk :=
  let templatesDir := templates_dir apiName in
  apply_writes d ((templatesDir ++ "/.gitkeep", "") ::
                  concat (map (template_writes templatesDir) templates)).

(** The content of the file at a resolved path, and at a path. *)
Definition disk_lookup (d : disk) (q : list string) : option string :=
  option_map snd (find (fun e => path_eqb (fst e) q) d).

Definition disk_read (d : disk) (p : string) : option string := disk_lookup d (normalize p).

(** The content of the last template of the list whose file, under [dir],
    resolves to [q]. *)
Definition last_template_content (dir : string) (templates : list Template) (q : list string)
  : option string :=
  fold_left (fun acc t => if path_eqb (normalize (dir ++ "/" ++ filename t)) q
                          then Some (content t) else acc)
    templates None.

(** ** A components section with a [__proto__] schema *)

Definition proto_components_spec : value :=
  VObj [("components", VObj [("schemas",
    VObj [("Pet", VObj [("type", VStr "object")]);
          ("__proto__", VObj [("type", VStr "string")])])])].

(** [schemas[name]] as an own property of the registry. *)
Definition registry_find (schemas : registry) (name : string) : option (string * string) :=
  find (fun kv => String.eqb (fst kv) name) schemas.

(** A node field: its own shape and the schemas below it. *)
Definition entry_ok (k : string) (x : value) : bool := local_ok k x && child_ok wf_schema k x.

(** ** Example inputs *)

Definition oneOf_typed : value :=
  VObj [("type", VStr "string"); ("oneOf", VArr [VObj [("type", VStr "boolean")]]);
        ("anyOf", VArr [VObj [("type", VStr "number")]])].

Definition strict_object_no_props : value :=
  VObj [("type", VStr "object"); ("additionalProperties", VBool false);
        ("required", VArr [VStr "a"])].

Definition allOf_with_ref : value :=
  VObj [("allOf", VArr [VObj [("$ref", VStr "#/components/schemas/Base")];
                        VObj [("type", VStr "object");
                              ("properties", VObj [("extra", string_schema)])]])].

Definition object_example_fields : list (string * value) :=
  [("a", string_schema); ("b-c", VObj [("type", VStr "number")])].

Definition object_example : list (string * value) :=
  [("type", VStr "object"); ("properties", VObj object_example_fields);
   ("required", VArr [VStr "a"]); ("additionalProperties", VBool false)].

Definition pattern_example : list (string * value) :=
  [("type", VStr "string");
   ("pattern", VStr ("^" ++ String backslash (String (ascii_of_nat 34) "a+$")))].

Definition two_templates : list Template :=
  [{| filename := "pets/get.ts"; content := "first" |};
   {| filename := "pets/post.ts"; content := "other" |};
   {| filename := "pets/./get.ts"; content := "second" |}].

(** * Theorems *)

(** ** String lemmas *)

Lemma str_append_assoc (a b c : string) : (a ++ b) ++ c = a ++ (b ++ c).
Proof. induction a as [|x a IH]; simpl; [reflexivity|now rewrite IH]. Qed.

Lemma str_append_nil_r (a : string) : a ++ "" = a.
Proof. induction a as [|x a IH]; simpl; [reflexivity|now rewrite IH]. Qed.

(** ** Path cleaning *)

Lemma split_char_not_nil sep s : split_char sep s <> [].
Proof.
  induction s as [|c t IH]; simpl; [discriminate|].
  destruct (Ascii.eqb c sep); [discriminate|].
  destruct (split_char sep t); discriminate.
Qed.

Lemma split_char_cons sep c t :
  split_char sep (String c t) =
  if Ascii.eqb c sep then "" :: split_char sep t
  else String c (hd "" (split_char sep t)) :: tl (split_char sep t).
Proof.
  simpl. destruct (Ascii.eqb c sep); [reflexivity|].
  pose proof (split_char_not_nil sep t) as H.
  destruct (split_char sep t); [congruence|reflexivity].
Qed.

Lemma filter_hd_tl (l : list string) :
  l <> [] -> filter nonempty_word l = filter nonempty_word (hd "" l :: tl l).
Proof. destruct l; [congruence|reflexivity]. Qed.

Lemma collapse_split prev s :
  collapse_slashes prev s = collapse_words prev (split_char slash s).
Proof.
  revert prev; induction s as [|c t IH]; intro prev; [reflexivity|].
  rewrite split_char_cons. simpl collapse_slashes.
  pose proof (split_char_not_nil slash t) as Hne.
  destruct (Ascii.eqb c slash).
  - rewrite IH.
    destruct (split_char slash t) as [|w ws]; [congruence|].
    destruct prev; reflexivity.
  - rewrite IH.
    destruct (split_char slash t) as [|w [|w2 ws]]; [congruence|reflexivity|].
    simpl. rewrite Bool.andb_false_r. reflexivity.
Qed.

Lemma collapse_words_true ws :
  ws <> [] -> last ws "" <> "" ->
  collapse_words true ws = join "/" (filter nonempty_word ws).
Proof.
  induction ws as [|w ws IH]; intros Hne Hlast; [congruence|].
  destruct ws as [|w2 ws].
  - simpl in *. unfold nonempty_word.
    destruct (String.eqb w "") eqn:E; [apply String.eqb_eq in E; congruence|reflexivity].
  - assert (Hf : filter nonempty_word (w2 :: ws) <> []).
    { intro Hnil. apply Hlast. simpl last.
      assert (Hin : In (last (w2 :: ws) "") (w2 :: ws)).
      { clear. revert w2; induction ws as [|x ws IH]; intro w2; [now left|].
        right. apply IH. }
      destruct (String.eqb (last (w2 :: ws) "") "") eqn:E;
        [now apply String.eqb_eq|].
      assert (In (last (w2 :: ws) "") (filter nonempty_word (w2 :: ws))) as Hin'.
      { apply filter_In. split; [exact Hin|unfold nonempty_word; now rewrite E]. }
      rewrite Hnil in Hin'. destruct Hin'. }
    change (collapse_words true (w :: w2 :: ws)) with
      (w ++ (if String.eqb w "" then "" else "/") ++ collapse_words true (w2 :: ws)).
    rewrite IH by (discriminate || exact Hlast).
    change (filter nonempty_word (w :: w2 :: ws)) with
      (if nonempty_word w then w :: filter nonempty_word (w2 :: ws)
       else filter nonempty_word (w2 :: ws)).
    destruct (String.eqb w "") eqn:E.
    + apply String.eqb_eq in E; subst w. reflexivity.
    + assert (Hw : nonempty_word w = true) by (unfold nonempty_word; now rewrite E).
      rewrite Hw.
      destruct (filter nonempty_word (w2 :: ws)) as [|y ys]; [congruence|reflexivity].
Qed.

Lemma strip_leading_segments p :
  path_segments (strip_leading_slashes p) = path_segments p.
Proof.
  unfold path_segments.
  induction p as [|c t IH]; [reflexivity|].
  simpl strip_leading_slashes. destruct (Ascii.eqb c slash) eqn:E; [|reflexivity].
  rewrite IH, split_char_cons, E. reflexivity.
Qed.

Lemma strip_leading_head p :
  strip_leading_slashes p = "" \/
  exists c t, strip_leading_slashes p = String c t /\ Ascii.eqb c slash = false.
Proof.
  induction p as [|c t IH]; [now left|].
  simpl. destruct (Ascii.eqb c slash) eqn:E; [exact IH|]. right; eauto.
Qed.

Lemma strip_trailing_words q :
  hd "" (split_char slash (strip_trailing_slashes q)) = hd "" (split_char slash q) /\
  filter nonempty_word (tl (split_char slash (strip_trailing_slashes q))) =
  filter nonempty_word (tl (split_char slash q)).
Proof.
  induction q as [|c u [IHh IHt]]; [split; reflexivity|].
  simpl strip_trailing_slashes.
  destruct (Ascii.eqb c slash) eqn:E; simpl andb.
  - destruct (String.eqb (strip_trailing_slashes u) "") eqn:Eu.
    + apply String.eqb_eq in Eu. rewrite Eu in IHh, IHt.
      rewrite split_char_cons, E. simpl. split; [reflexivity|].
      rewrite (filter_hd_tl _ (split_char_not_nil slash u)).
      simpl in IHh, IHt. rewrite <- IHh. simpl. now rewrite <- IHt.
    + rewrite !split_char_cons, E. simpl. split; [reflexivity|].
      rewrite (filter_hd_tl _ (split_char_not_nil slash u)).
      rewrite (filter_hd_tl _ (split_char_not_nil slash (strip_trailing_slashes u))).
      simpl. now rewrite IHh, IHt.
  - rewrite !split_char_cons, E. simpl. split; [now rewrite IHh|exact IHt].
Qed.

Lemma last_cons_ne (x y : string) l : last (x :: y :: l) "" = last (y :: l) "".
Proof. reflexivity. Qed.

Lemma strip_trailing_last q :
  strip_trailing_slashes q = "" \/
  last (split_char slash (strip_trailing_slashes q)) "" <> "".
Proof.
  induction q as [|c u IH]; [now left|].
  simpl strip_trailing_slashes.
  destruct (Ascii.eqb c slash && String.eqb (strip_trailing_slashes u) "") eqn:E;
    [now left|right].
  rewrite split_char_cons.
  destruct (String.eqb (strip_trailing_slashes u) "") eqn:Eu.
  - apply String.eqb_eq in Eu. rewrite Eu in *.
    rewrite Bool.andb_true_r in E. rewrite E. simpl. discriminate.
  - destruct IH as [IH|IH]; [apply String.eqb_neq in Eu; congruence|].
    pose proof (split_char_not_nil slash (strip_trailing_slashes u)) as Hne.
    destruct (Ascii.eqb c slash).
    + destruct (split_char slash (strip_trailing_slashes u)); [congruence|exact IH].
    + destruct (split_char slash (strip_trailing_slashes u)) as [|w [|w2 ws]];
        [congruence|simpl; discriminate|exact IH].
Qed.

(** [clean_path] keeps exactly the non-empty segments, joined by one slash. *)
Lemma clean_path_segments p : clean_path p = join "/" (path_segments p).
Proof.
  unfold clean_path.
  set (q := strip_leading_slashes p).
  set (s := strip_trailing_slashes q).
  assert (Hseg : path_segments p = filter nonempty_word (split_char slash s)).
  { rewrite <- strip_leading_segments. fold q. unfold path_segments, s.
    destruct (strip_trailing_words q) as [Hh Ht].
    rewrite (filter_hd_tl _ (split_char_not_nil slash (strip_trailing_slashes q))).
    rewrite (filter_hd_tl _ (split_char_not_nil slash q)).
    simpl. now rewrite Hh, Ht. }
  rewrite Hseg.
  destruct s as [|c t] eqn:Es; [reflexivity|].
  rewrite <- Es, collapse_split.
  assert (Hq : q <> "") by (intro H; unfold s in Es; rewrite H in Es; discriminate).
  assert (Hhd : hd "" (split_char slash s) <> "").
  { unfold s. rewrite (proj1 (strip_trailing_words q)).
    destruct (strip_leading_head p) as [H|(c0 & t0 & H & Hc)]; [fold q in H; congruence|].
    fold q in H. rewrite H, split_char_cons, Hc. discriminate. }
  assert (Hlast : last (split_char slash s) "" <> "").
  { destruct (strip_trailing_last q) as [H|H]; [fold s in H; congruence|exact H]. }
  pose proof (split_char_not_nil slash s) as Hne.
  destruct (split_char slash s) as [|w ws]; [congruence|].
  simpl in Hhd.
  replace (collapse_words false (w :: ws)) with (collapse_words true (w :: ws)).
  - now apply collapse_words_true.
  - destruct ws; [reflexivity|]. simpl.
    destruct (String.eqb w "") eqn:E; [apply String.eqb_eq in E; congruence|reflexivity].
Qed.

(** ** Claim C4: template file paths *)

(** C4 counterexample: for path ["/users/{user_id}/profile"] and method [GET]
    the derived template file path is ["users/{user_id}/profile/get.ts"]: the
    path the claim describes followed by the [.ts] extension, not that path. *)
Lemma C4_counterexample :
  generateFilePath "/users/{user_id}/profile" "GET" = "users/{user_id}/profile/get.ts" /\
  generateFilePath "/users/{user_id}/profile" "GET" <>
  spec_file_path "/users/{user_id}/profile" "GET".
Proof. split; [reflexivity|vm_compute; discriminate]. Qed.

(** C4 (amended): for every URL path and method, the template file path is the
    path with leading and trailing slashes stripped and repeated slashes
    collapsed (its non-empty segments joined by one slash, braces kept
    verbatim), or [root] when nothing remains, then ["/"], the lowercased
    method and the extension [".ts"]; path ["/users/{user_id}/profile"] with
    method [GET] gives ["users/{user_id}/profile/get.ts"]. *)
Theorem C4_generateFilePath_spec :
  (forall path method,
      generateFilePath path method = spec_file_path path method ++ ".ts") /\
  generateFilePath "/users/{user_id}/profile" "GET" = "users/{user_id}/profile/get.ts".
Proof.
  split; [|reflexivity].
  intros path method. unfold generateFilePath, spec_file_path.
  rewrite clean_path_segments.
  rewrite !str_append_assoc.
  destruct (path_segments path) as [|w ws] eqn:Hs; [reflexivity|].
  assert (Hw : w <> "").
  { assert (In w (path_segments path)) as Hin by (rewrite Hs; now left).
    unfold path_segments in Hin. apply filter_In in Hin as [_ Hin].
    unfold nonempty_word in Hin. intro; subst w. discriminate. }
  destruct (String.eqb (join "/" (w :: ws)) "") eqn:E; [|reflexivity].
  apply String.eqb_eq in E. exfalso.
  destruct ws; simpl in E; [congruence|destruct w; [congruence|discriminate]].
Qed.

(** ** Object lookups *)

Lemma obj_lookup_In kvs k v : obj_lookup kvs k = Some v -> In (k, v) kvs.
Proof.
  induction kvs as [|[k' v'] t IH]; simpl; [discriminate|].
  destruct (String.eqb k k') eqn:E; [|intro H; right; now apply IH].
  apply String.eqb_eq in E; subst. intro H; inversion H; now left.
Qed.

Lemma forallb_lookup (f : value -> bool) kvs k v :
  forallb (fun kv => f (snd kv)) kvs = true -> obj_lookup kvs k = Some v -> f v = true.
Proof.
  intros Hall Hl. apply obj_lookup_In in Hl.
  rewrite forallb_forall in Hall. exact (Hall _ Hl).
Qed.

(** ** Response selection *)

Lemma response_ok_truthy v : response_ok v = true -> truthy v = true.
Proof. destruct v; simpl; congruence. Qed.

Lemma find_res_describes_success l :
  forallb response_ok l = true ->
  find_res describes_success l =
  Ok (match find mentions_success l with Some r => r | None => VUndef end).
Proof.
  induction l as [|v t IH]; simpl; [reflexivity|].
  intro H. apply andb_true_iff in H as [Hv Ht].
  destruct v as [| | | | | | rk]; try discriminate.
  unfold describes_success; simpl. simpl in Hv.
  destruct (obj_lookup rk "description") as [[| | | |d| |]|]; try discriminate;
    simpl; try (now apply IH).
  destruct (str_includes "success" (to_lower d)); [reflexivity|now apply IH].
Qed.

Lemma success_response_spec kvs :
  forallb (fun kv => response_ok (snd kv)) kvs = true ->
  success_response (VObj kvs) =
  Ok (match spec_success_response kvs with Some r => r | None => VUndef end).
Proof.
  intro H. unfold success_response, spec_success_response. simpl.
  destruct (obj_lookup kvs "200") as [r|] eqn:E200.
  { pose proof (forallb_lookup _ _ _ _ H E200) as Hr.
    now rewrite (response_ok_truthy _ Hr). }
  destruct (obj_lookup kvs "201") as [r|] eqn:E201.
  { pose proof (forallb_lookup _ _ _ _ H E201) as Hr.
    now rewrite (response_ok_truthy _ Hr). }
  destruct (obj_lookup kvs "202") as [r|] eqn:E202.
  { pose proof (forallb_lookup _ _ _ _ H E202) as Hr.
    now rewrite (response_ok_truthy _ Hr). }
  unfold object_entries; simpl.
  apply find_res_describes_success.
  rewrite forallb_forall in *. intros v Hv. apply in_map_iff in Hv as [[k v'] [<- Hin]].
  exact (H _ Hin).
Qed.

Lemma find_mentions_ok l r :
  forallb response_ok l = true -> find mentions_success l = Some r -> response_ok r = true.
Proof.
  intros Hall Hf. apply find_some in Hf as [Hin _].
  rewrite forallb_forall in Hall. now apply Hall.
Qed.

Lemma select_content_in cs m :
  select_content (VObj cs) = Ok m -> m = VUndef \/ In m (map snd cs).
Proof.
  unfold select_content, object_entries; simpl.
  set (k0 := match cs with (k, _) :: _ => k | [] => "undefined" end).
  assert (Hk : forall k, match obj_lookup cs k with Some x => x | None => VUndef end = m ->
                         m = VUndef \/ In m (map snd cs)).
  { intros k Hm. destruct (obj_lookup cs k) as [x|] eqn:Ex; subst; [|now left].
    right. apply obj_lookup_In in Ex. apply in_map_iff. exists (k, m); split; [reflexivity|exact Ex]. }
  destruct (truthy _); intro H; injection H as H1; exact (Hk _ H1).
Qed.

Lemma select_content_ok cs : exists m, select_content (VObj cs) = Ok m.
Proof. unfold select_content; simpl. destruct (truthy _); eexists; reflexivity. Qed.

(** A response or request body without content, or whose media types carry
    no schema, compiles to [z.never()]. *)
Lemma content_schema_result_never fuel rk schemas :
  match obj_lookup rk "content" with
  | None => True
  | Some c => truthy c = false \/
              exists cs, c = VObj cs /\ forallb (fun kv => negb (media_has_schema (snd kv))) cs = true
  end ->
  content_schema_result fuel (VObj rk) schemas = Ok never_result.
Proof.
  unfold content_schema_result; simpl.
  destruct (obj_lookup rk "content") as [c|]; [|reflexivity].
  intros [Hc|(cs & -> & Hcs)]; [now rewrite Hc|].
  simpl negb; cbv iota.
  destruct (select_content_ok cs) as [m Esel]. rewrite Esel. simpl.
  destruct (truthy m) eqn:Hm; simpl; [|reflexivity].
  apply select_content_in in Esel as [->|Hin]; [discriminate|].
  apply in_map_iff in Hin as [[k m'] [Heq Hin]]; simpl in Heq; subst m'.
  rewrite forallb_forall in Hcs. specialize (Hcs _ Hin). simpl in Hcs.
  destruct m as [| | | | | | mk]; simpl; try reflexivity; try discriminate.
  simpl in Hcs. destruct (obj_lookup mk "schema") as [sc|]; simpl; [|reflexivity].
  apply negb_true_iff in Hcs. now rewrite Hcs.
Qed.

Lemma spec_success_response_ok kvs r :
  forallb (fun kv => response_ok (snd kv)) kvs = true ->
  spec_success_response kvs = Some r -> response_ok r = true.
Proof.
  intros H. unfold spec_success_response.
  destruct (obj_lookup kvs "200") as [r0|] eqn:E0;
    [intro Hr; injection Hr as <-; exact (forallb_lookup _ _ _ _ H E0)|].
  destruct (obj_lookup kvs "201") as [r1|] eqn:E1;
    [intro Hr; injection Hr as <-; exact (forallb_lookup _ _ _ _ H E1)|].
  destruct (obj_lookup kvs "202") as [r2|] eqn:E2;
    [intro Hr; injection Hr as <-; exact (forallb_lookup _ _ _ _ H E2)|].
  apply find_mentions_ok.
  rewrite forallb_forall in *. intros v Hv. apply in_map_iff in Hv as [[k v'] [<- Hin]].
  exact (H _ Hin).
Qed.

(** ** Claim C8: output schema selection *)

(** C8: for an operation whose responses are response objects (descriptions
    strings when present), the output expression is the content of the first
    present response among 200, 201, 202, else of the first response whose
    description contains "success" in any case, and [z.never()] when there is
    none; a selected response without content, or whose media types have no
    schema, also gives [z.never()]; in particular an operation whose only
    response is "404" with a description not mentioning success yields
    [z.never()]. *)
Theorem C8_generateOutputSchema_selection (fuel : nat) (ops kvs : list (string * value))
    (schemas : registry)
    (Hresp : obj_lookup ops "responses" = Some (VObj kvs))
    (Hok : forallb (fun kv => response_ok (snd kv)) kvs = true) :
  generateOutputSchema fuel (VObj ops) schemas =
    match spec_success_response kvs with
    | Some r => content_schema_result fuel r schemas
    | None => Ok never_result
    end /\
  (forall rk,
      match obj_lookup rk "content" with
      | None => True
      | Some c => truthy c = false \/
                  exists cs, c = VObj cs /\
                             forallb (fun kv => negb (media_has_schema (snd kv))) cs = true
      end ->
      content_schema_result fuel (VObj rk) schemas = Ok never_result) /\
  (forall rk,
      response_ok (VObj rk) = true -> mentions_success (VObj rk) = false ->
      generateOutputSchema fuel (VObj [("responses", VObj [("404", VObj rk)])]) schemas =
      Ok never_result).
Proof.
  split; [|split].
  - unfold generateOutputSchema. simpl get. rewrite Hresp. simpl res_bind.
    rewrite (success_response_spec kvs Hok). simpl res_bind.
    destruct (spec_success_response kvs) as [r|] eqn:Er; [|reflexivity].
    pose proof (spec_success_response_ok _ _ Hok Er) as Hr.
    now rewrite (response_ok_truthy _ Hr).
  - intros rk Hc. now apply content_schema_result_never.
  - intros rk Hrk Hm. unfold generateOutputSchema. simpl get. simpl res_bind.
    rewrite success_response_spec by (simpl; rewrite andb_true_r; exact Hrk).
    unfold spec_success_response. simpl in Hm |- *. rewrite Hm. reflexivity.
Qed.

Lemma C8_witness :
  obj_lookup [("responses", VObj [("200", VObj [("description", VStr "OK")])])] "responses" =
    Some (VObj [("200", VObj [("description", VStr "OK")])]) /\
  forallb (fun kv => response_ok (snd kv)) [("200", VObj [("description", VStr "OK")])] = true /\
  generateOutputSchema 3 (VObj [("responses", VObj [("200", VObj [("description", VStr "OK")])])]) [] =
    Ok never_result.
Proof.
  split; [reflexivity|split; [reflexivity|]].
  destruct (C8_generateOutputSchema_selection 3
              [("responses", VObj [("200", VObj [("description", VStr "OK")])])]
              [("200", VObj [("description", VStr "OK")])] [] eq_refl eq_refl) as [H _].
  rewrite H. reflexivity.
Defined.

(** ** Claim C5: operations without a request body *)

(** C5 counterexample: the operation with a required string query parameter
    [q] and no request body gets the never input and the query expression
    [z.object({ q: z.string() })]; rendering the empty data bag against these
    validators raises the query validator's ZodError instead of returning the
    absent-input marker. *)
Lemma C5_counterexample :
  generateInputSchema 5 op_required_query [] = Ok never_result /\
  generateQuerySchema 5 op_required_query =
    Ok {| sr_schema := "z.object({ q: z.string() })"; sr_imports := [] |} /\
  render zod_never (zod_object_required_string "q") (VObj []) = Throw "ZodError".
Proof. split; [reflexivity|split; reflexivity]. Qed.

(** C5 (amended): an operation with no request body, a falsy one, one without
    content, or one whose media types carry no schema gets the input expression
    [z.never()]; rendering against the never input catches that validator's
    rejection and returns the absent-input marker [undefined] paired with the
    query parse result whenever the data passes the query validator, and
    raises the query validator's error when it does not. *)
Theorem C5_never_input_render :
  (forall fuel ops schemas,
      match obj_lookup ops "requestBody" with
      | None => True
      | Some rb =>
          truthy rb = false \/
          exists rk, rb = VObj rk /\
            match obj_lookup rk "content" with
            | None => True
            | Some c => truthy c = false \/
                        exists cs, c = VObj cs /\
                          forallb (fun kv => negb (media_has_schema (snd kv))) cs = true
            end
      end ->
      generateInputSchema fuel (VObj ops) schemas = Ok never_result) /\
  (forall (querySchema : zod_schema) data q,
      querySchema data = Some q ->
      render zod_never querySchema data = Ok {| rendered_input := VUndef; rendered_query := q |}) /\
  (forall (querySchema : zod_schema) data,
      querySchema data = None -> render zod_never querySchema data = Throw "ZodError").
Proof.
  split; [|split].
  - intros fuel ops schemas H. unfold generateInputSchema. simpl get.
    destruct (obj_lookup ops "requestBody") as [rb|]; [|reflexivity].
    destruct H as [H|(rk & -> & H)]; simpl res_bind; [now rewrite H|].
    now apply content_schema_result_never.
  - intros qs data q H. unfold render, zod_never. now rewrite H.
  - intros qs data H. unfold render, zod_never. now rewrite H.
Qed.

(** ** The compiler monad *)

Lemma bind_lift_Ok {A B} (a : A) (k : A -> M B) : bind (lift (Ok a)) k = k a.
Proof. reflexivity. Qed.

Lemma bind_ret {A B} (a : A) (k : A -> M B) : bind (ret a) k = k a.
Proof. reflexivity. Qed.

(** ** The reference set *)

Lemma refs_grow_refl r : refs_grow r r.
Proof. destruct r; simpl; [split; [auto|apply incl_refl]|exact I]. Qed.

Lemma refs_grow_trans r1 r2 r3 : refs_grow r1 r2 -> refs_grow r2 r3 -> refs_grow r1 r3.
Proof.
  destruct r1, r2, r3; simpl; try tauto.
  intros [H1 I1] [H2 I2]. split; [auto|eapply incl_tran; eauto].
Qed.

Lemma set_add_NoDup x l : NoDup l -> NoDup (set_add x l).
Proof.
  unfold set_add. destruct (existsb (String.eqb x) l) eqn:E; [auto|].
  intro H. apply NoDup_app; auto using NoDup_cons, NoDup_nil.
  - intros y Hy [->|[]]. assert (existsb (String.eqb y) l = true) as Hc.
    { apply existsb_exists. exists y. split; [exact Hy|apply String.eqb_refl]. }
    congruence.
Qed.

Lemma set_add_incl x l : incl l (set_add x l).
Proof.
  unfold set_add. destruct (existsb _ l); [apply incl_refl|apply incl_appl, incl_refl].
Qed.

Lemma set_add_In x l : In x (set_add x l).
Proof.
  unfold set_add. destruct (existsb (String.eqb x) l) eqn:E.
  - apply existsb_exists in E as [y [Hy Hxy]]. apply String.eqb_eq in Hxy. now subst.
  - apply in_or_app. right. now left.
Qed.

Lemma ret_pres {A} (a : A) : preserves (ret a).
Proof. intros r b r' H. injection H as _ <-. apply refs_grow_refl. Qed.

Lemma lift_pres {A} (m : res A) : preserves (lift m).
Proof.
  intros r b r' H. unfold lift in H. destruct m; try discriminate.
  injection H as _ <-. apply refs_grow_refl.
Qed.

Lemma bind_pres {A B} (m : M A) (k : A -> M B) :
  preserves m -> (forall a, preserves (k a)) -> preserves (bind m k).
Proof.
  intros Hm Hk r b r' H. unfold bind in H.
  destruct (m r) as [[a r1]| |] eqn:E; try discriminate.
  eapply refs_grow_trans; [exact (Hm _ _ _ E)|exact (Hk _ _ _ _ H)].
Qed.

Lemma add_ref_pres name : preserves (add_ref name).
Proof.
  intros r b r' H. injection H as _ <-. destruct r as [l|]; simpl; [|exact I].
  split; [apply set_add_NoDup|apply set_add_incl].
Qed.

Lemma mapM_pres {A B} (f : A -> M B) l :
  (forall x, In x l -> preserves (f x)) -> preserves (mapM f l).
Proof.
  induction l as [|x t IH]; intro H; simpl; [apply ret_pres|].
  apply bind_pres; [apply H; now left|intro y].
  apply bind_pres; [apply IH; intros z Hz; apply H; now right|intro; apply ret_pres].
Qed.

Ltac pres_step :=
  match goal with
  | |- preserves (bind _ _) => apply bind_pres; [|intro]
  | |- preserves (ret _) => apply ret_pres
  | |- preserves (lift _) => apply lift_pres
  | |- preserves (add_ref _) => apply add_ref_pres
  | |- preserves (mapM _ _) => apply mapM_pres; intros ? ?
  | |- preserves (if ?b then _ else _) => destruct b
  | |- preserves (match ?x with _ => _ end) => destruct x
  end.

Section HandlersPreserve.

Variable conv : value -> M string.
Hypothesis conv_pres : forall v, preserves (conv v).

Lemma handleTypeUnion_pres types base : preserves (handleTypeUnion conv types base).
Proof. unfold handleTypeUnion. repeat (pres_step || apply conv_pres). Qed.

Lemma handleNullableType_pres schema : preserves (handleNullableType conv schema).
Proof.
  unfold handleNullableType.
  repeat (pres_step || apply conv_pres || apply handleTypeUnion_pres).
Qed.

Lemma handleCombinators_pres schema : preserves (handleCombinators conv schema).
Proof. unfold handleCombinators. repeat (pres_step || apply conv_pres). Qed.

Lemma handleArraySchema_pres schema : preserves (handleArraySchema conv schema).
Proof. unfold handleArraySchema. repeat (pres_step || apply conv_pres). Qed.

Lemma handleObjectSchema_pres schema : preserves (handleObjectSchema conv schema).
Proof. unfold handleObjectSchema. repeat (pres_step || apply conv_pres). Qed.

End HandlersPreserve.

Lemma convertJsonSchemaToZod_pres fuel v : preserves (convertJsonSchemaToZod fuel v).
Proof.
  revert v; induction fuel as [|n IH]; intro v.
  - intros r a r' H. discriminate.
  - cbn [convertJsonSchemaToZod].
    destruct (negb (truthy v) || negb (typeof_object v)); [apply ret_pres|].
    repeat (pres_step || apply handleNullableType_pres || apply handleCombinators_pres
            || apply handleArraySchema_pres || apply handleObjectSchema_pres || apply IH).
Qed.

(** ** Claim C1: references *)

Lemma compile_ref n kvs s r :
  obj_lookup kvs "$ref" = Some (VStr s) -> s <> "" ->
  convertJsonSchemaToZod (S n) (VObj kvs) r = Ok (ref_name s ++ "Schema", add_to_refs (ref_name s) r).
Proof.
  intros H Hs. apply String.eqb_neq in Hs. simpl. rewrite H, bind_lift_Ok. simpl. rewrite Hs.
  reflexivity.
Qed.

(** C1 counterexample: a [$ref] that is present but falsy, the empty string
    or null, is ignored (the node with that [$ref] and type boolean compiles
    to [z.boolean()] and collects no name), and a present [$ref] that is a
    number raises a TypeError; none of them gives a reference symbol. *)
Lemma C1_counterexample :
  convertJsonSchemaToZod 2 (VObj [("$ref", VStr ""); ("type", VStr "boolean")]) (Some []) =
    Ok ("z.boolean()", Some []) /\
  convertJsonSchemaToZod 2 (VObj [("$ref", VNull); ("type", VStr "boolean")]) (Some []) =
    Ok ("z.boolean()", Some []) /\
  convertJsonSchemaToZod 2 (VObj [("$ref", VNum 5)]) (Some []) = Throw "TypeError".
Proof. repeat split; reflexivity. Qed.

(** ** Property lookups after assignment and spread *)

Lemma lookup_replace kvs k v k' :
  obj_has kvs k = true ->
  obj_lookup (obj_replace kvs k v) k' = if String.eqb k' k then Some v else obj_lookup kvs k'.
Proof.
  induction kvs as [|[k0 v0] t IH]; simpl; [discriminate|].
  destruct (String.eqb k k0) eqn:E.
  - intros _. apply String.eqb_eq in E; subst k0. simpl.
    destruct (String.eqb k' k); reflexivity.
  - simpl. intro H. destruct (String.eqb k' k0) eqn:E'.
    + apply String.eqb_eq in E'; subst k0.
      destruct (String.eqb k' k) eqn:E2; [apply String.eqb_eq in E2; subst; now rewrite String.eqb_refl in E|reflexivity].
    + now apply IH.
Qed.

Lemma lookup_insert_new kvs k v k' :
  obj_has kvs k = false ->
  obj_lookup (insert_new k v kvs) k' = if String.eqb k' k then Some v else obj_lookup kvs k'.
Proof.
  induction kvs as [|[k0 v0] t IH]; intro H; simpl; [reflexivity|].
  simpl in H. apply orb_false_iff in H as [H0 Ht].
  assert (Hk0 : String.eqb k' k0 = true -> String.eqb k' k = false).
  { intro E. apply String.eqb_eq in E; subst. now rewrite String.eqb_sym. }
  assert (Hfront : obj_lookup ((k, v) :: (k0, v0) :: t) k' =
                   if String.eqb k' k then Some v else obj_lookup ((k0, v0) :: t) k')
    by reflexivity.
  assert (Hback : obj_lookup ((k0, v0) :: insert_new k v t) k' =
                  if String.eqb k' k then Some v else obj_lookup ((k0, v0) :: t) k').
  { simpl. destruct (String.eqb k' k0) eqn:E.
    - now rewrite (Hk0 eq_refl).
    - now apply IH. }
  destruct (array_index k), (array_index k0); try destruct (N.ltb _ _); assumption.
Qed.

Lemma lookup_obj_set kvs k v k' :
  obj_lookup (obj_set kvs k v) k' = if String.eqb k' k then Some v else obj_lookup kvs k'.
Proof.
  unfold obj_set. destruct (obj_has kvs k) eqn:E;
    [now apply lookup_replace|now apply lookup_insert_new].
Qed.

Lemma lookup_spread o kvs k :
  NoDup (map fst kvs) ->
  obj_lookup (obj_spread o (VObj kvs)) k =
  match obj_lookup kvs k with Some v => Some v | None => obj_lookup o k end.
Proof.
  unfold obj_spread; simpl. revert o.
  induction kvs as [|[k0 v0] t IH]; intros o Hnd; simpl; [reflexivity|].
  inversion Hnd as [|? ? Hnotin Hnd']; subst.
  rewrite IH by exact Hnd'. rewrite lookup_obj_set.
  destruct (String.eqb k k0) eqn:E.
  - apply String.eqb_eq in E; subst k0.
    assert (obj_lookup t k = None) as ->.
    { destruct (obj_lookup t k) eqn:El; [|reflexivity].
      apply obj_lookup_In in El. exfalso. apply Hnotin. apply in_map_iff.
      exists (k, v); split; [reflexivity|exact El]. }
    reflexivity.
  - reflexivity.
Qed.

(** [{ ...schema, type: t }] reads [t] at [type] and the schema's own value
    at every other key. *)
Lemma lookup_with_type kvs t k :
  NoDup (map fst kvs) ->
  match with_type (VObj kvs) t with
  | VObj kvs' => obj_lookup kvs' k = if String.eqb k "type" then Some t else obj_lookup kvs k
  | _ => False
  end.
Proof.
  intros Hnd. unfold with_type. rewrite lookup_obj_set.
  destruct (String.eqb k "type"); [reflexivity|].
  rewrite lookup_spread by exact Hnd. simpl. now destruct (obj_lookup kvs k).
Qed.

(** ** Dispatch of [convertJsonSchemaToZod] on an object *)

Lemma get_obj kvs k : get (VObj kvs) k = Ok (field kvs k).
Proof. reflexivity. Qed.

Lemma compile_obj n kvs :
  convertJsonSchemaToZod (S n) (VObj kvs) =
  let conv := convertJsonSchemaToZod n in
  let ref := field kvs "$ref" in
  if truthy ref then
    refParts <- lift (match ref with VStr s => Ok (split_char "/" s) | _ => type_error end) ;;
    _ <- add_ref (last refParts "") ;;
    ret (last refParts "" ++ "Schema")
  else
  let ty := field kvs "type" in
  if is_array ty then handleNullableType conv (VObj kvs) else
  if truthy (field kvs "oneOf") || truthy (field kvs "anyOf") || truthy (field kvs "allOf")
  then handleCombinators conv (VObj kvs) else
  if is_str "string" ty then lift (handleStringSchema (VObj kvs))
  else if is_str "number" ty || is_str "integer" ty then lift (handleNumberSchema (VObj kvs))
  else if is_str "boolean" ty then ret "z.boolean()"
  else if is_str "array" ty then handleArraySchema conv (VObj kvs)
  else if is_str "object" ty then handleObjectSchema conv (VObj kvs)
  else ret "z.any()".
Proof. reflexivity. Qed.

Lemma mapM_length {A B} (f : A -> M B) l r bs r' :
  mapM f l r = Ok (bs, r') -> length bs = length l.
Proof.
  revert r bs r'; induction l as [|x t IH]; intros r bs r' H; simpl in H.
  - injection H as <- _. reflexivity.
  - unfold bind in H. destruct (f x r) as [[y r1]| |]; try discriminate.
    destruct (mapM f t r1) as [[ys r2]| |] eqn:E; try discriminate.
    injection H as <- _. simpl. now rewrite (IH _ _ _ E).
Qed.

(** ** Claim C7: array-valued [type] *)

(** C7: for a schema node without a (truthy) [$ref] whose [type] is an array
    of types, with [variant t] the compilation of the node with [type]
    replaced by [t] and every other field kept: if the array contains "null"
    and exactly one other type [t], the result is [variant t] followed by
    [.nullable()]; with "null" and two or more other types, the variants
    compiled in order and joined in [z.union([...])], then [.nullable()];
    with "null" and nothing else, [z.null()]; without "null", the single
    variant alone, or the union of all variants in order. *)
Theorem C7_type_array (n : nat) (kvs : list (string * value)) (ts : list value) (r : refs)
    (Href : truthy (field kvs "$ref") = false)
    (Hty : field kvs "type" = VArr ts) :
  let variant t := convertJsonSchemaToZod n (with_type (VObj kvs) t) in
  convertJsonSchemaToZod (S n) (VObj kvs) r =
    (if existsb (is_str "null") ts then
       match non_null_types ts with
       | [] => ret "z.null()"
       | [t] => b <- variant t ;; ret (b ++ ".nullable()")
       | ts' => bs <- mapM variant ts' ;; ret (union_of bs ++ ".nullable()")
       end
     else
       match ts with
       | [t] => variant t
       | _ => bs <- mapM variant ts ;; ret (union_of bs)
       end) r /\
  (NoDup (map fst kvs) -> forall t k,
     match with_type (VObj kvs) t with
     | VObj kvs' => obj_lookup kvs' k = if String.eqb k "type" then Some t else obj_lookup kvs k
     | _ => False
     end).
Proof.
  intro variant. split.
  2: { intros Hnd t k. now apply lookup_with_type. }
  rewrite compile_obj. cbv zeta. rewrite Href, Hty. cbn [is_array].
  unfold handleNullableType. rewrite get_obj, Hty, bind_lift_Ok. cbn [array_receiver].
  rewrite bind_lift_Ok.
  destruct (existsb (is_str "null") ts).
  - fold (non_null_types ts).
    destruct (non_null_types ts) as [|t [|t2 ts2]]; [reflexivity|reflexivity|].
    unfold handleTypeUnion, bind. fold variant.
    destruct (mapM variant (t :: t2 :: ts2) r) as [[bs r']| |] eqn:E; try reflexivity.
    apply mapM_length in E. destruct bs as [|b1 [|b2 bs]]; simpl in E; try discriminate.
    reflexivity.
  - unfold handleTypeUnion. fold variant.
    destruct ts as [|t [|t2 ts2]]; try reflexivity.
    + simpl. unfold bind. destruct (variant t r) as [[b r']| |]; reflexivity.
    + unfold bind. fold variant.
      destruct (mapM variant (t :: t2 :: ts2) r) as [[bs r']| |] eqn:E; try reflexivity.
      apply mapM_length in E. destruct bs as [|b1 [|b2 bs]]; simpl in E; try discriminate.
      reflexivity.
Qed.

Lemma C7_witness :
  truthy (field [("type", VArr [VStr "string"; VStr "null"])] "$ref") = false /\
  field [("type", VArr [VStr "string"; VStr "null"])] "type" = VArr [VStr "string"; VStr "null"] /\
  convertJsonSchemaToZod 3 (VObj [("type", VArr [VStr "string"; VStr "null"])]) (Some []) =
    Ok ("z.string().nullable()", Some []).
Proof.
  split; [reflexivity|split; [reflexivity|]].
  destruct (C7_type_array 2 [("type", VArr [VStr "string"; VStr "null"])]
              [VStr "string"; VStr "null"] (Some []) eq_refl eq_refl) as [H _].
  rewrite H. reflexivity.
Defined.

(** ** Claim C9: numeric bounds *)

Lemma filter_is_number_nil l : existsb is_number l = false -> filter is_number l = [].
Proof.
  induction l as [|x t IH]; simpl; [reflexivity|].
  intro H. apply orb_false_iff in H as [Hx Ht]. rewrite Hx. now apply IH.
Qed.

Lemma handleNumberSchema_checks kvs :
  enum_inapplicable (field kvs "enum") = true ->
  handleNumberSchema (VObj kvs) = number_checks (VObj kvs).
Proof.
  unfold handleNumberSchema, enum_inapplicable. rewrite get_obj. cbn [res_bind].
  destruct (truthy (field kvs "enum")) eqn:Et; [|reflexivity].
  simpl. destruct (field kvs "enum"); try discriminate.
  intro H. cbn [array_receiver res_bind]. rewrite filter_is_number_nil; [reflexivity|].
  now apply negb_true_iff.
Qed.

Lemma if_append (b : bool) (x y z : string) :
  (if b then x else y) ++ z = if b then x ++ z else y ++ z.
Proof. now destruct b. Qed.

(** C9: for a schema node of type "number" or "integer" without a (truthy)
    [$ref] or combinator and whose enum does not apply, the result is
    [z.number()], then [.int()] for "integer", then a lower-bound check only
    when [minimum] is present ([.gt] when [exclusiveMinimum] is truthy, else
    [.gte]), then the same for [maximum] with [exclusiveMaximum] ([.lt] or
    [.lte]), then the [multipleOf] check; each check interpolates its value
    with [String], and raises where that conversion raises.  With neither
    [minimum] nor [maximum] no bound check is emitted, whatever
    [exclusiveMinimum] and [exclusiveMaximum] hold. *)
Theorem C9_number_bounds (n : nat) (kvs : list (string * value)) (r : refs)
    (Href : truthy (field kvs "$ref") = false)
    (Hty : is_str "number" (field kvs "type") || is_str "integer" (field kvs "type") = true)
    (Hcomb : truthy (field kvs "oneOf") || truthy (field kvs "anyOf") ||
             truthy (field kvs "allOf") = false)
    (Henum : enum_inapplicable (field kvs "enum") = true) :
  let int := if is_str "integer" (field kvs "type") then ".int()" else "" in
  convertJsonSchemaToZod (S n) (VObj kvs) r =
    (lower <-? bound_check (field kvs "minimum") (field kvs "exclusiveMinimum") ".gt(" ".gte(" ;;
     upper <-? bound_check (field kvs "maximum") (field kvs "exclusiveMaximum") ".lt(" ".lte(" ;;
     mult <-? multiple_check (field kvs "multipleOf") ;;
     Ok ("z.number()" ++ int ++ lower ++ upper ++ mult, r)) /\
  (is_undefined (field kvs "minimum") = true -> is_undefined (field kvs "maximum") = true ->
   convertJsonSchemaToZod (S n) (VObj kvs) r =
     (mult <-? multiple_check (field kvs "multipleOf") ;;
      Ok ("z.number()" ++ int ++ mult, r))).
Proof.
  intro int.
  assert (Hmain : convertJsonSchemaToZod (S n) (VObj kvs) r =
    (lower <-? bound_check (field kvs "minimum") (field kvs "exclusiveMinimum") ".gt(" ".gte(" ;;
     upper <-? bound_check (field kvs "maximum") (field kvs "exclusiveMaximum") ".lt(" ".lte(" ;;
     mult <-? multiple_check (field kvs "multipleOf") ;;
     Ok ("z.number()" ++ int ++ lower ++ upper ++ mult, r))).
  { rewrite compile_obj. cbv zeta. rewrite Href, Hcomb.
    destruct (field kvs "type") as [| | | |ty| |] eqn:Ety; try discriminate.
    cbn [is_array is_str] in Hty |- *.
    destruct (String.eqb ty "string") eqn:Es.
    { apply String.eqb_eq in Es; subst ty. discriminate. }
    rewrite Hty. unfold lift. rewrite handleNumberSchema_checks by exact Henum.
    unfold number_checks, bound_check, multiple_check. rewrite !get_obj, Ety. cbn [res_bind].
    unfold int. cbn [is_str].
    destruct (is_undefined (field kvs "minimum")); cbn [res_bind];
      [|destruct (js_to_string (field kvs "minimum")); cbn [res_bind]; [|reflexivity..]];
    (destruct (is_undefined (field kvs "maximum")); cbn [res_bind];
      [|destruct (js_to_string (field kvs "maximum")); cbn [res_bind]; [|reflexivity..]]);
    (destruct (is_undefined (field kvs "multipleOf")); cbn [res_bind];
      [|destruct (js_to_string (field kvs "multipleOf")); cbn [res_bind]; [|reflexivity..]]);
    do 2 f_equal; rewrite ?str_append_nil_r, ?str_append_assoc;
    destruct (truthy (field kvs "exclusiveMinimum")), (truthy (field kvs "exclusiveMaximum"));
    rewrite ?str_append_assoc; reflexivity. }
  split; [exact Hmain|].
  intros Hmin Hmax. rewrite Hmain. unfold bound_check. rewrite Hmin, Hmax. reflexivity.
Qed.

Lemma C9_witness :
  let kvs := [("type", VStr "number"); ("exclusiveMinimum", VNum 0)] in
  truthy (field kvs "$ref") = false /\
  is_str "number" (field kvs "type") || is_str "integer" (field kvs "type") = true /\
  truthy (field kvs "oneOf") || truthy (field kvs "anyOf") || truthy (field kvs "allOf") = false /\
  enum_inapplicable (field kvs "enum") = true /\
  convertJsonSchemaToZod 1 (VObj kvs) None = Ok ("z.number()", None).
Proof.
  intro kvs. split; [reflexivity|split; [reflexivity|split; [reflexivity|split; [reflexivity|]]]].
  destruct (C9_number_bounds 0 kvs None eq_refl eq_refl eq_refl eq_refl) as [_ H].
  rewrite (H eq_refl eq_refl). reflexivity.
Defined.

(** ** Claim C3: the template's import list *)

Lemma generateQuerySchema_no_imports fuel op sr :
  generateQuerySchema fuel op = Ok sr -> sr_imports sr = [].
Proof.
  unfold generateQuerySchema.
  destruct (query_parameters op) as [qs| |]; simpl; try discriminate.
  destruct qs as [|q qs]; [intro H; now injection H as <-|].
  destruct (map_res _ _); simpl; try discriminate. intro H; now injection H as <-.
Qed.

(** C3 (code bug): [generateQuerySchema] compiles each query parameter without
    a reference set and always returns no imports.  For the operation with a
    query parameter whose schema refers to the registered named schema
    [Status], the query expression uses [StatusSchema] but the template imports
    nothing, while the same reference as request body does yield the import. *)
Theorem C3_query_ref_not_imported :
  (forall fuel op sr, generateQuerySchema fuel op = Ok sr -> sr_imports sr = []) /\
  generateQuerySchema 5 op_query_ref =
    Ok {| sr_schema := "z.object({ status: StatusSchema.optional() })"; sr_imports := [] |} /\
  generateInputSchema 5 op_body_ref status_registry =
    Ok {| sr_schema := "StatusSchema"; sr_imports := [import_line "Status"] |} /\
  exists t,
    generateTemplate 5 "/items" "GET" op_query_ref status_registry = Ok t /\
    str_includes "StatusSchema" (content t) = true /\
    str_includes (import_line "Status") (content t) = false.
Proof.
  split; [exact generateQuerySchema_no_imports|].
  split; [reflexivity|split; [reflexivity|]].
  eexists; split; [reflexivity|split; vm_compute; reflexivity].
Qed.

(** ** Claim C10: imports of operation schemas and of named-schema files *)

Lemma registry_truthy_unregistered schemas name :
  find (fun kv => String.eqb (fst kv) name) schemas = None ->
  registry_truthy schemas name = existsb (String.eqb name) object_prototype_keys.
Proof. unfold registry_truthy. intros ->. reflexivity. Qed.

(** C10 (code bug): the registered-name test [schemas[name]] reads a plain
    object, so a name that is not registered but is a member of
    [Object.prototype] passes it: a [$ref] to [constructor], with no schema
    registered, gets an import.  Names neither registered nor inherited get
    none, and named-schema files import every distinct collected reference
    except their own name ([Node] referring to [Foo] twice and to itself
    imports [Foo] once). *)
Theorem C10_prototype_names_imported :
  convertSchemaWithImports 5 (VObj [("$ref", VStr "#/components/schemas/constructor")]) [] =
    Ok {| sr_schema := "constructorSchema"; sr_imports := [import_line "constructor"] |} /\
  convertSchemaWithImports 5 (VObj [("$ref", VStr "#/components/schemas/Missing")]) [] =
    Ok {| sr_schema := "MissingSchema"; sr_imports := [] |} /\
  (forall schemas name,
      find (fun kv => String.eqb (fst kv) name) schemas = None ->
      registry_truthy schemas name = existsb (String.eqb name) object_prototype_keys) /\
  extractAndWriteSchemas 5 "api" node_spec =
    Ok ([("Node", "NodeSchema")],
        [(".rekku/apis/api/schemas/.gitkeep", "");
         (".rekku/apis/api/schemas/Node.ts",
          schema_file_content "Node"
            "z.object({ a: FooSchema.optional(), b: FooSchema.optional(), next: NodeSchema.optional() })"
            (import_line "Foo"))]).
Proof.
  split; [reflexivity|split; [reflexivity|split; [exact registry_truthy_unregistered|]]].
  vm_compute. reflexivity.
Qed.

(** ** Keys of assembled objects *)

Lemma obj_has_lookup kvs k : obj_has kvs k = false <-> obj_lookup kvs k = None.
Proof.
  induction kvs as [|[k0 v0] t IH]; simpl; [tauto|].
  destruct (String.eqb k k0); simpl; [split; intro H; discriminate H|exact IH].
Qed.

Lemma obj_has_replace kvs k v k' : obj_has (obj_replace kvs k v) k' = obj_has kvs k'.
Proof.
  induction kvs as [|[k0 v0] t IH]; simpl; [reflexivity|].
  destruct (String.eqb k k0) eqn:E; simpl.
  - apply String.eqb_eq in E; now subst.
  - now rewrite IH.
Qed.

Lemma obj_has_insert kvs k v k' :
  obj_has (insert_new k v kvs) k' = String.eqb k' k || obj_has kvs k'.
Proof.
  induction kvs as [|[k0 v0] t IH]; simpl; [now rewrite orb_false_r|].
  assert (Hfront : obj_has ((k, v) :: (k0, v0) :: t) k' =
                   String.eqb k' k || obj_has ((k0, v0) :: t) k') by reflexivity.
  assert (Hback : obj_has ((k0, v0) :: insert_new k v t) k' =
                  String.eqb k' k || obj_has ((k0, v0) :: t) k').
  { simpl. rewrite IH. destruct (String.eqb k' k0), (String.eqb k' k); reflexivity. }
  destruct (array_index k), (array_index k0); try destruct (N.ltb _ _); assumption.
Qed.

Lemma nodup_replace kvs k v : nodup_keys kvs = true -> nodup_keys (obj_replace kvs k v) = true.
Proof.
  induction kvs as [|[k0 v0] t IH]; simpl; [auto|].
  intro H. apply andb_true_iff in H as [H1 H2].
  destruct (String.eqb k k0) eqn:E; simpl.
  - apply String.eqb_eq in E; subst. now rewrite H1, H2.
  - rewrite obj_has_replace, H1. now apply IH.
Qed.

Lemma nodup_insert kvs k v :
  obj_has kvs k = false -> nodup_keys kvs = true -> nodup_keys (insert_new k v kvs) = true.
Proof.
  induction kvs as [|[k0 v0] t IH]; intros Hk H; simpl; [reflexivity|].
  simpl in Hk. apply orb_false_iff in Hk as [Hk0 Hkt].
  simpl in H. apply andb_true_iff in H as [H1 H2].
  assert (Hfront : nodup_keys ((k, v) :: (k0, v0) :: t) = true).
  { change (negb (obj_has ((k0, v0) :: t) k) && nodup_keys ((k0, v0) :: t) = true).
    simpl. rewrite Hk0, Hkt, H1, H2. reflexivity. }
  assert (Hback : nodup_keys ((k0, v0) :: insert_new k v t) = true).
  { simpl. rewrite obj_has_insert, (IH Hkt H2), String.eqb_sym, Hk0. simpl. now rewrite H1. }
  destruct (array_index k), (array_index k0); try destruct (N.ltb _ _); assumption.
Qed.

Lemma nodup_obj_set kvs k v : nodup_keys kvs = true -> nodup_keys (obj_set kvs k v) = true.
Proof.
  unfold obj_set. destruct (obj_has kvs k) eqn:E; intro H;
    [now apply nodup_replace|now apply nodup_insert].
Qed.

Lemma nodup_spread o v : nodup_keys o = true -> nodup_keys (obj_spread o v) = true.
Proof.
  unfold obj_spread. generalize (own_entries v). intro l. revert o.
  induction l as [|kv t IH]; intros o H; simpl; [exact H|].
  apply IH. now apply nodup_obj_set.
Qed.

Lemma nodup_keys_NoDup kvs : nodup_keys kvs = true -> NoDup (map fst kvs).
Proof.
  induction kvs as [|[k v] t IH]; simpl; intro H; [constructor|].
  apply andb_true_iff in H as [H1 H2]. constructor; [|now apply IH].
  intro Hin. apply negb_true_iff, obj_has_lookup in H1.
  apply in_map_iff in Hin as [[k' v'] [Hk Hin]]; simpl in Hk; subst k'.
  clear IH H2. induction t as [|[k1 v1] t IHt]; [destruct Hin|].
  simpl in H1. destruct (String.eqb k k1) eqn:E; [discriminate|].
  destruct Hin as [Heq|Hin]; [injection Heq as -> _; now rewrite String.eqb_refl in E|].
  exact (IHt H1 Hin).
Qed.

(** ** A falsy [$ref] is ignored *)

Lemma field_with_type kvs t k :
  NoDup (map fst kvs) ->
  field (obj_set (obj_spread [] (VObj kvs)) "type" t) k =
  if String.eqb k "type" then t else field kvs k.
Proof.
  intro Hn. pose proof (lookup_with_type kvs t k Hn) as L. unfold with_type in L.
  unfold field. rewrite L. now destruct (String.eqb k "type").
Qed.

Lemma same_with_type kvs kvs' t :
  same_but_ref kvs kvs' ->
  same_but_ref (obj_set (obj_spread [] (VObj kvs)) "type" t)
               (obj_set (obj_spread [] (VObj kvs')) "type" t).
Proof.
  intros [Hn [Hn' [Hr [Hr' Hf]]]].
  split; [apply nodup_keys_NoDup, nodup_obj_set, nodup_spread; reflexivity|].
  split; [apply nodup_keys_NoDup, nodup_obj_set, nodup_spread; reflexivity|].
  rewrite !field_with_type by assumption. cbn [String.eqb Ascii.eqb Bool.eqb andb].
  split; [exact Hr|]. split; [exact Hr'|].
  intros k Hk. rewrite !field_with_type by assumption.
  destruct (String.eqb k "type"); [reflexivity|exact (Hf k Hk)].
Qed.

Ltac fields_agree kvs Hf :=
  repeat match goal with |- context [field kvs ?k] => rewrite (Hf k) by discriminate end.

Lemma compile_same_but_ref n : forall kvs kvs' r,
  same_but_ref kvs kvs' ->
  convertJsonSchemaToZod n (VObj kvs) r = convertJsonSchemaToZod n (VObj kvs') r.
Proof.
  induction n as [|n IH]; intros kvs kvs' r Hs; [reflexivity|].
  assert (Hw : forall t, convertJsonSchemaToZod n (with_type (VObj kvs) t) =
                         convertJsonSchemaToZod n (with_type (VObj kvs') t)).
  { intro t. extensionality r'. unfold with_type. now apply IH, same_with_type. }
  destruct Hs as [Hn [Hn' [Hr [Hr' Hf]]]].
  rewrite !compile_obj. cbv zeta. rewrite Hr, Hr'. fields_agree kvs Hf.
  destruct (is_array (field kvs' "type")) eqn:Ta.
  - unfold handleNullableType. rewrite !get_obj. fields_agree kvs Hf. rewrite !bind_lift_Ok.
    destruct (array_receiver (field kvs' "type")) as [l|e|]; [|reflexivity ..].
    rewrite !bind_lift_Ok. unfold handleTypeUnion.
    assert (HF : (fun t => convertJsonSchemaToZod n (with_type (VObj kvs) t)) =
                 (fun t => convertJsonSchemaToZod n (with_type (VObj kvs') t)))
      by (extensionality t; apply Hw).
    rewrite HF.
    destruct (existsb (is_str "null") l); [|reflexivity].
    destruct (filter _ l) as [|t [|t1 ts]]; [reflexivity| |reflexivity].
    now rewrite Hw.
  - destruct (_ || _ || _); [unfold handleCombinators; rewrite !get_obj; fields_agree kvs Hf;
                             reflexivity|].
    unfold handleStringSchema, handleNumberSchema, number_checks, handleArraySchema,
      handleObjectSchema, required_includes.
    rewrite !get_obj. fields_agree kvs Hf. reflexivity.
Qed.

Lemma field_without_ref kvs k :
  k <> "$ref" -> field (without_ref kvs) k = field kvs k.
Proof.
  intro Hk. apply String.eqb_neq in Hk. unfold field, without_ref.
  induction kvs as [|[k0 v0] t IH]; [reflexivity|]. simpl.
  destruct (String.eqb k0 "$ref") eqn:E; simpl.
  - apply String.eqb_eq in E. subst k0. rewrite Hk. exact IH.
  - destruct (String.eqb k k0); [reflexivity|exact IH].
Qed.

Lemma field_without_ref_ref kvs : field (without_ref kvs) "$ref" = VUndef.
Proof.
  unfold field, without_ref. induction kvs as [|[k0 v0] t IH]; [reflexivity|].
  cbn [filter fst]. destruct (String.eqb k0 "$ref") eqn:E; cbn [negb]; [exact IH|].
  cbn [obj_lookup]. rewrite String.eqb_sym, E. exact IH.
Qed.

Lemma NoDup_without_ref kvs : NoDup (map fst kvs) -> NoDup (map fst (without_ref kvs)).
Proof.
  unfold without_ref. induction kvs as [|[k v] t IH]; simpl; intro H; [constructor|].
  inversion H as [|? ? Hnotin Ht]; subst.
  destruct (negb (String.eqb k "$ref")); simpl; [|exact (IH Ht)].
  constructor; [|exact (IH Ht)].
  intro Hin. apply Hnotin. apply in_map_iff in Hin as [kv [Hk Hin]].
  apply filter_In in Hin as [Hin _]. apply in_map_iff. now exists kv.
Qed.

Lemma compile_without_ref n kvs r :
  NoDup (map fst kvs) -> truthy (field kvs "$ref") = false ->
  convertJsonSchemaToZod n (VObj kvs) r = convertJsonSchemaToZod n (VObj (without_ref kvs)) r.
Proof.
  intros Hn Hr. apply compile_same_but_ref.
  split; [exact Hn|]. split; [now apply NoDup_without_ref|].
  split; [exact Hr|]. split; [now rewrite field_without_ref_ref|].
  intros k Hk. symmetry. now apply field_without_ref.
Qed.

Lemma compile_ref_not_string n kvs r :
  truthy (field kvs "$ref") = true -> is_vstr (field kvs "$ref") = false ->
  convertJsonSchemaToZod (S n) (VObj kvs) r = Throw "TypeError".
Proof.
  intros T S. rewrite compile_obj. cbv zeta. rewrite T.
  destruct (field kvs "$ref"); try discriminate S; reflexivity.
Qed.

(** C1 (amended): for every schema node whose [$ref] is a non-empty string,
    compile returns the symbol [<Name>Schema] of the last segment of that
    string, whatever the node's other fields, and adds [Name] to the reference
    set with [Set.add]; compiling any schema only adds names to a set with
    [Set.add], so a set that starts without duplicates (the empty set the
    callers pass) ends without duplicates: a name referenced twice in one node,
    as in [{type: object, properties: {a: {$ref: .../Foo}, b: {$ref:
    .../Foo}}}], appears once. A falsy [$ref] (empty string, null, false, 0)
    is ignored: the node (with distinct keys, as parsed JSON has) compiles
    exactly as the same node without its [$ref]. *)
Theorem C1_ref_symbol_once :
  (forall n kvs s r,
      obj_lookup kvs "$ref" = Some (VStr s) -> s <> "" ->
      convertJsonSchemaToZod (S n) (VObj kvs) r =
        Ok (ref_name s ++ "Schema", add_to_refs (ref_name s) r) /\
      (forall l, r = Some l -> NoDup l ->
         NoDup (set_add (ref_name s) l) /\ In (ref_name s) (set_add (ref_name s) l))) /\
  (forall fuel v l a l',
      NoDup l -> convertJsonSchemaToZod fuel v (Some l) = Ok (a, Some l') ->
      NoDup l' /\ incl l l') /\
  (forall n kvs r,
      NoDup (map fst kvs) -> truthy (field kvs "$ref") = false ->
      convertJsonSchemaToZod n (VObj kvs) r = convertJsonSchemaToZod n (VObj (without_ref kvs)) r) /\
  convertJsonSchemaToZod 3
    (VObj [("type", VStr "object");
           ("properties", VObj [("a", VObj [("$ref", VStr "#/components/schemas/Foo")]);
                                ("b", VObj [("$ref", VStr "#/components/schemas/Foo")])])])
    (Some []) =
    Ok ("z.object({ a: FooSchema.optional(), b: FooSchema.optional() })", Some ["Foo"]).
Proof.
  split; [|split; [|split]].
  - intros n kvs s r H Hs. split; [now apply compile_ref|].
    intros l _ Hl. split; [now apply set_add_NoDup|apply set_add_In].
  - intros fuel v l a l' Hl H.
    destruct (convertJsonSchemaToZod_pres fuel v (Some l) a (Some l') H) as [Hn Hi].
    split; [now apply Hn|exact Hi].
  - intros n kvs r Hn Hr. exact (compile_without_ref n kvs r Hn Hr).
  - reflexivity.
Qed.

(** ** The [allOf] merge *)

Lemma lookup_spread_nil m k :
  nodup_keys m = true -> obj_lookup (obj_spread [] (VObj m)) k = obj_lookup m k.
Proof.
  intro H. rewrite lookup_spread by now apply nodup_keys_NoDup.
  destruct (obj_lookup m k); reflexivity.
Qed.

Lemma lookup_merge_result acc bk k :
  nodup_keys acc = true -> nodup_keys bk = true ->
  obj_lookup (obj_spread (obj_spread [] (VObj acc)) (VObj bk)) k =
  match obj_lookup bk k with Some v => Some v | None => obj_lookup acc k end.
Proof.
  intros Ha Hb. rewrite lookup_spread by now apply nodup_keys_NoDup.
  now rewrite lookup_spread_nil.
Qed.

Lemma last_defined_app done bk k :
  last_defined (done ++ [bk]) k =
  match obj_lookup bk k with Some v => Some v | None => last_defined done k end.
Proof. unfold last_defined. now rewrite fold_left_app. Qed.

Lemma spec_props_app done bk p :
  spec_props (done ++ [bk]) p =
  match props_of bk with
  | Some pk => match obj_lookup pk p with Some v => Some v | None => spec_props done p end
  | None => spec_props done p
  end.
Proof. unfold spec_props. now rewrite fold_left_app. Qed.

Lemma in_some_required_app done bk key :
  in_some_required (done ++ [bk]) key <->
  in_some_required done key \/ In (VStr key) (required_of bk).
Proof.
  unfold in_some_required. split.
  - intros [b [Hin Hr]]. apply in_app_iff in Hin as [Hin|[<-|[]]]; eauto.
  - intros [[b [Hin Hr]]|Hr].
    + exists b. split; [apply in_app_iff; now left|exact Hr].
    + exists bk. split; [apply in_app_iff; right; now left|exact Hr].
Qed.

Lemma svz_dedup_strings l :
  forallb is_vstr l = true ->
  forallb is_vstr (svz_dedup l) = true /\
  forall key, In (VStr key) (svz_dedup l) <-> In (VStr key) l.
Proof.
  unfold svz_dedup.
  assert (G : forall acc, forallb is_vstr acc = true -> forallb is_vstr l = true ->
    forallb is_vstr (fold_left (fun acc x => if existsb (same_value_zero x) acc then acc
                                            else (acc ++ [x])%list) l acc) = true /\
    forall key, In (VStr key) (fold_left (fun acc x => if existsb (same_value_zero x) acc then acc
                                            else (acc ++ [x])%list) l acc) <->
                In (VStr key) acc \/ In (VStr key) l).
  { induction l as [|x t IH]; intros acc Ha Hl; simpl.
    - split; [exact Ha|intro key; simpl; tauto].
    - simpl in Hl. apply andb_true_iff in Hl as [Hx Ht].
      destruct x as [| | | |s| |]; try discriminate.
      destruct (existsb (same_value_zero (VStr s)) acc) eqn:E.
      + destruct (IH acc Ha Ht) as [H1 H2]. split; [exact H1|].
        intro key. rewrite H2. split; [tauto|].
        intros [Hk|[Hk|Hk]]; auto. injection Hk as ->. left.
        apply existsb_exists in E as [y [Hy Hsv]].
        destruct y; try discriminate. simpl in Hsv. apply String.eqb_eq in Hsv. now subst.
      + assert (Ha' : forallb is_vstr (acc ++ [VStr s]) = true).
        { rewrite forallb_app, Ha. reflexivity. }
        destruct (IH _ Ha' Ht) as [H1 H2]. split; [exact H1|].
        intro key. rewrite H2, in_app_iff. simpl. tauto. }
  intro Hl. destruct (G [] eq_refl Hl) as [H1 H2]. split; [exact H1|].
  intro key. rewrite H2. simpl. tauto.
Qed.

Lemma merge_step_inv done acc bk :
  merge_inv done acc -> branch_ok bk = true ->
  exists m, merge_step (VObj acc) (VObj bk) = Ok (VObj m) /\ merge_inv (done ++ [bk]) m.
Proof.
  intros [Hnd [Hoth [Hprops Hreq]]] Hb.
  unfold branch_ok in Hb. apply andb_true_iff in Hb as [Hb Hbr].
  apply andb_true_iff in Hb as [Hbnd Hbp].
  pose proof (fun k => lookup_merge_result acc bk k Hnd Hbnd) as Hr0.
  assert (Hnd0 : nodup_keys (obj_spread (obj_spread [] (VObj acc)) (VObj bk)) = true)
    by (apply nodup_spread, nodup_spread; reflexivity).
  set (R := obj_spread (obj_spread [] (VObj acc)) (VObj bk)) in *.
  unfold merge_step. rewrite !get_obj. cbn [res_bind]. fold R.
  match goal with
  | |- exists m, res_bind ?e _ = _ /\ _ =>
      assert (HP : exists r1, e = Ok r1 /\ nodup_keys r1 = true /\
                (forall k, k <> "properties" -> obj_lookup r1 k = obj_lookup R k) /\
                match obj_lookup r1 "properties" with
                | None => forall p, spec_props (done ++ [bk]) p = None
                | Some (VObj pm) => nodup_keys pm = true /\
                                    forall p, obj_lookup pm p = spec_props (done ++ [bk]) p
                | Some _ => False
                end)
  end.
  { unfold field.
    destruct (obj_lookup acc "properties") as [pv|] eqn:Eap;
      [destruct pv; try contradiction|];
      destruct (obj_lookup bk "properties") as [cv|] eqn:Ebp;
      try (destruct cv; try discriminate Hbp); cbn [truthy].
    - (* both branches have properties *)
      destruct Hprops as [Hpnd Hpm].
      eexists; split; [reflexivity|]. split; [now apply nodup_obj_set|]. split.
      + intros k Hk. rewrite lookup_obj_set.
        destruct (String.eqb k "properties") eqn:E; [apply String.eqb_eq in E; contradiction|reflexivity].
      + rewrite lookup_obj_set, String.eqb_refl. split.
        * apply nodup_spread, nodup_spread. reflexivity.
        * intro p. rewrite lookup_merge_result by assumption.
          rewrite spec_props_app. unfold props_of. rewrite Ebp, Hpm. reflexivity.
    - (* only the merged object has properties *)
      destruct Hprops as [Hpnd Hpm].
      eexists; split; [reflexivity|]. split; [exact Hnd0|]. split; [reflexivity|].
      rewrite Hr0, Ebp, Eap. split; [exact Hpnd|].
      intro p. rewrite spec_props_app. unfold props_of. rewrite Ebp. apply Hpm.
    - (* only the current branch has properties *)
      eexists; split; [reflexivity|]. split; [exact Hnd0|]. split; [reflexivity|].
      rewrite Hr0, Ebp. split; [exact Hbp|].
      intro p. rewrite spec_props_app. unfold props_of. rewrite Ebp, Hprops.
      match goal with |- _ = match obj_lookup ?pk p with _ => _ end => destruct (obj_lookup pk p); reflexivity end.
    - (* neither has properties *)
      eexists; split; [reflexivity|]. split; [exact Hnd0|]. split; [reflexivity|].
      rewrite Hr0, Ebp, Eap. intro p. rewrite spec_props_app. unfold props_of. rewrite Ebp.
      apply Hprops. }
  destruct HP as [r1 [He [Hnd1 [Hlk1 Hp1]]]]. rewrite He. cbn [res_bind].
  assert (Hfin : forall m, nodup_keys m = true ->
            (forall k, k <> "required" -> obj_lookup m k = obj_lookup r1 k) ->
            match obj_lookup m "required" with
            | None => forall b, In b (done ++ [bk]) -> required_of b = []
            | Some (VArr l) => forallb is_vstr l = true /\
                               forall key, In (VStr key) l <-> in_some_required (done ++ [bk]) key
            | Some _ => False
            end ->
            merge_inv (done ++ [bk]) m).
  { intros m Hm Hmk Hmr. split; [exact Hm|]. split.
    - intros k H1 H2. rewrite Hmk, Hlk1, Hr0, last_defined_app by assumption.
      destruct (obj_lookup bk k); [reflexivity|now apply Hoth].
    - split; [rewrite Hmk by discriminate; exact Hp1|exact Hmr]. }
  unfold field.
  destruct (obj_lookup acc "required") as [av|] eqn:Ear; [destruct av; try contradiction|];
    destruct (obj_lookup bk "required") as [bv|] eqn:Ebr;
    try (destruct bv; try discriminate Hbr); cbn [truthy iterate res_bind].
  - (* both have required: the union, first occurrences kept *)
    destruct Hreq as [Hla Hlaiff].
    destruct (svz_dedup_strings (l ++ l0)) as [Hs Hsi].
    { rewrite forallb_app, Hla, Hbr. reflexivity. }
    eexists; split; [reflexivity|]. apply Hfin.
    + now apply nodup_obj_set.
    + intros k Hk. rewrite lookup_obj_set.
      destruct (String.eqb k "required") eqn:E; [apply String.eqb_eq in E; contradiction|reflexivity].
    + rewrite lookup_obj_set, String.eqb_refl. split; [exact Hs|].
      intro key. rewrite Hsi, in_app_iff, in_some_required_app, Hlaiff.
      unfold required_of. rewrite Ebr. tauto.
  - (* only the merged object has required *)
    eexists; split; [reflexivity|]. apply Hfin; [assumption|reflexivity|].
    rewrite Hlk1 by discriminate. rewrite Hr0, Ebr, Ear. split; [exact (proj1 Hreq)|].
    intro key. rewrite in_some_required_app, (proj2 Hreq). unfold required_of. rewrite Ebr.
    simpl. tauto.
  - (* only the current branch has required *)
    eexists; split; [reflexivity|]. apply Hfin; [assumption|reflexivity|].
    rewrite Hlk1 by discriminate. rewrite Hr0, Ebr. split; [exact Hbr|].
    intro key. rewrite in_some_required_app.
    assert (Hno : ~ in_some_required done key).
    { intros [b [Hin Hr]]. rewrite (Hreq b Hin) in Hr. destruct Hr. }
    unfold required_of. rewrite Ebr. tauto.
  - (* neither has required *)
    eexists; split; [reflexivity|]. apply Hfin; [assumption|reflexivity|].
    rewrite Hlk1 by discriminate. rewrite Hr0, Ebr, Ear.
    intros b Hin. apply in_app_iff in Hin as [Hin|[<-|[]]]; [now apply Hreq|].
    unfold required_of. now rewrite Ebr.
Qed.

Lemma merge_inv_nil : merge_inv [] [].
Proof.
  split; [reflexivity|]. split; [intros; reflexivity|].
  split; [intro; reflexivity|intros b []].
Qed.

Lemma merge_fold bks : forall done acc,
  merge_inv done acc -> forallb branch_ok bks = true ->
  exists m, fold_res merge_step (VObj acc) (map VObj bks) = Ok (VObj m) /\
            merge_inv (done ++ bks) m.
Proof.
  induction bks as [|bk t IH]; intros done acc Hinv Hok; simpl.
  - exists acc. rewrite app_nil_r. now split.
  - simpl in Hok. apply andb_true_iff in Hok as [Hb Ht].
    destruct (merge_step_inv done acc bk Hinv Hb) as [m1 [E1 H1]].
    rewrite E1. cbn [res_bind].
    destruct (IH _ _ H1 Ht) as [m [E H]]. exists m. split; [exact E|].
    now rewrite <- app_assoc in H.
Qed.

Lemma existsb_svz_vstr l key :
  forallb is_vstr l = true ->
  existsb (same_value_zero (VStr key)) l = true <-> In (VStr key) l.
Proof.
  intro Hl. rewrite existsb_exists. split.
  - intros [x [Hin Hx]]. destruct x; try discriminate.
    simpl in Hx. apply String.eqb_eq in Hx. now subst.
  - intro Hin. exists (VStr key). split; [exact Hin|]. apply String.eqb_refl.
Qed.

Lemma compile_allOf n kvs bs r :
  truthy (field kvs "$ref") = false ->
  is_array (field kvs "type") = false ->
  truthy (field kvs "oneOf") = false ->
  truthy (field kvs "anyOf") = false ->
  field kvs "allOf" = VArr bs ->
  convertJsonSchemaToZod (S n) (VObj kvs) r =
  match mergeAllOfSchemas (VArr bs) with
  | Ok m => convertJsonSchemaToZod n m r
  | Throw e => Throw e
  | OutOfFuel => OutOfFuel
  end.
Proof.
  intros Href Hty Hone Hany Hall.
  rewrite compile_obj. cbv zeta. rewrite Href, Hty, Hone, Hany, Hall. cbn [truthy orb].
  unfold handleCombinators. rewrite !get_obj. unfold bind at 1. cbn [lift].
  rewrite Hone. unfold bind at 1. cbn [lift]. rewrite Hany.
  unfold bind at 1. cbn [lift]. rewrite Hall. cbn [truthy].
  unfold bind. destruct (mergeAllOfSchemas (VArr bs)); reflexivity.
Qed.

(** ** Claim C6: [allOf] *)

(** C6, as the spec words it, fails on its own example: the branches of the
    example set no [type], so neither does the merged node, and the merged
    node compiles to [z.any()], not to an object expression. *)
Lemma C6_counterexample :
  convertJsonSchemaToZod 5 allOf_example None = Ok ("z.any()", None).
Proof. vm_compute. reflexivity. Qed.

(** C6 (amended): for a schema node with a falsy [$ref], a [type] that is
    not an array, falsy [oneOf] and [anyOf] and an array [allOf], compile
    merges the branches once and compiles the merged node through the
    ordinary dispatch, a single pass. For branches that are objects whose
    [properties] (if present) is an object and whose [required] (if present)
    is an array of names, the merge succeeds; every field other than
    [properties] and [required] comes from the last branch that has it (so
    does [type]); a property comes from the last branch whose [properties]
    define it; a name is required in the merged node exactly when some branch
    requires it. When the merged node has [type] object (and no [$ref] or
    combinator), it compiles to one object expression, with the markers
    decided by that merged required set; the example with [type] object on
    its first branch gives one object with [a] required and [b] optional. *)
Theorem C6_allOf_merge :
  (forall n kvs bs r,
     truthy (field kvs "$ref") = false ->
     is_array (field kvs "type") = false ->
     truthy (field kvs "oneOf") = false ->
     truthy (field kvs "anyOf") = false ->
     field kvs "allOf" = VArr bs ->
     convertJsonSchemaToZod (S n) (VObj kvs) r =
     match mergeAllOfSchemas (VArr bs) with
     | Ok m => convertJsonSchemaToZod n m r
     | Throw e => Throw e
     | OutOfFuel => OutOfFuel
     end) /\
  (forall bks, forallb branch_ok bks = true ->
     exists m, mergeAllOfSchemas (VArr (map VObj bks)) = Ok (VObj m) /\
       (forall k, k <> "properties" -> k <> "required" -> obj_lookup m k = last_defined bks k) /\
       (forall p, prop_lookup m p = spec_props bks p) /\
       (forall key, exists b, required_includes (VObj m) key = Ok b /\
                              (b = true <-> in_some_required bks key))) /\
  (forall n m r,
     truthy (field m "$ref") = false ->
     field m "type" = VStr "object" ->
     truthy (field m "oneOf") = false ->
     truthy (field m "anyOf") = false ->
     truthy (field m "allOf") = false ->
     convertJsonSchemaToZod (S n) (VObj m) r = handleObjectSchema (convertJsonSchemaToZod n) (VObj m) r) /\
  convertJsonSchemaToZod 5 allOf_typed None =
    Ok ("z.object({ a: z.string(), b: z.string().optional() })", None).
Proof.
  split; [exact compile_allOf|]. split; [|split].
  - intros bks Hok.
    destruct (merge_fold bks [] [] merge_inv_nil Hok) as [m [E [Hnd [Hoth [Hp Hr]]]]].
    exists m. split; [exact E|]. split; [exact Hoth|]. split.
    + intro p. unfold prop_lookup.
      destruct (obj_lookup m "properties") as [[| | | | | |pm]|]; try contradiction.
      * now destruct Hp.
      * symmetry. apply Hp.
    + intro key. unfold required_includes. rewrite get_obj. cbn [res_bind]. unfold field.
      destruct (obj_lookup m "required") as [[| | | | |l|]|]; try contradiction.
      * destruct Hr as [Hl Hiff]. eexists; split; [reflexivity|].
        rewrite existsb_svz_vstr by exact Hl. apply Hiff.
      * eexists; split; [reflexivity|]. split; [discriminate|].
        intros [b [Hin Hb]]. rewrite (Hr b Hin) in Hb. destruct Hb.
  - intros n m r Href Hty Hone Hany Hall.
    rewrite compile_obj. cbv zeta. rewrite Href, Hty, Hone, Hany, Hall. reflexivity.
  - vm_compute. reflexivity.
Qed.

(** ** Termination of the compiler *)

Lemma list_max_map_le {A} (f : A -> nat) l b :
  (forall x, In x l -> f x <= b) -> list_max (map f l) <= b.
Proof.
  intro H. apply list_max_le, Forall_forall. intros y Hy.
  apply in_map_iff in Hy as [x [<- Hx]]. now apply H.
Qed.

Lemma list_max_map_in {A} (f : A -> nat) l x :
  In x l -> f x <= list_max (map f l).
Proof.
  intro H. assert (Hl : Forall (fun k => k <= list_max (map f l)) (map f l))
    by (apply list_max_le; reflexivity).
  rewrite Forall_forall in Hl. apply Hl, in_map_iff. now exists x.
Qed.

Lemma vheight_obj_in kvs k x : In (k, x) kvs -> vheight x < vheight (VObj kvs).
Proof.
  intro H. simpl. apply Nat.lt_succ_r.
  exact (list_max_map_in (fun kv => vheight (snd kv)) kvs (k, x) H).
Qed.

Lemma vheight_obj_snd kvs x : In x (map snd kvs) -> vheight x < vheight (VObj kvs).
Proof.
  intro H. apply in_map_iff in H as [[k y] [Hy H]]. simpl in Hy. subst y.
  exact (vheight_obj_in _ _ _ H).
Qed.

Lemma vheight_arr_in l x : In x l -> vheight x < vheight (VArr l).
Proof. intro H. simpl. apply Nat.lt_succ_r. exact (list_max_map_in vheight l x H). Qed.

Lemma vheight_obj_le kvs b :
  (forall x, In x (map snd kvs) -> vheight x <= b) -> vheight (VObj kvs) <= S b.
Proof.
  intro H. simpl. apply le_n_S, list_max_map_le. intros [k x] Hin.
  apply H. apply in_map_iff. now exists (k, x).
Qed.

Lemma vheight_arr_le l b : (forall x, In x l -> vheight x <= b) -> vheight (VArr l) <= S b.
Proof. intro H. simpl. apply le_n_S, list_max_map_le. exact H. Qed.

Lemma field_height kvs k : vheight (field kvs k) < vheight (VObj kvs).
Proof.
  unfold field. destruct (obj_lookup kvs k) as [x|] eqn:E.
  - apply obj_lookup_In in E. exact (vheight_obj_in _ _ _ E).
  - simpl. lia.
Qed.

Lemma mu_lt_height c s : vheight c < vheight s -> mu c < mu s.
Proof.
  intro H. unfold mu.
  assert (Hc : type_height c <= vheight c).
  { destruct c as [| | | | | |kvs]; unfold type_height; try lia.
    pose proof (field_height kvs "type"). lia. }
  assert (vheight c * vheight c + vheight c < vheight s * vheight s) by nia.
  lia.
Qed.

Lemma In_indexed {A} (l : list A) n k x : In (k, x) (indexed n l) -> In x l.
Proof.
  revert n; induction l as [|y t IH]; intros n H; simpl in H; [destruct H|].
  destruct H as [H|H]; [injection H as _ ->; now left|right; exact (IH _ H)].
Qed.

Lemma chars_height s x : In x (chars s) -> vheight x = 0.
Proof.
  induction s as [|c t IH]; simpl; [intros []|].
  intros [<-|H]; [reflexivity|exact (IH H)].
Qed.

Lemma own_entries_height v x : In x (map snd (own_entries v)) -> vheight x <= pred (vheight v).
Proof.
  intro Hx. apply in_map_iff in Hx as [[k y] [Hy Hx]]. simpl in Hy. subst y. revert Hx.
  destruct v; simpl; try (intros []).
  - intro H. apply In_indexed, chars_height in H. lia.
  - intro H. apply In_indexed in H. pose proof (vheight_arr_in _ _ H). simpl in H0. lia.
  - intro H. pose proof (vheight_obj_in _ _ _ H). simpl in H0. lia.
Qed.

Lemma iterate_height v l x : iterate v = Ok l -> In x l -> vheight x <= pred (vheight v).
Proof.
  destruct v; simpl; intro E; try discriminate; injection E as <-; intro H.
  - apply chars_height in H. lia.
  - pose proof (vheight_arr_in _ _ H). simpl in H0. lia.
Qed.

Lemma In_obj_set kvs k v x :
  In x (map snd (obj_set kvs k v)) -> In x (map snd kvs) \/ x = v.
Proof.
  unfold obj_set. destruct (obj_has kvs k).
  - induction kvs as [|[k0 v0] t IH]; simpl; [intros []|].
    destruct (String.eqb k k0); simpl.
    + intros [H|H]; [now right|now left; right].
    + intros [H|H]; [now left; left|]. destruct (IH H) as [H'|H']; [now left; right|now right].
  - induction kvs as [|[k0 v0] t IH]; simpl.
    + intros [H|[]]. now right.
    + assert (Hb : In x (map snd ((k0, v0) :: insert_new k v t)) ->
                   In x (map snd ((k0, v0) :: t)) \/ x = v).
      { simpl. intros [H|H]; [now left; left|]. destruct (IH H) as [H'|H']; [now left; right|now right]. }
      assert (Hf : In x (map snd ((k, v) :: (k0, v0) :: t)) -> In x (map snd ((k0, v0) :: t)) \/ x = v).
      { intros [H|H]; [now right|now left]. }
      destruct (array_index k), (array_index k0); try destruct (N.ltb _ _); assumption.
Qed.

Lemma In_obj_spread o v x :
  In x (map snd (obj_spread o v)) -> In x (map snd o) \/ In x (map snd (own_entries v)).
Proof.
  unfold obj_spread. generalize (own_entries v) as l. intro l. revert o.
  induction l as [|[k0 v0] t IH]; intros o H; simpl in H; [now left|].
  destruct (IH _ H) as [H1|H1]; [|right; now right].
  destruct (In_obj_set _ _ _ _ H1) as [H2|H2]; [now left|].
  right. left. now subst.
Qed.

Lemma svz_dedup_incl l x : In x (svz_dedup l) -> In x l.
Proof.
  unfold svz_dedup.
  assert (G : forall acc, In x (fold_left (fun acc y => if existsb (same_value_zero y) acc then acc
                                               else (acc ++ [y])%list) l acc) -> In x acc \/ In x l).
  { induction l as [|y t IH]; intros acc H; simpl in H; [now left|].
    destruct (existsb (same_value_zero y) acc).
    - destruct (IH _ H); [now left|right; now right].
    - destruct (IH _ H) as [H1|H1]; [|right; now right].
      apply in_app_iff in H1 as [H1|[<-|[]]]; [now left|right; now left]. }
  intro H. destruct (G [] H) as [[]|H1]; exact H1.
Qed.

Lemma get_child v k x :
  get v k = Ok x -> array_index k = None -> String.eqb k "length" = false ->
  x = VUndef \/ vheight x < vheight v.
Proof.
  intros E Hi Hl. destruct v as [| | | |s|l|kvs]; simpl in E; try discriminate;
    try (injection E as <-; now left).
  - rewrite Hl, Hi in E. injection E as <-. now left.
  - rewrite Hl, Hi in E. injection E as <-. now left.
  - injection E as <-. destruct (obj_lookup kvs k) eqn:El; [|now left].
    right. apply obj_lookup_In in El. exact (vheight_obj_in _ _ _ El).
Qed.

Lemma field_le kvs k B :
  (forall x, In x (map snd kvs) -> vheight x <= B) -> vheight (field kvs k) <= B.
Proof.
  intro H. unfold field. destruct (obj_lookup kvs k) eqn:E; [|simpl; lia].
  apply H, in_map_iff. exists (k, v). split; [reflexivity|now apply obj_lookup_In].
Qed.

Lemma merge_step_height B acc b m :
  (forall x, In x (map snd acc) -> vheight x <= B) -> vheight b <= B ->
  merge_step (VObj acc) b = Ok m ->
  exists kvs, m = VObj kvs /\ forall x, In x (map snd kvs) -> vheight x <= B.
Proof.
  intros Hacc Hb H. unfold merge_step in H. rewrite !get_obj in H. cbn [res_bind] in H.
  set (R := obj_spread (obj_spread [] (VObj acc)) b) in *.
  assert (HR : forall x, In x (map snd R) -> vheight x <= B).
  { intros x Hx. destruct (In_obj_spread _ _ _ Hx) as [H1|H1].
    - destruct (In_obj_spread _ _ _ H1) as [[]|H2]. exact (Hacc x H2).
    - pose proof (own_entries_height _ _ H1). lia. }
  match type of H with res_bind ?e _ = _ => destruct e as [r1| |] eqn:E1 end;
    cbn [res_bind] in H; try discriminate H.
  assert (H1 : forall x, In x (map snd r1) -> vheight x <= B).
  { destruct (truthy (field acc "properties")); [|injection E1 as <-; exact HR].
    destruct (get b "properties") as [cp| |] eqn:Ecp; cbn [res_bind] in E1; try discriminate E1.
    destruct (truthy cp) eqn:Hcp; [|injection E1 as <-; exact HR].
    injection E1 as <-.
    destruct (get_child _ _ _ Ecp eq_refl eq_refl) as [-> | Hlt]; [discriminate Hcp|].
    pose proof (field_le acc "properties" B Hacc) as Hmp.
    intros x Hx. destruct (In_obj_set _ _ _ _ Hx) as [Hx' | ->]; [exact (HR x Hx')|].
    assert (HN : vheight (VObj (obj_spread (obj_spread [] (field acc "properties")) cp)) <= S (pred B)).
    { apply vheight_obj_le. intros y Hy. destruct (In_obj_spread _ _ _ Hy) as [Hy1|Hy1].
      - destruct (In_obj_spread _ _ _ Hy1) as [[]|Hy2].
        pose proof (own_entries_height _ _ Hy2). lia.
      - pose proof (own_entries_height _ _ Hy1). lia. }
    lia. }
  destruct (truthy (field acc "required")); [|injection H as <-; now exists r1].
  destruct (get b "required") as [cr| |] eqn:Ecr; cbn [res_bind] in H; try discriminate H.
  destruct (truthy cr) eqn:Hcr; [|injection H as <-; now exists r1].
  destruct (iterate (field acc "required")) as [la| |] eqn:Ea; cbn [res_bind] in H; try discriminate H.
  destruct (iterate cr) as [lb| |] eqn:Eb; cbn [res_bind] in H; try discriminate H.
  injection H as <-. eexists; split; [reflexivity|].
  destruct (get_child _ _ _ Ecr eq_refl eq_refl) as [-> | Hlt]; [discriminate Hcr|].
  pose proof (field_le acc "required" B Hacc) as Hmr.
  intros x Hx. destruct (In_obj_set _ _ _ _ Hx) as [Hx' | ->]; [exact (H1 x Hx')|].
  assert (HN : vheight (VArr (svz_dedup (la ++ lb))) <= S (pred B)).
  { apply vheight_arr_le. intros y Hy. apply svz_dedup_incl, in_app_iff in Hy as [Hy|Hy].
    - pose proof (iterate_height _ _ _ Ea Hy). lia.
    - pose proof (iterate_height _ _ _ Eb Hy). lia. }
  lia.
Qed.

Lemma merge_fold_height B bs : forall acc m,
  (forall x, In x (map snd acc) -> vheight x <= B) -> (forall b, In b bs -> vheight b <= B) ->
  fold_res merge_step (VObj acc) bs = Ok m -> vheight m <= S B.
Proof.
  induction bs as [|b t IH]; intros acc m Hacc Hbs H; simpl in H.
  - injection H as <-. now apply vheight_obj_le.
  - destruct (merge_step (VObj acc) b) as [m1| |] eqn:E; cbn [res_bind] in H; try discriminate H.
    destruct (merge_step_height B acc b m1 Hacc (Hbs b (or_introl eq_refl)) E) as [kvs [-> Hk]].
    exact (IH kvs m Hk (fun b' Hb' => Hbs b' (or_intror Hb')) H).
Qed.

Lemma mergeAllOfSchemas_height v m : mergeAllOfSchemas v = Ok m -> vheight m <= vheight v.
Proof.
  unfold mergeAllOfSchemas. destruct v as [| | | | |bs|]; simpl; intro H; try discriminate H.
  apply (merge_fold_height (list_max (map vheight bs)) bs []) in H; [exact H|intros _ []|].
  intros b Hb. exact (list_max_map_in vheight bs b Hb).
Qed.

Lemma mu_with_type kvs l t :
  field kvs "type" = VArr l -> In t l -> mu (with_type (VObj kvs) t) < mu (VObj kvs).
Proof.
  intros Hty Ht.
  pose proof (field_height kvs "type") as Hf. rewrite Hty in Hf.
  pose proof (vheight_arr_in _ _ Ht) as Htl.
  assert (Hh : vheight (with_type (VObj kvs) t) <= vheight (VObj kvs)).
  { unfold with_type. assert (vheight (VObj kvs) = S (pred (vheight (VObj kvs)))) as -> by (simpl; lia).
    apply vheight_obj_le. intros x Hx. destruct (In_obj_set _ _ _ _ Hx) as [Hx' | ->]; [|lia].
    destruct (In_obj_spread _ _ _ Hx') as [[]|Hx''].
    exact (own_entries_height _ _ Hx''). }
  assert (Htt : type_height (with_type (VObj kvs) t) = vheight t).
  { unfold with_type, type_height, field. now rewrite lookup_obj_set, String.eqb_refl. }
  unfold mu. rewrite Htt. unfold type_height. rewrite Hty. nia.
Qed.

(** Computations that never run out of fuel. *)

Lemma res_bind_nf {A B} (m : res A) (k : A -> res B) :
  m <> OutOfFuel -> (forall a, m = Ok a -> k a <> OutOfFuel) -> res_bind m k <> OutOfFuel.
Proof. intros H1 H2. destruct m as [a| |]; simpl; [exact (H2 a eq_refl)|discriminate|now contradiction H1]. Qed.

Lemma get_nf v k : get v k <> OutOfFuel.
Proof.
  destruct v; simpl; try discriminate.
  - destruct (String.eqb k "length"); [discriminate|destruct (array_index k); discriminate].
  - destruct (String.eqb k "length"); [discriminate|destruct (array_index k); discriminate].
Qed.

Lemma array_receiver_nf v : array_receiver v <> OutOfFuel.
Proof. destruct v; discriminate. Qed.

Lemma iterate_nf v : iterate v <> OutOfFuel.
Proof. destruct v; discriminate. Qed.

Lemma object_entries_nf v : object_entries v <> OutOfFuel.
Proof. unfold object_entries. destruct (is_nullish v); discriminate. Qed.

Lemma type_error_nf {A} : @type_error A <> OutOfFuel.
Proof. discriminate. Qed.

Lemma js_to_string_nf_height n : forall v, vheight v < n -> js_to_string v <> OutOfFuel.
Proof.
  induction n as [|n IHn]; intros v Hv; [lia|].
  destruct v as [| |[]| | |l|kvs]; cbn [js_to_string]; try discriminate.
  - apply res_bind_nf; [|intros; discriminate].
    assert (Hl : forall x, In x l -> vheight x < n)
      by (intros x Hx; pose proof (vheight_arr_in l x Hx); lia).
    clear Hv. induction l as [|x t IHl]; [discriminate|]. cbv beta iota fix.
    apply res_bind_nf.
    + destruct x; try discriminate; apply IHn, Hl; now left.
    + intros; apply res_bind_nf; [apply IHl; intros; apply Hl; now right|intros; discriminate].
  - destruct (existsb _ kvs); discriminate.
Qed.

Lemma js_to_string_nf v : js_to_string v <> OutOfFuel.
Proof. exact (js_to_string_nf_height (S (vheight v)) v (Nat.lt_succ_diag_r _)). Qed.

Lemma map_res_nf {A B} (f : A -> res B) l :
  (forall x, f x <> OutOfFuel) -> map_res f l <> OutOfFuel.
Proof.
  intro Hf. induction l as [|x t IH]; simpl; [discriminate|].
  apply res_bind_nf; [apply Hf|intros; apply res_bind_nf; [exact IH|intros; discriminate]].
Qed.

Create HintDb nofuel.
#[export] Hint Resolve get_nf array_receiver_nf iterate_nf object_entries_nf type_error_nf
  js_to_string_nf : nofuel.

Ltac res_nf :=
  repeat first
    [ discriminate
    | solve [auto with nofuel]
    | progress cbv beta
    | apply res_bind_nf; [|intros ? ?]
    | apply map_res_nf; intros ?
    | match goal with
      | |- (if ?b then _ else _) <> _ => destruct b
      | |- (match ?x with _ => _ end) <> _ => destruct x
      end ].

Lemma number_checks_nf v : number_checks v <> OutOfFuel.
Proof. unfold number_checks. res_nf. Qed.

Lemma handleStringSchema_nf v : handleStringSchema v <> OutOfFuel.
Proof. unfold handleStringSchema. res_nf. Qed.

Lemma handleNumberSchema_nf v : handleNumberSchema v <> OutOfFuel.
Proof. unfold handleNumberSchema. res_nf; apply number_checks_nf. Qed.

Lemma required_includes_nf v k : required_includes v k <> OutOfFuel.
Proof. unfold required_includes. res_nf. Qed.

Lemma merge_step_nf a b : merge_step a b <> OutOfFuel.
Proof. unfold merge_step. res_nf. Qed.

Lemma mergeAllOfSchemas_nf v : mergeAllOfSchemas v <> OutOfFuel.
Proof.
  unfold mergeAllOfSchemas. apply res_bind_nf; [apply array_receiver_nf|intros l _].
  generalize (VObj []). induction l as [|x t IH]; intro acc; simpl; [discriminate|].
  apply res_bind_nf; [apply merge_step_nf|intros a _; apply IH].
Qed.

#[export] Hint Resolve number_checks_nf handleStringSchema_nf handleNumberSchema_nf
  required_includes_nf merge_step_nf mergeAllOfSchemas_nf : nofuel.

Lemma bind_nf {A B} (m : M A) (k : A -> M B) r :
  m r <> OutOfFuel -> (forall a r', m r = Ok (a, r') -> k a r' <> OutOfFuel) ->
  bind m k r <> OutOfFuel.
Proof.
  intros H1 H2. unfold bind. destruct (m r) as [[a r']| |];
    [exact (H2 a r' eq_refl)|discriminate|now contradiction H1].
Qed.

Lemma lift_nf {A} (x : res A) r : x <> OutOfFuel -> lift x r <> OutOfFuel.
Proof. intro H. destruct x; simpl; [discriminate|discriminate|now contradiction H]. Qed.

Lemma lift_Ok_inv {A} (x : res A) r a r' : lift x r = Ok (a, r') -> x = Ok a.
Proof. destruct x; simpl; intro H; try discriminate. now injection H as -> _. Qed.

Lemma ret_nf {A} (a : A) r : ret a r <> OutOfFuel.
Proof. discriminate. Qed.

Lemma add_ref_nf n r : add_ref n r <> OutOfFuel.
Proof. discriminate. Qed.

Lemma mapM_nf {A B} (f : A -> M B) l : forall r,
  (forall x, In x l -> forall r, f x r <> OutOfFuel) -> mapM f l r <> OutOfFuel.
Proof.
  induction l as [|x t IH]; intros r H; simpl; [discriminate|].
  apply bind_nf; [apply H; now left|intros y r' _].
  apply bind_nf; [apply IH; intros z Hz; apply H; now right|intros ys r'' _; discriminate].
Qed.

Ltac m_nf :=
  repeat first
    [ progress cbv beta
    | apply ret_nf
    | apply add_ref_nf
    | apply lift_nf; solve [auto with nofuel | res_nf]
    | apply bind_nf;
        [ | let a := fresh "a" in let r' := fresh "r" in let H := fresh "Hb" in
            intros a r' H; try apply lift_Ok_inv in H ]
    | match goal with
      | |- (if ?b then _ else _) _ <> _ => destruct b
      | |- (match ?x with _ => _ end) _ <> _ => destruct x
      end ].

Section NoFuel.

Variable conv : value -> M string.
Variable kvs : list (string * value).
Hypothesis conv_nf : forall c r, mu c < mu (VObj kvs) -> conv c r <> OutOfFuel.

Lemma handleArraySchema_nf r : handleArraySchema conv (VObj kvs) r <> OutOfFuel.
Proof.
  unfold handleArraySchema. m_nf. apply conv_nf.
  rewrite get_obj in Hb. injection Hb as <-. apply mu_lt_height, field_height.
Qed.

Lemma handleObjectSchema_nf r : handleObjectSchema conv (VObj kvs) r <> OutOfFuel.
Proof.
  unfold handleObjectSchema. m_nf.
  (* additionalProperties, whatever its shape *)
  all: try (apply conv_nf; rewrite get_obj in Hb2; injection Hb2 as Hap; rewrite <- Hap;
            apply mu_lt_height, field_height).
  (* the properties *)
  apply mapM_nf. intros kv Hkv r'. m_nf. apply conv_nf.
  rewrite get_obj in Hb. injection Hb as <-.
  unfold object_entries in Hb0. destruct (is_nullish _); [discriminate Hb0|].
  injection Hb0 as <-. apply mu_lt_height.
  assert (Hin : In (snd kv) (map snd (own_entries (field kvs "properties"))))
    by (now apply in_map).
  pose proof (own_entries_height _ _ Hin). pose proof (field_height kvs "properties"). lia.
Qed.

Lemma handleCombinators_nf r : handleCombinators conv (VObj kvs) r <> OutOfFuel.
Proof.
  unfold handleCombinators. m_nf.
  - apply mapM_nf. intros x Hx r'. apply conv_nf, mu_lt_height.
    rewrite get_obj in Hb. injection Hb as Ho. pose proof (field_height kvs "oneOf") as Hf.
    rewrite Ho in Hf. destruct a; try discriminate Hb0. injection Hb0 as <-.
    pose proof (vheight_arr_in _ _ Hx). lia.
  - apply mapM_nf. intros x Hx r'. apply conv_nf, mu_lt_height.
    rewrite get_obj in Hb0. injection Hb0 as Ho. pose proof (field_height kvs "anyOf") as Hf.
    rewrite Ho in Hf. destruct a0; try discriminate Hb1. injection Hb1 as <-.
    pose proof (vheight_arr_in _ _ Hx). lia.
  - apply conv_nf, mu_lt_height.
    rewrite get_obj in Hb1. injection Hb1 as Ho. pose proof (field_height kvs "allOf") as Hf.
    rewrite Ho in Hf. pose proof (mergeAllOfSchemas_height _ _ Hb2). lia.
Qed.

Lemma handleTypeUnion_nf l types r :
  field kvs "type" = VArr l -> incl types l ->
  handleTypeUnion conv types (VObj kvs) r <> OutOfFuel.
Proof.
  intros Hty Hincl. unfold handleTypeUnion. apply bind_nf.
  - apply mapM_nf. intros t Ht r'. apply conv_nf. exact (mu_with_type kvs l t Hty (Hincl t Ht)).
  - intros ss r' _. destruct ss as [|s0 [|s1 ss]]; discriminate.
Qed.

Lemma handleNullableType_nf r : handleNullableType conv (VObj kvs) r <> OutOfFuel.
Proof.
  unfold handleNullableType. rewrite get_obj, bind_lift_Ok.
  destruct (field kvs "type") as [| | | | |l|] eqn:Hty; try discriminate.
  cbn [array_receiver]. rewrite bind_lift_Ok.
  assert (Hincl : incl (filter (fun t => negb (is_str "null" t)) l) l).
  { intros t Ht. apply filter_In in Ht. exact (proj1 Ht). }
  destruct (existsb (is_str "null") l).
  - destruct (filter (fun t => negb (is_str "null" t)) l) as [|t [|t1 ts]] eqn:Hf.
    + discriminate.
    + apply bind_nf; [|intros; discriminate].
      apply conv_nf. apply (mu_with_type kvs l t Hty). apply Hincl. now left.
    + apply bind_nf; [|intros; discriminate]. exact (handleTypeUnion_nf l _ r Hty Hincl).
  - apply (handleTypeUnion_nf l l r Hty). intros t Ht; exact Ht.
Qed.

End NoFuel.

Lemma compile_arr n l r : convertJsonSchemaToZod (S n) (VArr l) r = Ok ("z.any()", r).
Proof. reflexivity. Qed.

Lemma compile_nf n : forall s r, mu s < n -> convertJsonSchemaToZod n s r <> OutOfFuel.
Proof.
  induction n as [|n IH]; intros s r Hs; [lia|].
  destruct s as [| | | | |l|kvs];
    [simpl; try rewrite orb_true_r; discriminate ..|rewrite compile_arr; discriminate|].
  assert (Hc : forall c r, mu c < mu (VObj kvs) -> convertJsonSchemaToZod n c r <> OutOfFuel)
    by (intros c r' Hlt; apply IH; lia).
  rewrite compile_obj. cbv zeta.
  destruct (truthy (field kvs "$ref")).
  - m_nf.
  - destruct (is_array (field kvs "type")); [exact (handleNullableType_nf _ _ Hc r)|].
    destruct (truthy (field kvs "oneOf") || truthy (field kvs "anyOf") || truthy (field kvs "allOf"));
      [exact (handleCombinators_nf _ _ Hc r)|].
    repeat match goal with |- (if ?b then _ else _) _ <> _ => destruct b end;
      try (apply lift_nf; auto with nofuel); try discriminate.
    + exact (handleArraySchema_nf _ _ Hc r).
    + exact (handleObjectSchema_nf _ _ Hc r).
Qed.

(** ** Well-formed schemas compile without raising *)

Lemma wf_schema_obj kvs :
  wf_schema (VObj kvs) = forallb (fun kv => entry_ok (fst kv) (snd kv)) kvs.
Proof. reflexivity. Qed.

Lemma entry_ok_undef k : entry_ok k VUndef = true.
Proof.
  unfold entry_ok, local_ok, child_ok.
  repeat (destruct (String.eqb _ _)); destruct (existsb (String.eqb k) interpolated_keys); reflexivity.
Qed.

Lemma entry_field kvs k :
  (forall k' x, In (k', x) kvs -> entry_ok k' x = true) -> entry_ok k (field kvs k) = true.
Proof.
  intro H. unfold field. destruct (obj_lookup kvs k) eqn:E; [|apply entry_ok_undef].
  apply H. now apply obj_lookup_In.
Qed.

Lemma wf_entries kvs :
  wf_schema (VObj kvs) = true -> forall k x, In (k, x) kvs -> entry_ok k x = true.
Proof.
  rewrite wf_schema_obj, forallb_forall. intros H k x Hin. exact (H (k, x) Hin).
Qed.

Lemma In_obj_set_key kvs k v k' x :
  In (k', x) (obj_set kvs k v) -> In (k', x) kvs \/ (k' = k /\ x = v).
Proof.
  unfold obj_set. destruct (obj_has kvs k).
  - induction kvs as [|[k0 v0] t IH]; simpl; [intros []|].
    destruct (String.eqb k k0); simpl.
    + intros [H|H]; [injection H as -> ->; now right|now left; right].
    + intros [H|H]; [now left; left|]. destruct (IH H) as [H'|H']; [now left; right|now right].
  - induction kvs as [|[k0 v0] t IH]; simpl.
    + intros [H|[]]. injection H as -> ->. now right.
    + assert (Hb : In (k', x) ((k0, v0) :: insert_new k v t) ->
                   In (k', x) ((k0, v0) :: t) \/ (k' = k /\ x = v)).
      { simpl. intros [H|H]; [now left; left|]. destruct (IH H) as [H'|H']; [now left; right|now right]. }
      assert (Hf : In (k', x) ((k, v) :: (k0, v0) :: t) -> In (k', x) ((k0, v0) :: t) \/ (k' = k /\ x = v)).
      { intros [H|H]; [injection H as -> ->; now right|now left]. }
      destruct (array_index k), (array_index k0); try destruct (N.ltb _ _); assumption.
Qed.

Lemma In_obj_spread_obj o b k x :
  In (k, x) (obj_spread o (VObj b)) -> In (k, x) o \/ In (k, x) b.
Proof.
  unfold obj_spread. simpl. revert o.
  induction b as [|[k0 v0] t IH]; intros o H; simpl in H; [now left|].
  destruct (IH _ H) as [H1|H1]; [|right; now right].
  destruct (In_obj_set_key _ _ _ _ _ H1) as [H2|[-> ->]]; [now left|right; now left].
Qed.

Lemma props_values_wf v :
  child_ok wf_schema "properties" v = true ->
  forall x, In x (map snd (own_entries v)) -> wf_schema x = true.
Proof.
  intros H x Hx. apply in_map_iff in Hx as [[k y] [Hy Hx]]. simpl in Hy. subst y.
  destruct v as [| | | |s|l|pk]; simpl in Hx; try destruct Hx.
  - apply In_indexed in Hx. apply chars_height in Hx. destruct x; try reflexivity; discriminate.
  - apply In_indexed in Hx. unfold child_ok in H. simpl in H. rewrite forallb_forall in H. now apply H.
  - unfold child_ok in H. simpl in H. rewrite forallb_forall in H. exact (H (k, x) Hx).
Qed.

Lemma merge_step_wf acc bk :
  (forall k x, In (k, x) acc -> entry_ok k x = true) -> wf_schema (VObj bk) = true ->
  exists m, merge_step (VObj acc) (VObj bk) = Ok (VObj m) /\
            forall k x, In (k, x) m -> entry_ok k x = true.
Proof.
  intros Hacc Hb. pose proof (wf_entries _ Hb) as Hbk.
  unfold merge_step. rewrite !get_obj. cbn [res_bind].
  set (R := obj_spread (obj_spread [] (VObj acc)) (VObj bk)).
  assert (HR : forall k x, In (k, x) R -> entry_ok k x = true).
  { intros k x Hx. destruct (In_obj_spread_obj _ _ _ _ Hx) as [H1|H1]; [|exact (Hbk _ _ H1)].
    destruct (In_obj_spread_obj _ _ _ _ H1) as [[]|H2]. exact (Hacc _ _ H2). }
  match goal with
  | |- exists m, res_bind ?e _ = _ /\ _ =>
      assert (HP : exists r1, e = Ok r1 /\ forall k x, In (k, x) r1 -> entry_ok k x = true)
  end.
  { destruct (truthy (field acc "properties")); [|exists R; now split].
    destruct (truthy (field bk "properties")); [|exists R; now split].
    eexists; split; [reflexivity|]. intros k x Hx.
    destruct (In_obj_set_key _ _ _ _ _ Hx) as [H1|[-> ->]]; [exact (HR _ _ H1)|].
    unfold entry_ok. simpl. apply forallb_forall. intros [k' y] Hy. simpl.
    assert (Hy' : In y (map snd (obj_spread (obj_spread [] (field acc "properties")) (field bk "properties"))))
      by (apply in_map_iff; now exists (k', y)).
    pose proof (entry_field acc "properties" Hacc) as Ha.
    pose proof (entry_field bk "properties" Hbk) as Hb'.
    unfold entry_ok in Ha, Hb'. apply andb_true_iff in Ha as [_ Ha]. apply andb_true_iff in Hb' as [_ Hb'].
    destruct (In_obj_spread _ _ _ Hy') as [H1|H1].
    - destruct (In_obj_spread _ _ _ H1) as [[]|H2]. exact (props_values_wf _ Ha y H2).
    - exact (props_values_wf _ Hb' y H1). }
  destruct HP as [r1 [-> Hr1]]. cbn [res_bind].
  pose proof (entry_field acc "required" Hacc) as Ha.
  pose proof (entry_field bk "required" Hbk) as Hb'.
  destruct (truthy (field acc "required")) eqn:Ta; [|exists r1; now split].
  destruct (truthy (field bk "required")) eqn:Tb; [|exists r1; now split].
  assert (Hit : forall v, entry_ok "required" v = true -> truthy v = true ->
                          exists l, iterate v = Ok l).
  { intros v Hv Tv. unfold entry_ok, local_ok in Hv. simpl in Hv.
    destruct v; try discriminate Hv; try discriminate Tv; eexists; reflexivity. }
  destruct (Hit _ Ha Ta) as [la ->]. destruct (Hit _ Hb' Tb) as [lb ->]. cbn [res_bind].
  eexists; split; [reflexivity|]. intros k x Hx.
  destruct (In_obj_set_key _ _ _ _ _ Hx) as [H1|[-> ->]]; [exact (Hr1 _ _ H1)|reflexivity].
Qed.

Lemma merge_fold_wf l : forall acc,
  (forall k x, In (k, x) acc -> entry_ok k x = true) ->
  (forall b, In b l -> is_obj b && wf_schema b = true) ->
  exists m, fold_res merge_step (VObj acc) l = Ok (VObj m) /\
            forall k x, In (k, x) m -> entry_ok k x = true.
Proof.
  induction l as [|b t IH]; intros acc Hacc Hl; [exists acc; now split|].
  pose proof (Hl b (or_introl eq_refl)) as Hb. apply andb_true_iff in Hb as [Ho Hw].
  destruct b as [| | | | | |bk]; try discriminate Ho.
  destruct (merge_step_wf acc bk Hacc Hw) as [m [Hm Hm']].
  cbn [fold_res]. rewrite Hm. cbn [res_bind].
  apply IH; [exact Hm'|intros b' Hb'; apply Hl; now right].
Qed.

Lemma wf_of_entries m :
  (forall k x, In (k, x) m -> entry_ok k x = true) -> wf_schema (VObj m) = true.
Proof.
  intro H. rewrite wf_schema_obj, forallb_forall. intros [k x] Hx. exact (H k x Hx).
Qed.

Lemma arr_of_local k x :
  local_ok k x = true -> truthy x = true ->
  (String.eqb k "enum" || String.eqb k "oneOf" || String.eqb k "anyOf" || String.eqb k "allOf") = true ->
  exists l, x = VArr l.
Proof.
  unfold local_ok. intros H T K.
  destruct (String.eqb k "$ref") eqn:E1.
  - apply String.eqb_eq in E1. subst k. discriminate K.
  - destruct (String.eqb k "enum"); simpl in K.
    + rewrite T in H. destruct x; try discriminate H. eauto.
    + rewrite K, T in H. destruct x; try discriminate H. eauto.
Qed.

Lemma str_of_local x : local_ok "$ref" x = true -> truthy x = true -> exists s, x = VStr s.
Proof.
  unfold local_ok. simpl. intros H T. rewrite T in H. destruct x; try discriminate H. eauto.
Qed.

Lemma mergeAllOfSchemas_wf v :
  entry_ok "allOf" v = true -> truthy v = true ->
  exists m, mergeAllOfSchemas v = Ok (VObj m) /\ wf_schema (VObj m) = true.
Proof.
  intros H T. unfold entry_ok in H. apply andb_true_iff in H as [Hl Hc].
  destruct (arr_of_local _ _ Hl T eq_refl) as [l ->].
  unfold child_ok in Hc. simpl in Hc. rewrite forallb_forall in Hc.
  destruct (merge_fold_wf l [] (fun k x (H : In (k, x) []) => match H with end) Hc)
    as [m [Hm Hm']].
  exists m. split; [exact Hm|exact (wf_of_entries _ Hm')].
Qed.

Lemma with_type_wf kvs t :
  wf_schema (VObj kvs) = true -> wf_schema (with_type (VObj kvs) t) = true.
Proof.
  intro H. unfold with_type. apply wf_of_entries. intros k x Hx.
  destruct (In_obj_set_key _ _ _ _ _ Hx) as [H1|[-> ->]]; [|reflexivity].
  destruct (In_obj_spread_obj _ _ _ _ H1) as [[]|H2]. exact (wf_entries _ H _ _ H2).
Qed.

Lemma bind_ok {A B} (m : M A) (k : A -> M B) r :
  (exists a r', m r = Ok (a, r')) ->
  (forall a r', m r = Ok (a, r') -> exists b r'', k a r' = Ok (b, r'')) ->
  exists b r'', bind m k r = Ok (b, r'').
Proof.
  intros [a [r' H1]] H2. unfold bind. rewrite H1. exact (H2 a r' H1).
Qed.

Lemma lift_ok {A} (x : res A) r : (exists a, x = Ok a) -> exists a r', lift x r = Ok (a, r').
Proof. intros [a ->]. now exists a, r. Qed.

Lemma mapM_ok {A B} (f : A -> M B) l : forall r,
  (forall x, In x l -> forall r, exists b r', f x r = Ok (b, r')) ->
  exists bs r', mapM f l r = Ok (bs, r').
Proof.
  induction l as [|x t IH]; intros r H; simpl; [now exists [], r|].
  apply bind_ok; [apply H; now left|intros y r' _].
  apply bind_ok; [apply IH; intros z Hz; apply H; now right|intros ys r'' _].
  now exists (y :: ys), r''.
Qed.

Ltac m_ok :=
  repeat first
    [ progress cbv beta
    | solve [do 2 eexists; reflexivity]
    | apply lift_ok; solve [eexists; reflexivity]
    | apply bind_ok;
        [ | let a := fresh "a" in let r' := fresh "r" in let H := fresh "Hb" in
            intros a r' H; try apply lift_Ok_inv in H ]
    | match goal with
      | |- exists _ _, (if ?b then _ else _) _ = _ => destruct b eqn:?
      | |- exists _ _, (match ?x with _ => _ end) _ = _ => destruct x eqn:?
      end ].

Lemma printable_ok v : printable v = true -> exists s, js_to_string v = Ok s.
Proof. unfold printable. destruct (js_to_string v); try discriminate; eauto. Qed.

Lemma local_interp k x :
  local_ok k x = true -> In k interpolated_keys -> exists s, js_to_string x = Ok s.
Proof.
  intros H Hin. apply printable_ok.
  simpl in Hin. repeat destruct Hin as [<-|Hin]; [exact H ..|destruct Hin].
Qed.

Lemma js_to_string_arr_cons a t s :
  js_to_string (VArr (a :: t)) = Ok s ->
  (exists u, js_to_string a = Ok u) /\ exists s', js_to_string (VArr t) = Ok s'.
Proof.
  intro H. cbn [js_to_string] in H |- *.
  assert (Ha : exists u, js_to_string a = Ok u).
  { destruct a; try (eexists; reflexivity);
      destruct (js_to_string _) eqn:E; cbn [res_bind] in H; try discriminate H; eauto. }
  split; [exact Ha|]. destruct Ha as [u Hu].
  replace (match a with VUndef | VNull => Ok "" | _ => js_to_string a end)
    with (Ok (match a with VUndef | VNull => "" | _ => u end)) in H
    by (destruct a; try rewrite <- Hu; reflexivity).
  cbn [res_bind] in H.
  match type of H with res_bind (res_bind ?x _) _ = _ =>
    destruct x eqn:E; cbn [res_bind] in H; try discriminate H end.
  eexists; reflexivity.
Qed.

Lemma js_to_string_arr_in l s :
  js_to_string (VArr l) = Ok s -> forall x, In x l -> exists t, js_to_string x = Ok t.
Proof.
  revert s. induction l as [|a t IH]; intros s H x Hx; [destruct Hx|].
  destruct (js_to_string_arr_cons _ _ _ H) as [Ha [s' Ht]].
  destruct Hx as [<-|Hx]; [exact Ha|exact (IH _ Ht x Hx)].
Qed.

Lemma map_res_ok {A B} (f : A -> res B) l :
  (forall x, In x l -> exists y, f x = Ok y) -> exists ys, map_res f l = Ok ys.
Proof.
  induction l as [|x t IH]; intro H; simpl; [eauto|].
  destruct (H x (or_introl eq_refl)) as [y ->]. cbn [res_bind].
  destruct IH as [ys ->]; [intros z Hz; apply H; now right|]. eexists; reflexivity.
Qed.

Lemma enum_elements_ok kvs :
  local_ok "enum" (field kvs "enum") = true -> truthy (field kvs "enum") = true ->
  exists l, field kvs "enum" = VArr l /\ forall x, In x l -> exists t, js_to_string x = Ok t.
Proof.
  intros H T. unfold local_ok in H. simpl in H. rewrite T in H. simpl in H.
  destruct (field kvs "enum") as [| | | | |l|]; try discriminate H.
  exists l. split; [reflexivity|]. simpl in H.
  destruct (printable_ok _ H) as [s Hs]. exact (js_to_string_arr_in _ _ Hs).
Qed.

Lemma handleStringSchema_ok kvs :
  (forall k, local_ok k (field kvs k) = true) -> exists s, handleStringSchema (VObj kvs) = Ok s.
Proof.
  intro H. unfold handleStringSchema. rewrite !get_obj. cbn [res_bind].
  destruct (truthy (field kvs "enum")) eqn:T.
  - destruct (enum_elements_ok kvs (H "enum") T) as [l [-> Hl]]. cbn [array_receiver res_bind].
    destruct (map_res_ok (fun v => sv <-? js_to_string v ;; Ok (quote sv)) l) as [ys ->].
    + intros x Hx. destruct (Hl x Hx) as [t ->]. eexists; reflexivity.
    + eexists; reflexivity.
  - destruct (local_interp _ _ (H "pattern") ltac:(simpl; tauto)) as [ps ->].
    destruct (local_interp _ _ (H "minLength") ltac:(simpl; tauto)) as [sn ->].
    destruct (local_interp _ _ (H "maxLength") ltac:(simpl; tauto)) as [sx ->].
    destruct (truthy (field kvs "pattern")), (is_undefined (field kvs "minLength")),
      (is_undefined (field kvs "maxLength")); eexists; reflexivity.
Qed.

Lemma number_checks_ok kvs :
  (forall k, local_ok k (field kvs k) = true) -> exists s, number_checks (VObj kvs) = Ok s.
Proof.
  intro H. unfold number_checks. rewrite !get_obj. cbn [res_bind].
  destruct (local_interp _ _ (H "minimum") ltac:(simpl; tauto)) as [sn ->].
  destruct (local_interp _ _ (H "maximum") ltac:(simpl; tauto)) as [sx ->].
  destruct (local_interp _ _ (H "multipleOf") ltac:(simpl; tauto)) as [sm ->].
  destruct (is_undefined (field kvs "minimum")), (is_undefined (field kvs "maximum")),
    (is_undefined (field kvs "multipleOf")); eexists; reflexivity.
Qed.

Lemma handleNumberSchema_ok kvs :
  (forall k, local_ok k (field kvs k) = true) -> exists s, handleNumberSchema (VObj kvs) = Ok s.
Proof.
  intro H. unfold handleNumberSchema. rewrite get_obj. cbn [res_bind].
  destruct (truthy (field kvs "enum")) eqn:T; [|exact (number_checks_ok kvs H)].
  destruct (enum_elements_ok kvs (H "enum") T) as [l [-> _]]. cbn [array_receiver res_bind].
  destruct (filter is_number l) as [|x t] eqn:F; [exact (number_checks_ok kvs H)|].
  destruct (map_res_ok js_to_string (x :: t)) as [ys ->].
  - intros y Hy. rewrite <- F in Hy. apply filter_In in Hy as [_ Hy].
    destruct y; try discriminate Hy. eexists; reflexivity.
  - eexists; reflexivity.
Qed.

Lemma required_includes_ok kvs key :
  local_ok "required" (field kvs "required") = true ->
  exists b, required_includes (VObj kvs) key = Ok b.
Proof.
  intro H. unfold required_includes. rewrite get_obj. cbn [res_bind].
  unfold local_ok in H. simpl in H.
  destruct (field kvs "required"); try discriminate H; eexists; reflexivity.
Qed.

Section WellFormed.

Variable conv : value -> M string.
Variable kvs : list (string * value).
Hypothesis Hwf : wf_schema (VObj kvs) = true.
Hypothesis conv_ok : forall c r, wf_schema c = true -> mu c < mu (VObj kvs) ->
  exists s r', conv c r = Ok (s, r').

Lemma field_local k : local_ok k (field kvs k) = true.
Proof.
  pose proof (entry_field kvs k (wf_entries kvs Hwf)) as H.
  unfold entry_ok in H. now apply andb_true_iff in H as [H _].
Qed.

Lemma field_child k : child_ok wf_schema k (field kvs k) = true.
Proof.
  pose proof (entry_field kvs k (wf_entries kvs Hwf)) as H.
  unfold entry_ok in H. now apply andb_true_iff in H as [_ H].
Qed.

Lemma handleArraySchema_ok r : exists s r', handleArraySchema conv (VObj kvs) r = Ok (s, r').
Proof.
  unfold handleArraySchema. m_ok.
  all: repeat match goal with H : get (VObj kvs) _ = Ok _ |- _ =>
                rewrite get_obj in H; injection H as <- end.
  1: apply conv_ok; [exact (field_child "items")|apply mu_lt_height, field_height].
  all: apply lift_ok.
  all: try destruct (local_interp _ _ (field_local "minItems") ltac:(simpl; tauto)) as [sn ->].
  all: try destruct (local_interp _ _ (field_local "maxItems") ltac:(simpl; tauto)) as [sx ->].
  all: try destruct (is_undefined (field kvs "minItems")); try destruct (is_undefined (field kvs "maxItems"));
    eexists; reflexivity.
Qed.

Lemma handleObjectSchema_ok r : exists s r', handleObjectSchema conv (VObj kvs) r = Ok (s, r').
Proof.
  unfold handleObjectSchema. m_ok.
  all: rewrite get_obj in Hb; injection Hb as <-.
  (* additionalProperties, whatever its shape *)
  all: try solve [rewrite get_obj in Hb2; injection Hb2 as Hap; rewrite <- Hap; apply conv_ok;
                  [exact (field_child "additionalProperties")|apply mu_lt_height, field_height]].
  - apply lift_ok. unfold object_entries.
    destruct (field kvs "properties"); try discriminate Heqb; eexists; reflexivity.
  - unfold object_entries in Hb0. destruct (is_nullish _); [discriminate Hb0|].
    injection Hb0 as <-. apply mapM_ok. intros kv Hkv r'. m_ok.
    + apply conv_ok.
      * apply (props_values_wf _ (field_child "properties")). now apply in_map.
      * apply mu_lt_height.
        assert (Hin : In (snd kv) (map snd (own_entries (field kvs "properties"))))
          by (now apply in_map).
        pose proof (own_entries_height _ _ Hin). pose proof (field_height kvs "properties"). lia.
    + apply lift_ok, required_includes_ok, field_local.
Qed.

Lemma arr_field_ok k l :
  (String.eqb k "oneOf" || String.eqb k "anyOf") = true -> field kvs k = VArr l ->
  forall x, In x l -> wf_schema x = true /\ mu x < mu (VObj kvs).
Proof.
  intros K Hl x Hx. split.
  - pose proof (field_child k) as H. rewrite Hl in H.
    apply orb_true_iff in K as [K|K]; apply String.eqb_eq in K; subst k;
      unfold child_ok in H; simpl in H; rewrite forallb_forall in H; exact (H x Hx).
  - apply mu_lt_height. pose proof (field_height kvs k) as Hf. rewrite Hl in Hf.
    pose proof (vheight_arr_in _ _ Hx). lia.
Qed.

Lemma handleCombinators_ok r : exists s r', handleCombinators conv (VObj kvs) r = Ok (s, r').
Proof.
  unfold handleCombinators. m_ok.
  all: repeat match goal with H : get (VObj kvs) _ = Ok _ |- _ =>
                rewrite get_obj in H; injection H as <- end.
  - destruct (arr_of_local _ _ (field_local "oneOf") Heqb eq_refl) as [l ->].
    apply lift_ok. eexists; reflexivity.
  - destruct (arr_of_local _ _ (field_local "oneOf") Heqb eq_refl) as [l Hl].
    rewrite Hl in Hb0. injection Hb0 as <-. apply mapM_ok. intros x Hx r'.
    destruct (arr_field_ok "oneOf" l eq_refl Hl x Hx). now apply conv_ok.
  - destruct (arr_of_local _ _ (field_local "anyOf") Heqb0 eq_refl) as [l ->].
    apply lift_ok. eexists; reflexivity.
  - destruct (arr_of_local _ _ (field_local "anyOf") Heqb0 eq_refl) as [l Hl].
    rewrite Hl in Hb1. injection Hb1 as <-. apply mapM_ok. intros x Hx r'.
    destruct (arr_field_ok "anyOf" l eq_refl Hl x Hx). now apply conv_ok.
  - destruct (mergeAllOfSchemas_wf _ (entry_field kvs "allOf" (wf_entries kvs Hwf)) Heqb1)
      as [m [Hm _]].
    apply lift_ok. now exists (VObj m).
  - destruct (mergeAllOfSchemas_wf _ (entry_field kvs "allOf" (wf_entries kvs Hwf)) Heqb1)
      as [m [Hm Hw]].
    pose proof (mergeAllOfSchemas_height _ _ Hb2) as Hh.
    rewrite Hm in Hb2. injection Hb2 as <-. apply conv_ok; [exact Hw|].
    apply mu_lt_height. pose proof (field_height kvs "allOf"). lia.
Qed.

Lemma handleTypeUnion_ok l types r :
  field kvs "type" = VArr l -> incl types l ->
  exists s r', handleTypeUnion conv types (VObj kvs) r = Ok (s, r').
Proof.
  intros Hty Hincl. unfold handleTypeUnion. apply bind_ok.
  - apply mapM_ok. intros t Ht r'. apply conv_ok.
    + exact (with_type_wf kvs t Hwf).
    + exact (mu_with_type kvs l t Hty (Hincl t Ht)).
  - intros ss r' _. destruct ss as [|s0 [|s1 ss]]; do 2 eexists; reflexivity.
Qed.

Lemma handleNullableType_ok r :
  is_array (field kvs "type") = true ->
  exists s r', handleNullableType conv (VObj kvs) r = Ok (s, r').
Proof.
  intro Ha. unfold handleNullableType. rewrite get_obj, bind_lift_Ok.
  destruct (field kvs "type") as [| | | | |l|] eqn:Hty; try discriminate Ha.
  cbn [array_receiver]. rewrite bind_lift_Ok.
  assert (Hincl : incl (filter (fun t => negb (is_str "null" t)) l) l).
  { intros t Ht. apply filter_In in Ht. exact (proj1 Ht). }
  destruct (existsb (is_str "null") l).
  - destruct (filter (fun t => negb (is_str "null" t)) l) as [|t [|t1 ts]] eqn:Hf.
    + do 2 eexists; reflexivity.
    + apply bind_ok; [|intros; do 2 eexists; reflexivity].
      apply conv_ok; [exact (with_type_wf kvs t Hwf)|].
      apply (mu_with_type kvs l t Hty). apply Hincl. now left.
    + apply bind_ok; [|intros; do 2 eexists; reflexivity]. exact (handleTypeUnion_ok l _ r Hty Hincl).
  - apply (handleTypeUnion_ok l l r Hty). intros t Ht; exact Ht.
Qed.

End WellFormed.

Lemma compile_ok n : forall s r, wf_schema s = true -> mu s < n ->
  exists out r', convertJsonSchemaToZod n s r = Ok (out, r').
Proof.
  induction n as [|n IH]; intros s r Hw Hs; [lia|].
  destruct s as [| | | | |l|kvs];
    [simpl; try rewrite orb_true_r; do 2 eexists; reflexivity ..
    |rewrite compile_arr; do 2 eexists; reflexivity|].
  assert (Hc : forall c r, wf_schema c = true -> mu c < mu (VObj kvs) ->
                 exists out r', convertJsonSchemaToZod n c r = Ok (out, r'))
    by (intros c r' Hwc Hlt; apply IH; [exact Hwc|lia]).
  rewrite compile_obj. cbv zeta.
  destruct (truthy (field kvs "$ref")) eqn:Tr.
  - destruct (str_of_local _ (field_local kvs Hw "$ref") Tr) as [str ->]. m_ok.
  - destruct (is_array (field kvs "type")) eqn:Ta;
      [exact (handleNullableType_ok _ _ Hw Hc r Ta)|].
    destruct (truthy (field kvs "oneOf") || truthy (field kvs "anyOf") || truthy (field kvs "allOf"));
      [exact (handleCombinators_ok _ _ Hw Hc r)|].
    repeat match goal with |- exists _ _, (if ?b then _ else _) _ = _ => destruct b end;
      try (do 2 eexists; reflexivity).
    + apply lift_ok, handleStringSchema_ok, (field_local kvs Hw).
    + apply lift_ok, handleNumberSchema_ok, (field_local kvs Hw).
    + exact (handleArraySchema_ok _ _ Hw Hc r).
    + exact (handleObjectSchema_ok _ _ Hw Hc r).
Qed.

(** ** Claim C2: failure semantics *)

(** C2, as the spec words it, fails on its own examples: a non-string [$ref]
    and a non-array [enum] under [type: string] raise a TypeError. *)
Lemma C2_counterexample :
  convertJsonSchemaToZod 10 ref_number None = Throw "TypeError" /\
  convertJsonSchemaToZod 10 enum_string None = Throw "TypeError".
Proof. split; reflexivity. Qed.

(** C2 (amended): compile terminates on every input: with fuel above the
    measure [mu] of the input it never runs out, so the recursion of the
    source returns a string or raises. Non-object inputs (null, undefined,
    booleans, numbers, strings) and arrays give [z.any()]; so does an object
    node with a falsy [$ref], a [type] that is no array, falsy [oneOf],
    [anyOf] and [allOf], and a [type] that is none of the six recognised
    names. Malformed shapes are not all degraded: any truthy non-string
    [$ref], a non-array [enum] under [type: string], a non-array [oneOf] and
    a numeric [required] on an object with properties raise a TypeError; so
    does a [minimum], or an [enum] element, that [String] cannot convert (an
    object with its own [toString] key, which parsed JSON never makes
    callable); and an empty [type] array gives [z.union([])]. What rules the
    TypeErrors out is [wf_schema]: on a well-formed schema (a truthy [$ref]
    is a string, a truthy [enum] an array whose elements [String] converts,
    [oneOf], [anyOf], [allOf] arrays, [required] an array, a string or
    absent, and the interpolated fields [pattern], [minLength],
    [maxLength], [minimum], [maximum], [multipleOf], [minItems], [maxItems]
    convertible by [String], at every node) compile returns a string; the
    raising examples above are not well-formed, a nested object schema is. *)
Theorem C2_terminates_not_total :
  (forall s r n, mu s < n -> convertJsonSchemaToZod n s r <> OutOfFuel) /\
  (forall s r n, wf_schema s = true -> mu s < n ->
     exists out r', convertJsonSchemaToZod n s r = Ok (out, r')) /\
  (forall n s r, match s with VObj _ => False | _ => True end ->
     convertJsonSchemaToZod (S n) s r = Ok ("z.any()", r)) /\
  (forall n kvs r,
     truthy (field kvs "$ref") = false ->
     is_array (field kvs "type") = false ->
     truthy (field kvs "oneOf") = false ->
     truthy (field kvs "anyOf") = false ->
     truthy (field kvs "allOf") = false ->
     forallb (fun t => negb (is_str t (field kvs "type")))
       ["string"; "number"; "integer"; "boolean"; "array"; "object"] = true ->
     convertJsonSchemaToZod (S n) (VObj kvs) r = Ok ("z.any()", r)) /\
  (forall n kvs r,
     truthy (field kvs "$ref") = true -> is_vstr (field kvs "$ref") = false ->
     convertJsonSchemaToZod (S n) (VObj kvs) r = Throw "TypeError") /\
  (forall n r,
     convertJsonSchemaToZod (S (S n)) ref_number r = Throw "TypeError" /\
     convertJsonSchemaToZod (S (S n)) enum_string r = Throw "TypeError" /\
     convertJsonSchemaToZod (S (S n)) oneOf_string r = Throw "TypeError" /\
     convertJsonSchemaToZod (S (S n)) required_number r = Throw "TypeError" /\
     convertJsonSchemaToZod (S n) minimum_toString r = Throw "TypeError" /\
     convertJsonSchemaToZod (S n) enum_toString r = Throw "TypeError" /\
     convertJsonSchemaToZod (S n) empty_type_array r = Ok ("z.union([])", r) /\
     wf_schema ref_number = false /\ wf_schema enum_string = false /\
     wf_schema oneOf_string = false /\ wf_schema required_number = false /\
     wf_schema minimum_toString = false /\ wf_schema enum_toString = false /\
     wf_schema allOf_typed = true).
Proof.
  split; [intros s r n; exact (compile_nf n s r)|].
  split; [intros s r n; exact (compile_ok n s r)|]. split; [|split].
  - intros n s r Hs. destruct s as [| | | | |l|kvs]; try contradiction;
      [simpl; try rewrite orb_true_r; reflexivity ..|apply compile_arr].
  - intros n kvs r Href Hty Hone Hany Hall Hnames.
    rewrite compile_obj. cbv zeta. rewrite Href, Hty, Hone, Hany, Hall. cbn [orb].
    simpl in Hnames.
    destruct (is_str "string" (field kvs "type")), (is_str "number" (field kvs "type")),
      (is_str "integer" (field kvs "type")), (is_str "boolean" (field kvs "type")),
      (is_str "array" (field kvs "type")), (is_str "object" (field kvs "type"));
      try discriminate Hnames; reflexivity.
  - split; [exact compile_ref_not_string|].
    intros n r. repeat split; reflexivity.
Qed.

(** * Further properties of the compiler and the generator *)

(** ** The reference set never steers the compiler *)

Lemma ret_obl {A} (a : A) : oblivious (ret a).
Proof. intros r1 r2. reflexivity. Qed.

Lemma lift_obl {A} (m : res A) : oblivious (lift m).
Proof. intros r1 r2. destruct m; reflexivity. Qed.

Lemma add_ref_obl name : oblivious (add_ref name).
Proof. intros r1 r2. reflexivity. Qed.

Lemma bind_obl {A B} (m : M A) (k : A -> M B) :
  oblivious m -> (forall a, oblivious (k a)) -> oblivious (bind m k).
Proof.
  intros Hm Hk r1 r2. specialize (Hm r1 r2). unfold bind.
  destruct (m r1) as [[a1 r1']| e1 |], (m r2) as [[a2 r2']| e2 |];
    simpl in Hm; try discriminate Hm; try reflexivity.
  - injection Hm as <-. apply Hk.
  - injection Hm as <-. reflexivity.
Qed.

Lemma mapM_obl {A B} (f : A -> M B) l :
  (forall x, In x l -> oblivious (f x)) -> oblivious (mapM f l).
Proof.
  induction l as [|x t IH]; intro H; simpl; [apply ret_obl|].
  apply bind_obl; [apply H; now left|intro y].
  apply bind_obl; [apply IH; intros z Hz; apply H; now right|intro ys; apply ret_obl].
Qed.

Ltac obl_step :=
  match goal with
  | |- oblivious (bind _ _) => apply bind_obl; [|intro]
  | |- oblivious (ret _) => apply ret_obl
  | |- oblivious (lift _) => apply lift_obl
  | |- oblivious (add_ref _) => apply add_ref_obl
  | |- oblivious (mapM _ _) => apply mapM_obl; intros ? ?
  | |- oblivious (if ?b then _ else _) => destruct b
  | |- oblivious (match ?x with _ => _ end) => destruct x
  end.

Section HandlersOblivious.

Variable conv : value -> M string.
Hypothesis conv_obl : forall v, oblivious (conv v).

Lemma handleTypeUnion_obl types base : oblivious (handleTypeUnion conv types base).
Proof. unfold handleTypeUnion. repeat (obl_step || apply conv_obl). Qed.

Lemma handleNullableType_obl schema : oblivious (handleNullableType conv schema).
Proof.
  unfold handleNullableType. repeat (obl_step || apply conv_obl || apply handleTypeUnion_obl).
Qed.

Lemma handleCombinators_obl schema : oblivious (handleCombinators conv schema).
Proof. unfold handleCombinators. repeat (obl_step || apply conv_obl). Qed.

Lemma handleArraySchema_obl schema : oblivious (handleArraySchema conv schema).
Proof. unfold handleArraySchema. repeat (obl_step || apply conv_obl). Qed.

Lemma handleObjectSchema_obl schema : oblivious (handleObjectSchema conv schema).
Proof. unfold handleObjectSchema. repeat (obl_step || apply conv_obl). Qed.

End HandlersOblivious.

Lemma convertJsonSchemaToZod_obl fuel v : oblivious (convertJsonSchemaToZod fuel v).
Proof.
  revert v; induction fuel as [|n IH]; intro v; [intros r1 r2; reflexivity|].
  cbn [convertJsonSchemaToZod].
  destruct (negb (truthy v) || negb (typeof_object v)); [apply ret_obl|].
  repeat (obl_step || apply handleNullableType_obl || apply handleCombinators_obl
          || apply handleArraySchema_obl || apply handleObjectSchema_obl || apply IH).
Qed.

(** Compiling a schema gives the same expression, or raises the same way,
    whichever reference set is passed, and whether one is passed at all:
    the set is written by [$ref] nodes and never read. *)
Theorem compile_refs_oblivious fuel s r1 r2 :
  res_fst (convertJsonSchemaToZod fuel s r1) = res_fst (convertJsonSchemaToZod fuel s r2).
Proof. revert r1 r2. apply convertJsonSchemaToZod_obl. Qed.

(** ** The reference set grows by appending *)

Lemma refs_extend_trans r1 r2 r3 :
  refs_extend r1 r2 -> refs_extend r2 r3 -> refs_extend r1 r3.
Proof.
  destruct r1 as [l1|], r2 as [l2|], r3 as [l3|]; simpl; try tauto.
  intros [e1 [-> H1]] [e2 [-> H2]]. exists (e1 ++ e2)%list. split.
  - now rewrite app_assoc.
  - intro Hnd. apply H2, H1, Hnd.
Qed.

Lemma ret_app {A} (a : A) : appends (ret a).
Proof.
  intros r b r' H. injection H as _ <-. destruct r as [l|]; simpl; [|exact I].
  exists []. now rewrite app_nil_r.
Qed.

Lemma lift_app {A} (m : res A) : appends (lift m).
Proof.
  intros r b r' H. destruct m; simpl in H; try discriminate. injection H as _ <-.
  destruct r as [l|]; simpl; [|exact I]. exists []. now rewrite app_nil_r.
Qed.

Lemma bind_app {A B} (m : M A) (k : A -> M B) :
  appends m -> (forall a, appends (k a)) -> appends (bind m k).
Proof.
  intros Hm Hk r b r' H. unfold bind in H.
  destruct (m r) as [[a r1]| |] eqn:E; try discriminate.
  exact (refs_extend_trans _ _ _ (Hm _ _ _ E) (Hk _ _ _ _ H)).
Qed.

Lemma add_ref_app name : appends (add_ref name).
Proof.
  intros r b r' H. injection H as _ <-. destruct r as [l|]; simpl; [|exact I].
  pose proof (set_add_NoDup name l) as Hnd.
  unfold set_add in *. destruct (existsb (String.eqb name) l).
  - exists []. split; [now rewrite app_nil_r|tauto].
  - exists [name]. split; [reflexivity|exact Hnd].
Qed.

Lemma mapM_app {A B} (f : A -> M B) l :
  (forall x, In x l -> appends (f x)) -> appends (mapM f l).
Proof.
  induction l as [|x t IH]; intro H; simpl; [apply ret_app|].
  apply bind_app; [apply H; now left|intro y].
  apply bind_app; [apply IH; intros z Hz; apply H; now right|intro ys; apply ret_app].
Qed.

Ltac app_step :=
  match goal with
  | |- appends (bind _ _) => apply bind_app; [|intro]
  | |- appends (ret _) => apply ret_app
  | |- appends (lift _) => apply lift_app
  | |- appends (add_ref _) => apply add_ref_app
  | |- appends (mapM _ _) => apply mapM_app; intros ? ?
  | |- appends (if ?b then _ else _) => destruct b
  | |- appends (match ?x with _ => _ end) => destruct x
  end.

Section HandlersAppend.

Variable conv : value -> M string.
Hypothesis conv_app : forall v, appends (conv v).

Lemma handleTypeUnion_app types base : appends (handleTypeUnion conv types base).
Proof. unfold handleTypeUnion. repeat (app_step || apply conv_app). Qed.

Lemma handleNullableType_app schema : appends (handleNullableType conv schema).
Proof.
  unfold handleNullableType. repeat (app_step || apply conv_app || apply handleTypeUnion_app).
Qed.

Lemma handleCombinators_app schema : appends (handleCombinators conv schema).
Proof. unfold handleCombinators. repeat (app_step || apply conv_app). Qed.

Lemma handleArraySchema_app schema : appends (handleArraySchema conv schema).
Proof. unfold handleArraySchema. repeat (app_step || apply conv_app). Qed.

Lemma handleObjectSchema_app schema : appends (handleObjectSchema conv schema).
Proof. unfold handleObjectSchema. repeat (app_step || apply conv_app). Qed.

End HandlersAppend.

Lemma convertJsonSchemaToZod_app fuel v : appends (convertJsonSchemaToZod fuel v).
Proof.
  revert v; induction fuel as [|n IH]; intro v.
  - intros r a r' H. discriminate.
  - cbn [convertJsonSchemaToZod].
    destruct (negb (truthy v) || negb (typeof_object v)); [apply ret_app|].
    repeat (app_step || apply handleNullableType_app || apply handleCombinators_app
            || apply handleArraySchema_app || apply handleObjectSchema_app || apply IH).
Qed.

(** A compilation that returns leaves the reference set it was given in
    place and only appends names to it, keeping it free of duplicates; with
    no set given, none is created. *)
Theorem compile_refs_append fuel s r out r' :
  convertJsonSchemaToZod fuel s r = Ok (out, r') -> refs_extend r r'.
Proof. apply convertJsonSchemaToZod_app. Qed.

Lemma compile_refs_append_witness :
  convertJsonSchemaToZod 3 status_ref (Some ["Pet"]) =
    Ok ("StatusSchema", Some ["Pet"; "Status"]) /\ refs_extend (Some ["Pet"]) (Some ["Pet"; "Status"]).
Proof. split; [reflexivity|]. apply (compile_refs_append 3 status_ref _ "StatusSchema"). reflexivity. Defined.

(** ** Combinators, objects without properties, [allOf] over a reference *)

(** A node with a [oneOf] array (or, with a falsy [oneOf], an [anyOf]
    array), a falsy [$ref] and a [type] that is no array compiles to the union
    of its variants compiled in order, whatever its [type], [anyOf] and
    [allOf] say; one variant or none still give a [z.union]. *)
Theorem compile_oneOf_anyOf n kvs l r :
  truthy (field kvs "$ref") = false -> is_array (field kvs "type") = false ->
  (field kvs "oneOf" = VArr l \/
   (truthy (field kvs "oneOf") = false /\ field kvs "anyOf" = VArr l)) ->
  convertJsonSchemaToZod (S n) (VObj kvs) r =
  bind (mapM (convertJsonSchemaToZod n) l) (fun outs => ret (union_of outs)) r.
Proof.
  intros Href Hty Hc. rewrite compile_obj. cbv zeta. rewrite Href, Hty.
  unfold handleCombinators. rewrite !get_obj, bind_lift_Ok.
  destruct Hc as [Ho|[Ho Ha]].
  - rewrite Ho. cbn [truthy orb array_receiver]. now rewrite bind_lift_Ok.
  - rewrite Ho, Ha. cbn [truthy orb array_receiver]. now rewrite !bind_lift_Ok.
Qed.

Lemma compile_oneOf_anyOf_witness :
  convertJsonSchemaToZod 3 oneOf_typed None = Ok ("z.union([z.boolean()])", None) /\
  convertJsonSchemaToZod 3 oneOf_typed None =
  bind (mapM (convertJsonSchemaToZod 2) [VObj [("type", VStr "boolean")]])
       (fun outs => ret (union_of outs)) None.
Proof.
  split; [reflexivity|].
  apply (compile_oneOf_anyOf 2 _ [VObj [("type", VStr "boolean")]] None);
    [reflexivity|reflexivity|left; reflexivity].
Defined.

(** A node of type ["object"] whose [properties] is falsy compiles to
    [z.object({})]: its [additionalProperties] and [required] are not
    looked at, so no [.strict()], [.passthrough()] or [.catchall] is
    emitted. *)
Theorem compile_object_without_properties n kvs r :
  truthy (field kvs "$ref") = false -> field kvs "type" = VStr "object" ->
  truthy (field kvs "oneOf") = false -> truthy (field kvs "anyOf") = false ->
  truthy (field kvs "allOf") = false -> truthy (field kvs "properties") = false ->
  convertJsonSchemaToZod (S n) (VObj kvs) r = Ok ("z.object({})", r).
Proof.
  intros Href Hty Ho Ha Hl Hp. rewrite compile_obj. cbv zeta.
  rewrite Href, Hty, Ho, Ha, Hl. cbn [orb is_array].
  change (is_str "string" (VStr "object")) with false.
  change (is_str "number" (VStr "object")) with false.
  change (is_str "integer" (VStr "object")) with false.
  change (is_str "boolean" (VStr "object")) with false.
  change (is_str "array" (VStr "object")) with false.
  change (is_str "object" (VStr "object")) with true. cbv iota.
  unfold handleObjectSchema. rewrite get_obj, bind_lift_Ok, Hp. reflexivity.
Qed.

Lemma compile_object_without_properties_witness :
  convertJsonSchemaToZod 1 strict_object_no_props None = Ok ("z.object({})", None).
Proof.
  apply compile_object_without_properties; reflexivity.
Defined.

(** An [allOf] whose branches satisfy [branch_ok] (objects with distinct
    keys, whose [properties], when present, is an object with distinct keys
    and whose [required], when present, is an array of strings) and set a
    non-empty string [$ref] (the last one that sets it wins) compiles to
    that reference's symbol: the merged node keeps the [$ref], so the
    properties, [required] and [type] of the other branches are dropped, and
    the name is recorded in the reference set. *)
Theorem compile_allOf_ref n kvs bks s r :
  truthy (field kvs "$ref") = false -> is_array (field kvs "type") = false ->
  truthy (field kvs "oneOf") = false -> truthy (field kvs "anyOf") = false ->
  field kvs "allOf" = VArr (map VObj bks) -> forallb branch_ok bks = true ->
  last_defined bks "$ref" = Some (VStr s) -> s <> "" ->
  convertJsonSchemaToZod (S (S n)) (VObj kvs) r =
  Ok (ref_name s ++ "Schema", add_to_refs (ref_name s) r).
Proof.
  intros Href Hty Ho Ha Hall Hok Hlast Hs.
  rewrite (compile_allOf (S n) kvs (map VObj bks) r Href Hty Ho Ha Hall).
  destruct (merge_fold bks [] [] merge_inv_nil Hok) as [m [Hm [_ [Hother _]]]].
  unfold mergeAllOfSchemas. cbn [array_receiver res_bind]. rewrite Hm.
  apply compile_ref; [|exact Hs].
  rewrite (Hother "$ref"); [exact Hlast|discriminate|discriminate].
Qed.

Lemma compile_allOf_ref_witness :
  convertJsonSchemaToZod 4 allOf_with_ref (Some []) = Ok ("BaseSchema", Some ["Base"]).
Proof.
  apply (compile_allOf_ref 2 _ [[("$ref", VStr "#/components/schemas/Base")];
                               [("type", VStr "object");
                                ("properties", VObj [("extra", string_schema)])]]
           "#/components/schemas/Base" (Some []));
    try reflexivity; discriminate.
Defined.

(** ** The fields of an object expression *)

Lemma mapM_Forall2 {A B} (f : A -> M B) l : forall r bs r',
  mapM f l r = Ok (bs, r') -> Forall2 (fun x b => exists r1 r2, f x r1 = Ok (b, r2)) l bs.
Proof.
  induction l as [|x t IH]; intros r bs r' H; simpl in H.
  - injection H as <- _. constructor.
  - unfold bind in H. destruct (f x r) as [[y r1]| |] eqn:E1; try discriminate.
    destruct (mapM f t r1) as [[ys r2]| |] eqn:E2; try discriminate.
    injection H as <- _. constructor; [now exists r, r1|exact (IH _ _ _ E2)].
Qed.

(** A node of type ["object"] with an object [properties] compiles, when it
    returns, to [z.object({ ... })] with one field per property in order:
    the property name (quoted unless it is an identifier), the property's
    schema compiled, and [.optional()] unless [required.includes(name)]
    holds for it; then [.passthrough()] for [additionalProperties: true],
    [.strict()] for [false], [.catchall(...)] with the compiled schema for
    any other object, and nothing otherwise. *)
Theorem compile_object_fields n kvs pk r out r' :
  truthy (field kvs "$ref") = false -> field kvs "type" = VStr "object" ->
  truthy (field kvs "oneOf") = false -> truthy (field kvs "anyOf") = false ->
  truthy (field kvs "allOf") = false -> field kvs "properties" = VObj pk ->
  convertJsonSchemaToZod (S n) (VObj kvs) r = Ok (out, r') ->
  exists fields suffix,
    out = ("z.object({ " ++ join ", " fields ++ " })") ++ suffix /\
    Forall2 (fun kv f => exists s b r1 r2,
               convertJsonSchemaToZod n (snd kv) r1 = Ok (s, r2) /\
               required_includes (VObj kvs) (fst kv) = Ok b /\
               f = property_name (fst kv) ++ ": " ++ s ++ (if b then "" else ".optional()"))
            pk fields /\
    match field kvs "additionalProperties" with
    | VBool true => suffix = ".passthrough()"
    | VBool false => suffix = ".strict()"
    | ap => if truthy ap && typeof_object ap
            then exists s r1 r2, convertJsonSchemaToZod n ap r1 = Ok (s, r2) /\
                                 suffix = ".catchall(" ++ s ++ ")"
            else suffix = ""
    end.
Proof.
  intros Href Hty Ho Ha Hl Hp H. rewrite compile_obj in H. cbv zeta in H.
  rewrite Href, Hty, Ho, Ha, Hl in H. cbn [orb is_array] in H.
  change (is_str "string" (VStr "object")) with false in H.
  change (is_str "number" (VStr "object")) with false in H.
  change (is_str "integer" (VStr "object")) with false in H.
  change (is_str "boolean" (VStr "object")) with false in H.
  change (is_str "array" (VStr "object")) with false in H.
  change (is_str "object" (VStr "object")) with true in H. cbn [orb] in H. cbv iota in H.
  unfold handleObjectSchema in H. rewrite get_obj, bind_lift_Ok, Hp in H.
  cbn [truthy negb] in H.
  change (object_entries (VObj pk)) with (@Ok (list (string * value)) pk) in H.
  rewrite bind_lift_Ok in H. unfold bind at 1 in H.
  match type of H with
  | (match mapM ?f pk r with _ => _ end) = _ =>
      destruct (mapM f pk r) as [[fields r1]| |] eqn:Em; try discriminate H;
      pose proof (mapM_Forall2 f pk r fields r1 Em) as HF
  end.
  rewrite get_obj, bind_lift_Ok in H.
  exists fields.
  assert (HF' : Forall2 (fun kv f => exists s b r1 r2,
               convertJsonSchemaToZod n (snd kv) r1 = Ok (s, r2) /\
               required_includes (VObj kvs) (fst kv) = Ok b /\
               f = property_name (fst kv) ++ ": " ++ s ++ (if b then "" else ".optional()"))
            pk fields).
  { eapply Forall2_impl; [|exact HF]. intros kv f [r2 [r3 Hf]]. cbv beta in Hf.
    unfold bind in Hf. destruct (convertJsonSchemaToZod n (snd kv) r2) as [[s r4]| |] eqn:Ec;
      try discriminate Hf.
    destruct (required_includes (VObj kvs) (fst kv)) as [b| |] eqn:Eb; simpl in Hf;
      try discriminate Hf.
    injection Hf as <- _. now exists s, b, r2, r4. }
  destruct (field kvs "additionalProperties") as [| |[]| | | |] eqn:Eap.
  all: cbn [truthy typeof_object andb negb] in *.
  all: try rewrite andb_false_r in *.
  all: unfold ret in H.
  all: try (injection H as <- _; exists ""; split; [now rewrite str_append_nil_r|split; [exact HF'|reflexivity]]).
  all: try (injection H as <- _; eexists; split; [reflexivity|split; [exact HF'|reflexivity]]).
  all: unfold bind in H;
    match type of H with
    | (match convertJsonSchemaToZod ?m ?ap ?r0 with _ => _ end) = _ =>
        destruct (convertJsonSchemaToZod m ap r0) as [[s r5]| |] eqn:Ec; try discriminate H
    end;
    injection H as <- _; eexists; split; [reflexivity|split; [exact HF'|]];
    exists s; eauto.
Qed.

Lemma compile_object_fields_witness :
  convertJsonSchemaToZod 3 (VObj object_example) None =
    Ok ("z.object({ a: z.string(), " ++ quote "b-c" ++ ": z.number().optional() }).strict()", None) /\
  exists fields suffix,
    "z.object({ a: z.string(), " ++ quote "b-c" ++ ": z.number().optional() }).strict()" =
      ("z.object({ " ++ join ", " fields ++ " })") ++ suffix /\ suffix = ".strict()".
Proof.
  split; [reflexivity|].
  destruct (compile_object_fields 2 object_example object_example_fields None
              ("z.object({ a: z.string(), " ++ quote "b-c" ++ ": z.number().optional() }).strict()")
              None eq_refl eq_refl eq_refl eq_refl eq_refl eq_refl eq_refl)
    as [fields [suffix [H1 [_ H3]]]].
  exists fields, suffix. split; [exact H1|exact H3].
Defined.

(** ** The pattern literal of a string schema *)

Lemma escape_pattern_roundtrip p :
  no_line_break p = true -> js_literal_body (escape_quotes (escape_backslashes p)) = Some p.
Proof.
  induction p as [|c t IH]; [reflexivity|]. simpl. intro H.
  apply andb_true_iff in H as [Hc Ht]. specialize (IH Ht).
  destruct (Ascii.eqb c backslash) eqn:E1.
  - apply Ascii.eqb_eq in E1. subst c. simpl. rewrite IH. reflexivity.
  - destruct (Ascii.eqb c (ascii_of_nat 34)) eqn:E2.
    + apply Ascii.eqb_eq in E2. subst c. simpl. rewrite IH. reflexivity.
    + simpl. rewrite E2. simpl. rewrite E1.
      apply negb_true_iff in Hc. rewrite E2. cbn [orb]. rewrite Hc. rewrite IH. reflexivity.
Qed.

(** For a string schema with no [enum] and a truthy [pattern] whose text
    [String(pattern)] converts without raising and has no line break, and
    whose [minLength] and [maxLength] also convert without raising, the
    emitted [.regex(new RegExp(...))] holds a string literal that denotes
    exactly that text: backslashes are doubled before quotes are escaped, so
    the regular expression is the pattern. *)
Theorem string_pattern_literal kvs p :
  truthy (field kvs "enum") = false -> truthy (field kvs "pattern") = true ->
  js_to_string (field kvs "pattern") = Ok p -> no_line_break p = true ->
  printable (field kvs "minLength") = true -> printable (field kvs "maxLength") = true ->
  exists pre e post,
    handleStringSchema (VObj kvs) = Ok (pre ++ ".regex(new RegExp(" ++ quote e ++ "))" ++ post) /\
    js_literal_body e = Some p.
Proof.
  intros He Hp Hps Hn Hmn Hmx. unfold handleStringSchema. rewrite !get_obj. cbn [res_bind].
  rewrite He, Hp, Hps. cbn [res_bind].
  destruct (printable_ok _ Hmn) as [sn Hsn]. destruct (printable_ok _ Hmx) as [sx Hsx].
  rewrite Hsn, Hsx.
  set (f := field kvs "format"). set (mn := field kvs "minLength").
  set (mx := field kvs "maxLength").
  exists ("z.string()" ++ (if truthy f then format_validator f else "")),
         (escape_quotes (escape_backslashes p)),
         ((if is_undefined mn then "" else ".min(" ++ sn ++ ")") ++
          (if is_undefined mx then "" else ".max(" ++ sx ++ ")")).
  split; [|exact (escape_pattern_roundtrip _ Hn)].
  destruct (is_undefined mn), (is_undefined mx); cbn [res_bind]; f_equal;
    rewrite ?str_append_nil_r, !str_append_assoc; reflexivity.
Qed.

Lemma string_pattern_literal_witness :
  exists pre e post,
    handleStringSchema (VObj pattern_example) =
      Ok (pre ++ ".regex(new RegExp(" ++ quote e ++ "))" ++ post) /\
    js_literal_body e = Some ("^" ++ String backslash (String (ascii_of_nat 34) "a+$")).
Proof.
  apply (string_pattern_literal pattern_example
           ("^" ++ String backslash (String (ascii_of_nat 34) "a+$"))); reflexivity.
Defined.

(** ** The import list of a template *)

Lemma index_of_app x pre t :
  index_of x (pre ++ t) =
  if existsb (String.eqb x) pre then index_of x pre else length pre + index_of x t.
Proof.
  induction pre as [|y pre IH]; [reflexivity|]. simpl.
  destruct (String.eqb x y); simpl; [reflexivity|]. rewrite IH.
  destruct (existsb (String.eqb x) pre); reflexivity.
Qed.

Lemma index_of_lt x l : existsb (String.eqb x) l = true -> index_of x l < length l.
Proof.
  induction l as [|y l IH]; simpl; [discriminate|].
  destruct (String.eqb x y); simpl; [lia|]. intro H. specialize (IH H). lia.
Qed.

Lemma index_of_at x pre t :
  Nat.eqb (index_of x (pre ++ x :: t)) (length pre) = negb (existsb (String.eqb x) pre).
Proof.
  rewrite index_of_app. destruct (existsb (String.eqb x) pre) eqn:E; simpl.
  - apply Nat.eqb_neq. pose proof (index_of_lt _ _ E). lia.
  - rewrite String.eqb_refl. apply Nat.eqb_eq. lia.
Qed.

Lemma existsb_eqb_In x l : existsb (String.eqb x) l = true <-> In x l.
Proof.
  rewrite existsb_exists. split.
  - intros [y [Hy E]]. apply String.eqb_eq in E. subst. exact Hy.
  - intro H. exists x. split; [exact H | apply String.eqb_refl].
Qed.

Lemma existsb_eqb_ext x s1 s2 :
  (forall y, In y s1 <-> In y s2) -> existsb (String.eqb x) s1 = existsb (String.eqb x) s2.
Proof.
  intro H. destruct (existsb (String.eqb x) s1) eqn:E1, (existsb (String.eqb x) s2) eqn:E2;
    try reflexivity.
  - apply existsb_eqb_In, H, existsb_eqb_In in E1. congruence.
  - apply existsb_eqb_In, H, existsb_eqb_In in E2. congruence.
Qed.

Lemma first_occurrences_ext s1 s2 l :
  (forall y, In y s1 <-> In y s2) -> first_occurrences s1 l = first_occurrences s2 l.
Proof.
  revert s1 s2. induction l as [|x t IH]; intros s1 s2 H; [reflexivity|]. simpl.
  rewrite (existsb_eqb_ext x s1 s2 H).
  destruct (existsb (String.eqb x) s2); [apply IH; exact H|].
  f_equal. apply IH. intro y. rewrite !in_app_iff. specialize (H y). tauto.
Qed.

Lemma dedup_first_gen pre suf :
  map fst (filter (fun p => Nat.eqb (index_of (fst p) (pre ++ suf)) (snd p))
             (combine suf (seq (length pre) (length suf)))) =
  first_occurrences pre suf.
Proof.
  revert pre. induction suf as [|x t IH]; intro pre; [reflexivity|].
  cbn [length seq combine filter fst snd]. rewrite index_of_at.
  specialize (IH (pre ++ [x])%list).
  rewrite <- app_assoc in IH. cbn [app] in IH. rewrite length_app in IH.
  cbn [length] in IH. rewrite Nat.add_1_r in IH. simpl.
  destruct (existsb (String.eqb x) pre) eqn:E; simpl; rewrite IH; [|reflexivity].
  apply first_occurrences_ext. intro y. rewrite in_app_iff. simpl.
  apply existsb_eqb_In in E. split; [intros [H|[<-|[]]]; assumption|tauto].
Qed.

Lemma dedup_first_first_occurrences l : dedup_first l = first_occurrences [] l.
Proof. exact (dedup_first_gen [] l). Qed.

Lemma first_occurrences_In seen l y :
  In y (first_occurrences seen l) <-> In y l /\ ~ In y seen.
Proof.
  revert seen. induction l as [|x t IH]; intro seen; simpl; [tauto|].
  destruct (existsb (String.eqb x) seen) eqn:E.
  - rewrite IH. apply existsb_eqb_In in E. split; [tauto|].
    intros [[<-|H] H']; [contradiction|tauto].
  - simpl. rewrite IH, in_app_iff. simpl.
    assert (~ In x seen) by (rewrite <- existsb_eqb_In, E; discriminate).
    split.
    + intros [<-|[H1 H2]]; [tauto|]. split; [tauto|]. tauto.
    + intros [[<-|H1] H2]; [tauto|].
      destruct (String.eqb_spec x y) as [->|Hne]; [tauto|]. right. split; [exact H1|]. tauto.
Qed.

Lemma first_occurrences_NoDup seen l : NoDup (first_occurrences seen l).
Proof.
  revert seen. induction l as [|x t IH]; intro seen; simpl; [constructor|].
  destruct (existsb (String.eqb x) seen); [apply IH|].
  constructor; [|apply IH].
  rewrite first_occurrences_In, in_app_iff. simpl. tauto.
Qed.

(** The import lines a template declares are those of its input, query and
    output schemas, each kept at its first occurrence in that order: the
    [indexOf] filter drops exactly the repeats, so no import line is
    declared twice and none is lost. *)
Theorem template_imports_first_occurrences input query output :
  let all := (sr_imports input ++ sr_imports query ++ sr_imports output)%list in
  template_imports input query output = first_occurrences [] all /\
  NoDup (template_imports input query output) /\
  (forall x, In x (template_imports input query output) <-> In x all).
Proof.
  intro all. unfold template_imports. fold all. rewrite dedup_first_first_occurrences.
  split; [reflexivity|split; [apply first_occurrences_NoDup|]].
  intro x. rewrite first_occurrences_In. simpl. tauto.
Qed.

(** ** The imports of [convertSchemaWithImports] *)

Lemma str_length_app (a b : string) : String.length (a ++ b) = String.length a + String.length b.
Proof. induction a as [|c a IH]; simpl; [reflexivity|now rewrite IH]. Qed.

Lemma str_app_same_length (a b x y : string) :
  String.length a = String.length b -> a ++ x = b ++ y -> a = b.
Proof.
  revert b. induction a as [|c a IH]; intros [|c' b] Hl H; simpl in *; try discriminate;
    [reflexivity|].
  injection H as -> H. f_equal. apply (IH b); [lia|exact H].
Qed.

Lemma import_line_inj a b : import_line a = import_line b -> a = b.
Proof.
  unfold import_line, quote. intro H. cbn [append] in H.
  repeat (injection H as H).
  assert (Hl : String.length a = String.length b).
  { apply (f_equal String.length) in H. rewrite !str_length_app in H.
    cbn [String.length append] in H. rewrite !str_length_app in H. cbn [String.length] in H.
    lia. }
  exact (str_app_same_length _ _ _ _ Hl H).
Qed.

Lemma map_inj_NoDup {A B} (f : A -> B) (l : list A) :
  (forall a b, f a = f b -> a = b) -> NoDup l -> NoDup (map f l).
Proof.
  intros Hf Hl. induction Hl as [|x l Hx Hl IH]; simpl; constructor; [|exact IH].
  intro Hin. apply in_map_iff in Hin as [y [Hy Hin]]. apply Hf in Hy. subst. contradiction.
Qed.

(** The imports [convertSchemaWithImports] returns are pairwise distinct,
    and each is the import line of a name [schemas[name]] reads as truthy:
    the referenced names are collected in a set, and only the registered
    ones are imported. *)
Theorem convertSchemaWithImports_imports fuel schema schemas sr :
  convertSchemaWithImports fuel schema schemas = Ok sr ->
  NoDup (sr_imports sr) /\
  forall x, In x (sr_imports sr) ->
    exists name, x = import_line name /\ registry_truthy schemas name = true.
Proof.
  intro H. unfold convertSchemaWithImports in H. cbv zeta in H.
  assert (Hca : forall sr,
    (zr <-? convertJsonSchemaToZod fuel schema (Some []) ;;
     Ok {| sr_schema := fst zr;
           sr_imports := map import_line (filter (registry_truthy schemas)
                           (match snd zr with Some l => l | None => [] end)) |}) = Ok sr ->
    NoDup (sr_imports sr) /\
    forall x, In x (sr_imports sr) ->
      exists name, x = import_line name /\ registry_truthy schemas name = true).
  { clear sr H. intro sr.
    destruct (convertJsonSchemaToZod fuel schema (Some [])) as [[out r']| |] eqn:E;
      cbn [res_bind]; try discriminate.
    intro Heq. injection Heq as <-.
    pose proof (convertJsonSchemaToZod_app fuel schema (Some []) out r' E) as Hx.
    destruct r' as [l|]; [|destruct Hx]. destruct Hx as [e [-> Hnd]].
    specialize (Hnd (NoDup_nil _)). cbn [sr_imports snd]. split.
    - apply map_inj_NoDup; [exact import_line_inj|]. apply NoDup_filter. exact Hnd.
    - intros x Hx. apply in_map_iff in Hx as [name [<- Hn]]. apply filter_In in Hn.
      exists name. split; [reflexivity|tauto]. }
  destruct (get schema "$ref") as [ref| |]; cbn [res_bind] in H; try discriminate.
  destruct (truthy ref); [|exact (Hca sr H)].
  destruct ref; cbn [res_bind] in H; try discriminate.
  destruct (registry_truthy schemas (last (split_char "/" s) "")) eqn:E; [|exact (Hca sr H)].
  injection H as <-. cbn [sr_imports]. split.
  - constructor; [intros []|constructor].
  - intros x [<-|[]]. eexists. split; [reflexivity|exact E].
Qed.

Lemma convertSchemaWithImports_imports_witness :
  convertSchemaWithImports 5 (VObj [("$ref", VStr "#/components/schemas/Pet")])
    [("Pet", "PetSchema")] =
    Ok {| sr_schema := "PetSchema"; sr_imports := [import_line "Pet"] |} /\
  NoDup [import_line "Pet"] /\
  forall x, In x [import_line "Pet"] ->
    exists name, x = import_line name /\ registry_truthy [("Pet", "PetSchema")] name = true.
Proof.
  split; [reflexivity|].
  exact (convertSchemaWithImports_imports 5 (VObj [("$ref", VStr "#/components/schemas/Pet")])
           [("Pet", "PetSchema")] {| sr_schema := "PetSchema"; sr_imports := [import_line "Pet"] |}
           eq_refl).
Defined.

(** ** The file names of the templates *)

Lemma lower_upper_char c : lower_char (upper_char c) = lower_char c.
Proof. destruct c as [[] [] [] [] [] [] [] []]; reflexivity. Qed.

Lemma to_lower_to_upper m : to_lower (to_upper m) = to_lower m.
Proof. induction m as [|c t IH]; simpl; [reflexivity|now rewrite lower_upper_char, IH]. Qed.

Lemma map_res_Forall2 {A B} (f : A -> res B) l ys :
  map_res f l = Ok ys -> Forall2 (fun x y => f x = Ok y) l ys.
Proof.
  revert ys. induction l as [|x t IH]; intros ys H; simpl in H.
  - injection H as <-. constructor.
  - destruct (f x) as [y| |] eqn:E; cbn [res_bind] in H; try discriminate.
    destruct (map_res f t) as [ys'| |]; cbn [res_bind] in H; try discriminate.
    injection H as <-. constructor; [exact E|now apply IH].
Qed.

Lemma Forall2_map_eq {A B C} (g : B -> C) (h : A -> C) (R : A -> B -> Prop) l ys :
  (forall x y, R x y -> g y = h x) -> Forall2 R l ys -> map g ys = map h l.
Proof. intros Hgh HF. induction HF; simpl; [reflexivity|f_equal; auto]. Qed.

Lemma generateTemplate_filename fuel path method operation schemas t :
  generateTemplate fuel path method operation schemas = Ok t ->
  filename t = generateFilePath path method.
Proof.
  unfold generateTemplate.
  destruct (generateInputSchema _ _ _); cbn [res_bind]; try discriminate.
  destruct (generateQuerySchema _ _); cbn [res_bind]; try discriminate.
  destruct (generateOutputSchema _ _ _); cbn [res_bind]; try discriminate.
  intro H. injection H as <-. reflexivity.
Qed.

(** On success, [generateTemplates] names one file per key of each path item
    that is an HTTP method in any letter case, in the order of the paths and
    of their keys: [<cleaned path>/<key in lower case>.ts].  Upper-casing the
    method before [generateFilePath] lowers it again, so two keys differing
    only in case give the same file name. *)
Theorem generateTemplates_filenames fuel spec schemas ts :
  generateTemplates fuel spec schemas = Ok ts ->
  exists paths, get spec "paths" = Ok paths /\
    map filename ts =
    concat (map (fun pe => map (fun me => generateFilePath (fst pe) (fst me))
                             (filter (fun me => isValidHttpMethod (fst me)) (own_entries (snd pe))))
                (own_entries paths)).
Proof.
  unfold generateTemplates. intro H.
  destruct (get spec "paths") as [paths| |]; cbn [res_bind] in H; try discriminate.
  exists paths. split; [reflexivity|].
  unfold object_entries in H at 1. destruct (is_nullish paths); cbn [res_bind] in H;
    try discriminate.
  match type of H with res_bind (map_res ?f ?l) _ = _ =>
    destruct (map_res f l) as [per| |] eqn:E; cbn [res_bind] in H; try discriminate end.
  injection H as <-. apply map_res_Forall2 in E. rewrite concat_map.
  f_equal. revert E. apply Forall2_map_eq.
  intros pe ys Hpe. cbv beta in Hpe.
  unfold object_entries in Hpe. destruct (is_nullish (snd pe)); cbn [res_bind] in Hpe;
    try discriminate.
  apply map_res_Forall2 in Hpe. revert Hpe. apply Forall2_map_eq.
  intros me t Ht. rewrite (generateTemplate_filename _ _ _ _ _ _ Ht).
  unfold generateFilePath. now rewrite to_lower_to_upper.
Qed.

Lemma generateTemplates_filenames_witness :
  exists ts, generateTemplates 5 pets_spec [] = Ok ts /\
    map filename ts = ["pets/get.ts"; "pets/post.ts"].
Proof.
  pose (ts := match generateTemplates 5 pets_spec [] with Ok t => t | _ => [] end).
  assert (E : generateTemplates 5 pets_spec [] = Ok ts) by (vm_compute; reflexivity).
  exists ts. split; [exact E|].
  destruct (generateTemplates_filenames 5 pets_spec [] ts E) as [paths [Hp ->]].
  vm_compute in Hp. injection Hp as <-. vm_compute. reflexivity.
Defined.

(** ** The files [writeTemplatesToDisk] leaves *)

Lemma str_app_last_char_neq (x y : string) (c1 c2 : ascii) :
  c1 <> c2 -> x ++ String c1 EmptyString <> y ++ String c2 EmptyString.
Proof.
  intro Hc. revert y. induction x as [|d x IH]; intros [|e y] H; simpl in H.
  - injection H as ->. contradiction.
  - injection H as _ H. destruct y; discriminate.
  - injection H as _ H. destruct x; discriminate.
  - injection H as _ H. exact (IH y H).
Qed.

Lemma path_eqb_eq a b : path_eqb a b = true <-> a = b.
Proof. unfold path_eqb. destruct (list_eq_dec string_dec a b); split; congruence. Qed.

Lemma find_filter_same {A} (f g : A -> bool) l :
  (forall x, f x = true -> g x = true) -> find f (filter g l) = find f l.
Proof.
  intro H. induction l as [|x t IH]; simpl; [reflexivity|].
  destruct (g x) eqn:Eg; simpl.
  - destruct (f x); [reflexivity|exact IH].
  - destruct (f x) eqn:Ef; [rewrite (H x Ef) in Eg; discriminate|exact IH].
Qed.

Lemma disk_write_lookup d p c d' q :
  disk_write d p c = Ok d' ->
  disk_lookup d' q = if path_eqb (normalize p) q then Some c else disk_lookup d q.
Proof.
  unfold disk_write. cbv zeta.
  destruct (existsb _ d); [discriminate|]. destruct (_ || _); [discriminate|].
  intro H. injection H as <-. unfold disk_lookup. cbn [find fst].
  destruct (path_eqb (normalize p) q) eqn:E; [reflexivity|].
  rewrite find_filter_same; [reflexivity|].
  intros [q' c'] Hq. cbn [fst] in *. apply path_eqb_eq in Hq. subst q'.
  apply negb_true_iff. destruct (path_eqb q (normalize p)) eqn:E'; [|reflexivity].
  apply path_eqb_eq in E'. subst q. unfold path_eqb in E.
  destruct (list_eq_dec string_dec (normalize p) (normalize p)); [discriminate|congruence].
Qed.

Lemma apply_writes_lookup ws : forall d d' q,
  apply_writes d ws = Ok d' ->
  disk_lookup d' q =
  fold_left (fun acc w => if path_eqb (normalize (fst w)) q then Some (snd w) else acc)
    ws (disk_lookup d q).
Proof.
  induction ws as [|w t IH]; intros d d' q H; simpl in H.
  - injection H as <-. reflexivity.
  - destruct (disk_write d (fst w) (snd w)) as [d0| |] eqn:E; try discriminate H.
    cbn [res_bind] in H. rewrite (IH _ _ q H). simpl. f_equal.
    exact (disk_write_lookup _ _ _ _ q E).
Qed.

Lemma split_char_snoc sep s d :
  Ascii.eqb d sep = false ->
  exists init w, split_char sep (s ++ String d EmptyString) = app init [w ++ String d EmptyString].
Proof.
  intro Hd. induction s as [|c t IH]; simpl.
  - rewrite Hd. now exists [], "".
  - destruct IH as [init [w ->]]. destruct (Ascii.eqb c sep).
    + now exists ("" :: init), w.
    + destruct init as [|x xs]; simpl.
      * now exists [], (String c w).
      * now exists (String c x :: xs), w.
Qed.

Lemma normalize_snoc s d :
  Ascii.eqb d slash = false -> d <> "."%char ->
  exists P w, normalize (s ++ String d EmptyString) = app P [w ++ String d EmptyString].
Proof.
  intros Hs Hd. destruct (split_char_snoc slash s d Hs) as [init [w Hsp]].
  unfold normalize. rewrite Hsp, fold_left_app. simpl.
  assert (Hx : forall y, w ++ String d EmptyString <> y ++ "."%string).
  { intros y H. exact (str_app_last_char_neq w y d "."%char Hd H). }
  unfold resolve_step at 1.
  replace (String.eqb (w ++ String d EmptyString) "") with false
    by (symmetry; apply String.eqb_neq; destruct w; discriminate).
  replace (String.eqb (w ++ String d EmptyString) ".") with false
    by (symmetry; apply String.eqb_neq; exact (Hx "")).
  replace (String.eqb (w ++ String d EmptyString) "..") with false
    by (symmetry; apply String.eqb_neq; exact (Hx ".")).
  simpl. eexists _, w. reflexivity.
Qed.

Lemma gitkeep_not_target x t :
  path_eqb (normalize (x ++ "/.gitkeep")) (normalize (t ++ ".ts")) = false.
Proof.
  apply not_true_iff_false. rewrite path_eqb_eq.
  assert (E1 : x ++ "/.gitkeep" = (x ++ "/.gitkee") ++ "p") by (rewrite str_append_assoc; reflexivity).
  assert (E2 : t ++ ".ts" = (t ++ ".t") ++ "s") by (rewrite str_append_assoc; reflexivity).
  rewrite E1, E2.
  destruct (normalize_snoc (x ++ "/.gitkee") "p" eq_refl ltac:(discriminate)) as [P1 [w1 ->]].
  destruct (normalize_snoc (t ++ ".t") "s" eq_refl ltac:(discriminate)) as [P2 [w2 ->]].
  intro H. apply app_inj_tail in H as [_ H]. revert H. apply str_app_last_char_neq. discriminate.
Qed.

Lemma fold_last_some {A B} (P : A -> bool) (h : A -> B) l acc :
  fold_left (fun acc x => if P x then Some (h x) else acc) l acc =
  match fold_left (fun acc x => if P x then Some (h x) else acc) l None with
  | Some c => Some c
  | None => acc
  end.
Proof.
  revert acc. induction l as [|x t IH]; intro acc; simpl; [reflexivity|].
  destruct (P x); [|apply IH].
  rewrite (IH (Some (h x))). destruct (fold_left _ t None); reflexivity.
Qed.

(** After a [writeTemplatesToDisk] that completes, the file
    [<templatesDir>/<f>] for a name [f] ending in [.ts] holds the content of
    the last template whose file resolves to the same path (so
    [a/./b/get.ts] and [a/b/get.ts] are one file, and the later template
    wins), or, when there is none, what the file held before: the
    [.gitkeep] files written before each template never overwrite it. *)
Theorem writeTemplatesToDisk_reads apiName templates d d' f b :
  writeTemplatesToDisk apiName templates d = Ok d' -> f = b ++ ".ts" ->
  disk_read d' (templates_dir apiName ++ "/" ++ f) =
  match last_template_content (templates_dir apiName) templates
          (normalize (templates_dir apiName ++ "/" ++ f)) with
  | Some c => Some c
  | None => disk_read d (templates_dir apiName ++ "/" ++ f)
  end.
Proof.
  intros Hw ->. unfold writeTemplatesToDisk in Hw. set (D := templates_dir apiName) in *.
  unfold disk_read. rewrite (apply_writes_lookup _ _ _ _ Hw).
  set (q := normalize (D ++ "/" ++ b ++ ".ts")).
  assert (Hg : forall x, path_eqb (normalize (x ++ "/.gitkeep")) q = false).
  { intro x. unfold q. replace (D ++ "/" ++ b ++ ".ts") with ((D ++ "/" ++ b) ++ ".ts")
      by (rewrite !str_append_assoc; reflexivity).
    apply gitkeep_not_target. }
  cbn [fold_left fst snd]. rewrite Hg. unfold last_template_content.
  rewrite <- fold_last_some. generalize (disk_lookup d q) as acc. clear Hw.
  induction templates as [|t ts IH]; intro acc; [reflexivity|].
  cbn [map concat]. rewrite fold_left_app. cbn [fold_left]. rewrite <- IH. f_equal.
  unfold template_writes. cbn [fold_left fst snd]. rewrite Hg. reflexivity.
Qed.

Lemma writeTemplatesToDisk_reads_witness :
  exists d', writeTemplatesToDisk "petstore" two_templates [] = Ok d' /\
    "pets/get.ts" = "pets/get" ++ ".ts" /\
    disk_read d' (templates_dir "petstore" ++ "/" ++ "pets/get.ts") = Some "second".
Proof.
  pose (d' := match writeTemplatesToDisk "petstore" two_templates [] with Ok x => x | _ => [] end).
  assert (E : writeTemplatesToDisk "petstore" two_templates [] = Ok d')
    by (vm_compute; reflexivity).
  exists d'. split; [exact E|]. split; [reflexivity|].
  rewrite (writeTemplatesToDisk_reads "petstore" two_templates [] d' "pets/get.ts" "pets/get"
             E eq_refl).
  vm_compute. reflexivity.
Defined.

(** ** The files and the registry of [extractAndWriteSchemas] *)

Lemma find_app {A} (f : A -> bool) l1 l2 :
  find f (l1 ++ l2) = match find f l1 with Some x => Some x | None => find f l2 end.
Proof. induction l1 as [|x t IH]; simpl; [reflexivity|destruct (f x); [reflexivity|exact IH]]. Qed.

Lemma find_map_other (s : registry) n sym name :
  n <> name ->
  find (fun kv => String.eqb (fst kv) name)
    (map (fun kv => if String.eqb (fst kv) n then (n, sym) else kv) s) =
  find (fun kv => String.eqb (fst kv) name) s.
Proof.
  intro Hne. induction s as [|[k v] t IH]; [reflexivity|]. cbn [map find fst].
  destruct (String.eqb_spec k n) as [->|Hk]; cbn [fst].
  - destruct (String.eqb_spec n name); [contradiction|]. exact IH.
  - destruct (String.eqb k name); [reflexivity|exact IH].
Qed.

Lemma find_map_same (s : registry) n sym :
  existsb (fun kv => String.eqb (fst kv) n) s = true ->
  find (fun kv => String.eqb (fst kv) n)
    (map (fun kv => if String.eqb (fst kv) n then (n, sym) else kv) s) = Some (n, sym).
Proof.
  induction s as [|[k v] t IH]; cbn [existsb map find fst]; [discriminate|].
  destruct (String.eqb_spec k n) as [->|Hk]; cbn [fst orb].
  - rewrite String.eqb_refl. reflexivity.
  - intro H. rewrite (proj2 (String.eqb_neq k n) Hk). exact (IH H).
Qed.

Lemma registry_set_find schemas n sym name :
  registry_find (registry_set schemas n sym) name =
  if String.eqb n "__proto__" then registry_find schemas name
  else if String.eqb n name then Some (n, sym) else registry_find schemas name.
Proof.
  unfold registry_set, registry_find.
  destruct (String.eqb n "__proto__"); [reflexivity|].
  destruct (existsb (fun kv => String.eqb (fst kv) n) schemas) eqn:Ex.
  - destruct (String.eqb_spec n name) as [<-|Hne].
    + exact (find_map_same _ _ _ Ex).
    + exact (find_map_other _ _ _ _ Hne).
  - rewrite find_app. destruct (String.eqb_spec n name) as [<-|Hne].
    + assert (Hf : find (fun kv => String.eqb (fst kv) n) schemas = None).
      { destruct (find _ schemas) as [[k v]|] eqn:Hf; [|reflexivity].
        apply find_some in Hf as [Hin Hk].
        assert (existsb (fun kv => String.eqb (fst kv) n) schemas = true)
          by (apply existsb_exists; exists (k, v); split; assumption).
        congruence. }
      rewrite Hf. cbn [find fst]. rewrite String.eqb_refl. reflexivity.
    + destruct (find _ schemas); [reflexivity|]. cbn [find fst].
      rewrite (proj2 (String.eqb_neq n name) Hne). reflexivity.
Qed.

Lemma write_schemas_spec fuel dir entries schemas files reg files' :
  write_schemas fuel dir entries schemas files = Ok (reg, files') ->
  map fst files' = app (map fst files) (map (fun e => dir ++ "/" ++ fst e ++ ".ts") entries) /\
  forall name, registry_find reg name =
    if existsb (String.eqb name) (map fst entries) && negb (String.eqb name "__proto__")
    then Some (name, name ++ "Schema") else registry_find schemas name.
Proof.
  revert schemas files. induction entries as [|[n d] t IH]; intros schemas files H;
    cbn [write_schemas] in H.
  - injection H as <- <-. rewrite app_nil_r. split; [reflexivity|]. intro; reflexivity.
  - destruct (convertJsonSchemaToZod fuel d (Some [])) as [zr| |]; cbn [res_bind] in H;
      try discriminate.
    destruct (IH _ _ H) as [Hf Hr]. split.
    + rewrite Hf, map_app, <- app_assoc. reflexivity.
    + intro name. rewrite Hr, registry_set_find. cbn [map fst existsb].
      destruct (String.eqb_spec name n) as [->|Hne].
      * rewrite String.eqb_refl. cbn [orb].
        destruct (String.eqb n "__proto__"), (existsb (String.eqb n) (map fst t)); reflexivity.
      * cbn [orb]. destruct (String.eqb_spec n name) as [->|_]; [congruence|].
        destruct (String.eqb n "__proto__"); reflexivity.
Qed.

(** On success, with [cs] the value of [spec.components?.schemas]:
    [extractAndWriteSchemas] issues no write and returns an empty registry
    when [cs] is falsy, and when [cs] is truthy it writes [<dir>/.gitkeep]
    then one file [<dir>/<name>.ts] per own entry of [cs], in order, and the
    returned registry maps each of those names to [<name>Schema], except
    [__proto__], which the assignment never stores. *)
Theorem extractAndWriteSchemas_files fuel apiName spec reg files :
  extractAndWriteSchemas fuel apiName spec = Ok (reg, files) ->
  let dir := ".rekku/apis/" ++ apiName ++ "/schemas" in
  exists components cs,
    get spec "components" = Ok components /\
    (if is_nullish components then cs = VUndef else get components "schemas" = Ok cs) /\
    (truthy cs = false -> reg = [] /\ files = []) /\
    (truthy cs = true ->
      map fst files =
        (dir ++ "/.gitkeep") :: map (fun e => dir ++ "/" ++ fst e ++ ".ts") (own_entries cs) /\
      forall name, In name (map fst (own_entries cs)) ->
        registry_find reg name =
        if String.eqb name "__proto__" then None else Some (name, name ++ "Schema")).
Proof.
  unfold extractAndWriteSchemas. intros H.
  destruct (get spec "components") as [components| |]; cbn [res_bind] in H; try discriminate.
  destruct (if is_nullish components then Ok VUndef else get components "schemas")
    as [cs| |] eqn:Hcs; cbn [res_bind] in H; try discriminate.
  exists components, cs. split; [reflexivity|].
  split; [destruct (is_nullish components); [now injection Hcs|exact Hcs]|].
  destruct (truthy cs) eqn:Ht; cbn [negb] in H.
  - split; [discriminate|intros _].
    unfold object_entries in H. destruct (is_nullish cs); cbn [res_bind] in H; try discriminate.
    destruct (write_schemas_spec _ _ _ _ _ _ _ H) as [Hf Hr]. split; [exact Hf|].
    intros name Hin. rewrite Hr. apply existsb_eqb_In in Hin. rewrite Hin. cbn [andb].
    destruct (String.eqb name "__proto__"); reflexivity.
  - split; [intros _; injection H as <- <-; split; reflexivity|discriminate].
Qed.

Lemma extractAndWriteSchemas_files_witness :
  exists reg files,
    extractAndWriteSchemas 5 "petstore" proto_components_spec = Ok (reg, files) /\
    map fst files = [".rekku/apis/petstore/schemas/.gitkeep";
                     ".rekku/apis/petstore/schemas/Pet.ts";
                     ".rekku/apis/petstore/schemas/__proto__.ts"] /\
    registry_find reg "Pet" = Some ("Pet", "PetSchema") /\
    registry_find reg "__proto__" = None.
Proof.
  pose (r := extractAndWriteSchemas 5 "petstore" proto_components_spec).
  pose (reg := match r with Ok (g, _) => g | _ => [] end).
  pose (files := match r with Ok (_, f) => f | _ => [] end).
  assert (E : extractAndWriteSchemas 5 "petstore" proto_components_spec = Ok (reg, files))
    by (vm_compute; reflexivity).
  exists reg, files. split; [exact E|].
  destruct (extractAndWriteSchemas_files _ _ _ _ _ E) as [c [cs [Hc [Hcs [_ Htrue]]]]].
  vm_compute in Hc. injection Hc as <-. vm_compute in Hcs. injection Hcs as <-.
  destruct (Htrue eq_refl) as [Hf Hr].
  split; [exact Hf|].
  split; [exact (Hr "Pet" (or_introl eq_refl))|].
  exact (Hr "__proto__" (or_intror (or_introl eq_refl))).
Defined.
